(** * Per-item shipping: consignment cache and wizard handlers

    A shallow embedding of
    [packages/core/src/app/shipping/consignment-persistence.ts] and of the
    handlers of the [CustomShipping] component
    ([packages/core/src/app/shipping/CustomShipping.tsx], with the two
    sibling variants of the component where a property is about them).

    Conventions of the embedding.
    - A value of TypeScript type [string | number] is an [ItemId]; [===]
      on two of them is [id_strict_eq], [.toString()] is [id_toString], and
      a use as an object key goes through [id_toString] as well.
    - JavaScript numbers are integers here (ids and quantities are).
    - A JavaScript string is held as the bytes of its UTF-8 form; only
      [trim] looks inside a character.
    - [sessionStorage] maps a key to a text; a text is described by what
      [JSON.parse] makes of it.  [JSON.stringify] of an array of plain
      records followed by [JSON.parse] gives the array back.
    - The Gateway, the checkout service and the address validator are not
      part of the component: they are oracles of an environment [Env],
      indexed by the number of awaited calls made so far, so that every
      behaviour of theirs is covered.
    - An [async] function is a computation in the monad [M]; [await] is the
      bind; a rejected promise is a thrown error.  The state setters of
      React write to the [ui] part of the world, while a handler reads the
      state variables of the render it was created in (a snapshot). *)

From stdpp Require Import base option strings list gmap pretty.
From Stdlib Require Import ZArith.

Set Warnings "-register-all".

Local Open Scope string_scope.
Local Open Scope list_scope.
Local Open Scope Z_scope.

(** ** JavaScript values *)

Inductive json : Type :=
| JNull
| JBool (b : bool)
| JNum (n : Z)
| JStr (s : string)
| JArr (l : list json)
| JObj (fields : list (string * json)).

Inductive js_error : Type := JsError (name message : string).

Definition err_message (e : js_error) : string :=
  match e with JsError _ m => m end.

Definition Error (msg : string) : js_error := JsError "Error" msg.
Definition TypeError (msg : string) : js_error := JsError "TypeError" msg.
Definition SyntaxError (msg : string) : js_error := JsError "SyntaxError" msg.

Inductive outcome (A : Type) : Type :=
| Normal (a : A)
| Thrown (e : js_error).
Arguments Normal {A} a.
Arguments Thrown {A} e.

Definition is_thrown {A} (o : outcome A) : bool :=
  match o with Normal _ => false | Thrown _ => true end.

(** [string | number] *)
Inductive ItemId : Type :=
| IdStr (s : string)
| IdNum (n : Z).

#[global] Instance ItemId_eq_dec : EqDecision ItemId.
Proof. solve_decision. Defined.

Definition id_toString (i : ItemId) : string :=
  match i with IdStr s => s | IdNum n => pretty n end.

Definition id_json (i : ItemId) : json :=
  match i with IdStr s => JStr s | IdNum n => JNum n end.

(** [a === b] *)
Definition id_strict_eq (a b : ItemId) : bool := bool_decide (a = b).

(** The own property [k] of an object; [None] is [undefined]. *)
Fixpoint assoc {A} (k : string) (fs : list (string * A)) : option A :=
  match fs with
  | [] => None
  | (k', v) :: rest => if String.eqb k' k then Some v else assoc k rest
  end.

(** [v.k]: reading a property of [null] throws; a primitive or an array has
    none of the data properties the code reads. *)
Definition js_get (v : json) (k : string) : outcome (option json) :=
  match v with
  | JNull => Thrown (TypeError ("Cannot read properties of null (reading '" +:+ k +:+ "')"))
  | JObj fs => Normal (assoc k fs)
  | _ => Normal None
  end.

Definition js_truthy (v : json) : bool :=
  match v with
  | JNull => false
  | JBool b => b
  | JNum n => negb (bool_decide (n = 0))
  | JStr s => negb (bool_decide (s = ""))
  | JArr _ | JObj _ => true
  end.

Definition opt_truthy (o : option json) : bool :=
  match o with Some v => js_truthy v | None => false end.

(** [v.toString()] for a value that came out of [JSON.parse]. *)
Fixpoint json_toString (v : json) : outcome string :=
  match v with
  | JNull => Thrown (TypeError "Cannot read properties of null (reading 'toString')")
  | JBool b => Normal (if b then "true" else "false")
  | JNum n => Normal (pretty n)
  | JStr s => Normal s
  | JArr l =>
      (fix join (l : list json) : outcome string :=
         match l with
         | [] => Normal ""
         | x :: rest =>
             match (match x with JNull => Normal "" | _ => json_toString x end) with
             | Thrown e => Thrown e
             | Normal sx =>
                 match rest with
                 | [] => Normal sx
                 | _ => match join rest with
                        | Thrown e => Thrown e
                        | Normal sr => Normal (sx +:+ "," +:+ sr)
                        end
                 end
             end
         end) l
  | JObj fs =>
      match assoc "toString" fs with
      | Some _ => Thrown (TypeError "toString is not a function")
      | None => Normal "[object Object]"
      end
  end.

(** [o.toString()] where [o] may be [undefined]. *)
Definition opt_toString (o : option json) : outcome string :=
  match o with
  | None => Thrown (TypeError "Cannot read properties of undefined (reading 'toString')")
  | Some v => json_toString v
  end.

(** Calling an [Array.prototype] method ([find], [findIndex], [filter]) on
    a parsed value: only an array has it. *)
Definition as_array (method : string) (v : json) : outcome (list json) :=
  match v with
  | JArr l => Normal l
  | JNull => Thrown (TypeError "Cannot read properties of null")
  | _ => Thrown (TypeError (method +:+ " is not a function"))
  end.

(** ** Domain records *)

(** An address object: its own properties, all strings. *)
Definition Address : Type := list (string * string).

Definition address_json (a : Address) : json :=
  JObj (map (λ kv, (kv.1, JStr kv.2)) a).

Record ShippingOption : Type := {
  so_id : string;
  so_description : string;
}.

Record LineItem : Type := {
  li_id : ItemId;
  li_name : string;
  li_quantity : Z;
  li_productId : Z;
  li_variantId : Z;
}.

(** A consignment as the Gateway reports it. *)
Record Consignment : Type := {
  c_id : string;
  c_lineItemIds : list string;
  c_shippingAddress : option Address;
  c_selectedShippingOption : option ShippingOption;
  c_availableShippingOptions : option (list ShippingOption);
}.

(** [ConsignmentWithItem]: the component's entry for one line item. *)
Record ConsignmentWithItem : Type := {
  cw_id : option string;
  cw_lineItemId : ItemId;
  cw_shippingAddress : option Address;
  cw_selectedShippingOption : option ShippingOption;
  cw_availableShippingOptions : option (list ShippingOption);
}.

Record Checkout : Type := {
  co_id : string;
  co_cartId : string;
  co_customerMessage : string;
  co_consignments : list Consignment;
  co_physicalItems : list LineItem;
}.

(** ** The Gateway *)

(** One element of the body of a consignment request. *)
Record ConsignmentRequest : Type := {
  cr_address : Address;
  cr_itemId : ItemId;
  cr_quantity : Z;
}.

Inductive request : Type :=
| GetCheckout (checkoutId : string) (include : string)
| PutCheckout (checkoutId : string) (customerMessage : string)
| PostConsignments (checkoutId : string) (body : list ConsignmentRequest)
| PutConsignment (checkoutId consignmentId : string) (body : ConsignmentRequest)
| PutShippingOption (checkoutId consignmentId : string) (include : bool)
    (shippingOptionId : option json)
| DeleteConsignment (checkoutId consignmentId : string)
| PostMiddlewareSplit (cartId : string) (itemId : ItemId) (quantity : Z)
    (productId variantId : Z) (giftMessages : list string).

(** What [response.json()] resolves to, as far as the code reads it. *)
Record ResponseBody : Type := {
  rb_consignments : option (list Consignment);
  rb_title : option string;
  rb_error : option string;
}.

(** [fetch] rejects, or resolves to a response; [response.json()] rejects
    when the body is [None]. *)
Inductive fetch_result : Type :=
| NetworkFailure (message : string)
| Response (ok : bool) (body : option ResponseBody).

Inductive event : Type :=
| EvFetch (req : request) (res : fetch_result)
| EvLoadCheckout
| EvDeleteConsignments
| EvNavigateNextStep (isBillingSameAsShipping : bool).

(** The collaborators of the component.  The index is the number of
    awaited calls made before the one answered. *)
Record Env : Type := {
  gw_fetch : nat → request → fetch_result;
  gw_loadCheckout : nat → option js_error;
  gw_getCheckout : nat → option Checkout;
  gw_deleteConsignments : nat → option js_error;
  (** [getFields] is an optional prop *)
  env_getFields : option (option string → list string);
  env_isValidAddress : Address → list string → bool;
}.

(** ** Session storage *)

(** A text held by [sessionStorage], by what [JSON.parse] makes of it. *)
Inductive text : Type :=
| TEmpty                  (* the empty string, which is falsy *)
| TGarbage (s : string)   (* a text that [JSON.parse] rejects *)
| TJson (v : json).       (* a text that parses to [v] *)

(** ** Component state *)

Record UiState : Type := {
  isLoading : bool;
  isEditing : bool;
  currentItemIndex : Z;
  error : option string;
  selectedAddress : option Address;
  selectedShippingOption : option ShippingOption;
  itemConsignments : list ConsignmentWithItem;
  configuredItems : gmap string bool;
  allItemsConfigured : bool;
  originalItemOrder : list string;
}.

Record World : Type := {
  clock : nat;
  ss : gmap string text;
  events : list event;
  console : list string;
  unhandled : list js_error;
  ui : UiState;
}.

Definition with_ui (f : UiState → UiState) (w : World) : World :=
  {| clock := clock w; ss := ss w; events := events w; console := console w;
     unhandled := unhandled w; ui := f (ui w) |}.

Definition with_ss (f : gmap string text → gmap string text) (w : World) : World :=
  {| clock := clock w; ss := f (ss w); events := events w; console := console w;
     unhandled := unhandled w; ui := ui w |}.

Definition with_console (line : string) (w : World) : World :=
  {| clock := clock w; ss := ss w; events := events w;
     console := console w ++ [line];
     unhandled := unhandled w; ui := ui w |}.

Definition with_unhandled (e : js_error) (w : World) : World :=
  {| clock := clock w; ss := ss w; events := events w; console := console w;
     unhandled := unhandled w ++ [e]; ui := ui w |}.

(** An awaited call to a collaborator: it is recorded and the clock ticks. *)
Definition with_event (ev : event) (w : World) : World :=
  {| clock := S (clock w); ss := ss w; events := events w ++ [ev];
     console := console w; unhandled := unhandled w; ui := ui w |}.

(** ** The monad of handlers *)

Definition M (A : Type) : Type := World → outcome A * World.

#[global] Instance M_ret : MRet M := λ A a w, (Normal a, w).
#[global] Instance M_bind : MBind M := λ A B f m w,
  match m w with
  | (Normal a, w') => f a w'
  | (Thrown e, w') => (Thrown e, w')
  end.

Definition throw {A} (e : js_error) : M A := λ w, (Thrown e, w).

(** [try { m } catch (err) { h err }] *)
Definition try_catch {A} (m : M A) (h : js_error → M A) : M A := λ w,
  match m w with
  | (Normal a, w') => (Normal a, w')
  | (Thrown e, w') => h e w'
  end.

(** [try { m } finally { f }], for an [f] that does not throw. *)
Definition finally {A} (m : M A) (f : World → World) : M A := λ w,
  match m w with (o, w') => (o, f w') end.

Definition lift_outcome {A} (o : outcome A) : M A := λ w, (o, w).

Definition modify (f : World → World) : M unit := λ w, (Normal tt, f w).

Definition read {A} (f : World → A) : M A := λ w, (Normal (f w), w).

Definition console_error (line : string) : M unit := modify (with_console line).
Definition console_log (line : string) : M unit := modify (with_console line).

(** [for (const x of l) { body x }] *)
Fixpoint for_each {A} (l : list A) (body : A → M unit) : M unit :=
  match l with
  | [] => mret tt
  | x :: rest => body x ;; for_each rest body
  end.

(** ** consignment-persistence.ts *)

Module Persistence.

Definition storageKey : string := "storedConsignments".

(** [sessionStorage.getItem(key)] followed by
    [s ? JSON.parse(s) : []]. *)
Definition parse_or_empty (t : option text) : outcome json :=
  match t with
  | None | Some TEmpty => Normal (JArr [])
  | Some (TGarbage s) => Thrown (SyntaxError ("Unexpected token in JSON: " +:+ s))
  | Some (TJson v) => Normal v
  end.

(** The object literal [consignmentData]; [JSON.stringify] leaves out a
    property whose value is [undefined]. *)
Definition opt_field (k : string) (o : option json) : list (string * json) :=
  match o with Some v => [(k, v)] | None => [] end.

Definition consignmentData (consignmentId : string) (lineItemId : ItemId)
    (quantity : Z) (shippingAddress : option json)
    (selectedShippingOptionId : string) (selectedDeliveryDate : option json) : json :=
  JObj ([("consignmentId", JStr consignmentId);
         ("lineItemId", id_json lineItemId);
         ("quantity", JNum quantity)]
        ++ opt_field "shippingAddress" shippingAddress
        ++ [("selectedShippingOptionId", JStr selectedShippingOptionId)]
        ++ opt_field "selectedDeliveryDate" selectedDeliveryDate).

(** [c.consignmentId === consignmentId] *)
Definition has_consignmentId (consignmentId : string) (c : json) : outcome bool :=
  match js_get c "consignmentId" with
  | Thrown e => Thrown e
  | Normal (Some (JStr s)) => Normal (bool_decide (s = consignmentId))
  | Normal _ => Normal false
  end.

(** [c.lineItemId.toString() === lineItemId.toString() &&
     c.quantity === quantity] *)
Definition matches_lineItem (lineItemId : ItemId) (quantity : Z) (c : json)
  : outcome bool :=
  match js_get c "lineItemId" with
  | Thrown e => Thrown e
  | Normal li =>
      match opt_toString li with
      | Thrown e => Thrown e
      | Normal s =>
          if bool_decide (s = id_toString lineItemId) then
            match js_get c "quantity" with
            | Thrown e => Thrown e
            | Normal (Some (JNum q)) => Normal (bool_decide (q = quantity))
            | Normal _ => Normal false
            end
          else Normal false
      end
  end.

(** [l.findIndex(p)] for a callback that may throw *)
Fixpoint findIndex (p : json → outcome bool) (l : list json) : outcome (option nat) :=
  match l with
  | [] => Normal None
  | c :: rest =>
      match p c with
      | Thrown e => Thrown e
      | Normal true => Normal (Some 0%nat)
      | Normal false =>
          match findIndex p rest with
          | Thrown e => Thrown e
          | Normal (Some i) => Normal (Some (S i))
          | Normal None => Normal None
          end
      end
  end.

(** [l.find(p)] *)
Fixpoint js_find (p : json → outcome bool) (l : list json) : outcome (option json) :=
  match l with
  | [] => Normal None
  | c :: rest =>
      match p c with
      | Thrown e => Thrown e
      | Normal true => Normal (Some c)
      | Normal false => js_find p rest
      end
  end.

(** [l.filter(p)] *)
Fixpoint js_filter (p : json → outcome bool) (l : list json) : outcome (list json) :=
  match l with
  | [] => Normal []
  | c :: rest =>
      match p c with
      | Thrown e => Thrown e
      | Normal b =>
          match js_filter p rest with
          | Thrown e => Thrown e
          | Normal r => Normal (if b then c :: r else r)
          end
      end
  end.

Definition outcome_negb (o : outcome bool) : outcome bool :=
  match o with Normal b => Normal (negb b) | Thrown e => Thrown e end.

(** The body of the [try] block of [saveConsignmentToSession]: the new
    content of the store, or the exception. *)
Definition save_try (consignmentId : string) (lineItemId : ItemId) (quantity : Z)
    (shippingAddress : option json) (selectedShippingOptionId : string)
    (selectedDeliveryDate : option json) (store : gmap string text)
  : outcome (gmap string text) :=
  match parse_or_empty (store !! storageKey) with
  | Thrown e => Thrown e
  | Normal v =>
      match as_array "storedConsignments.findIndex" v with
      | Thrown e => Thrown e
      | Normal storedConsignments =>
          match findIndex (has_consignmentId consignmentId) storedConsignments with
          | Thrown e => Thrown e
          | Normal existingIndex =>
              let data := consignmentData consignmentId lineItemId quantity
                            shippingAddress selectedShippingOptionId
                            selectedDeliveryDate in
              let updated :=
                match existingIndex with
                | Some i => <[i := data]> storedConsignments
                | None => storedConsignments ++ [data]
                end in
              Normal (<[storageKey := TJson (JArr updated)]> store)
          end
      end
  end.

Definition saveConsignmentToSession (consignmentId : string) (lineItemId : ItemId)
    (quantity : Z) (shippingAddress : option json)
    (selectedShippingOptionId : string) (selectedDeliveryDate : option json)
  : M unit := λ w,
  match save_try consignmentId lineItemId quantity shippingAddress
          selectedShippingOptionId selectedDeliveryDate (ss w) with
  | Normal store' => (Normal tt, with_ss (λ _, store') w)
  | Thrown e =>
      (Normal tt,
       with_console ("Error saving consignment to session storage: " +:+ err_message e) w)
  end.

Definition getStoredConsignments : M json := λ w,
  match parse_or_empty (ss w !! storageKey) with
  | Normal v => (Normal v, w)
  | Thrown e =>
      (Normal (JArr []),
       with_console ("Error retrieving consignments from session storage: "
                     +:+ err_message e) w)
  end.

Definition findStoredConsignmentByLineItemId (lineItemId : ItemId) (quantity : Z)
  : M (option json) :=
  storedConsignments ← getStoredConsignments;
  l ← lift_outcome (as_array "storedConsignments.find" storedConsignments);
  lift_outcome (js_find (matches_lineItem lineItemId quantity) l).

Definition findStoredConsignmentById (consignmentId : string) : M (option json) :=
  storedConsignments ← getStoredConsignments;
  l ← lift_outcome (as_array "storedConsignments.find" storedConsignments);
  lift_outcome (js_find (has_consignmentId consignmentId) l).

Definition updateStoredConsignment (consignmentId : string) (lineItemId : ItemId)
    (quantity : Z) (shippingAddress : option json)
    (selectedShippingOptionId : string) (selectedDeliveryDate : option json)
  : M unit :=
  saveConsignmentToSession consignmentId lineItemId quantity shippingAddress
    selectedShippingOptionId selectedDeliveryDate.

Definition removeStoredConsignment (consignmentId : string) : M unit :=
  try_catch
    (storedConsignments ← getStoredConsignments;
     l ← lift_outcome (as_array "storedConsignments.filter" storedConsignments);
     filtered ← lift_outcome
       (js_filter (λ c, outcome_negb (has_consignmentId consignmentId c)) l);
     modify (with_ss (λ store, <[storageKey := TJson (JArr filtered)]> store)))
    (λ e, console_error ("Error removing consignment from session storage: "
                         +:+ err_message e)).

End Persistence.

(** ** CustomShipping.tsx *)

Record Props : Type := {
  physicalItems : list LineItem;        (* cart.lineItems.physicalItems *)
  consignments : list Consignment;
  deleteConsignmentsProvided : bool;    (* the optional prop is present *)
  isBillingSameAsShipping : bool;
}.

(** The state setters of the component. *)
Definition setIsLoading (b : bool) : World → World :=
  with_ui (λ u, {| isLoading := b; isEditing := isEditing u;
    currentItemIndex := currentItemIndex u; error := error u;
    selectedAddress := selectedAddress u;
    selectedShippingOption := selectedShippingOption u;
    itemConsignments := itemConsignments u; configuredItems := configuredItems u;
    allItemsConfigured := allItemsConfigured u;
    originalItemOrder := originalItemOrder u |}).

Definition setIsEditing (b : bool) : World → World :=
  with_ui (λ u, {| isLoading := isLoading u; isEditing := b;
    currentItemIndex := currentItemIndex u; error := error u;
    selectedAddress := selectedAddress u;
    selectedShippingOption := selectedShippingOption u;
    itemConsignments := itemConsignments u; configuredItems := configuredItems u;
    allItemsConfigured := allItemsConfigured u;
    originalItemOrder := originalItemOrder u |}).

Definition setCurrentItemIndex (i : Z) : World → World :=
  with_ui (λ u, {| isLoading := isLoading u; isEditing := isEditing u;
    currentItemIndex := i; error := error u;
    selectedAddress := selectedAddress u;
    selectedShippingOption := selectedShippingOption u;
    itemConsignments := itemConsignments u; configuredItems := configuredItems u;
    allItemsConfigured := allItemsConfigured u;
    originalItemOrder := originalItemOrder u |}).

Definition setError (e : option string) : World → World :=
  with_ui (λ u, {| isLoading := isLoading u; isEditing := isEditing u;
    currentItemIndex := currentItemIndex u; error := e;
    selectedAddress := selectedAddress u;
    selectedShippingOption := selectedShippingOption u;
    itemConsignments := itemConsignments u; configuredItems := configuredItems u;
    allItemsConfigured := allItemsConfigured u;
    originalItemOrder := originalItemOrder u |}).

Definition setSelectedAddress (a : option Address) : World → World :=
  with_ui (λ u, {| isLoading := isLoading u; isEditing := isEditing u;
    currentItemIndex := currentItemIndex u; error := error u;
    selectedAddress := a;
    selectedShippingOption := selectedShippingOption u;
    itemConsignments := itemConsignments u; configuredItems := configuredItems u;
    allItemsConfigured := allItemsConfigured u;
    originalItemOrder := originalItemOrder u |}).

Definition setSelectedShippingOption (o : option ShippingOption) : World → World :=
  with_ui (λ u, {| isLoading := isLoading u; isEditing := isEditing u;
    currentItemIndex := currentItemIndex u; error := error u;
    selectedAddress := selectedAddress u;
    selectedShippingOption := o;
    itemConsignments := itemConsignments u; configuredItems := configuredItems u;
    allItemsConfigured := allItemsConfigured u;
    originalItemOrder := originalItemOrder u |}).

(** [setItemConsignments(prev => f prev)]; a plain value is a constant [f]. *)
Definition setItemConsignments
    (f : list ConsignmentWithItem → list ConsignmentWithItem) : World → World :=
  with_ui (λ u, {| isLoading := isLoading u; isEditing := isEditing u;
    currentItemIndex := currentItemIndex u; error := error u;
    selectedAddress := selectedAddress u;
    selectedShippingOption := selectedShippingOption u;
    itemConsignments := f (itemConsignments u);
    configuredItems := configuredItems u;
    allItemsConfigured := allItemsConfigured u;
    originalItemOrder := originalItemOrder u |}).

(** [setConfiguredItems(prev => f prev)] *)
Definition setConfiguredItems (f : gmap string bool → gmap string bool)
  : World → World :=
  with_ui (λ u, {| isLoading := isLoading u; isEditing := isEditing u;
    currentItemIndex := currentItemIndex u; error := error u;
    selectedAddress := selectedAddress u;
    selectedShippingOption := selectedShippingOption u;
    itemConsignments := itemConsignments u;
    configuredItems := f (configuredItems u);
    allItemsConfigured := allItemsConfigured u;
    originalItemOrder := originalItemOrder u |}).


Definition setOriginalItemOrder (l : list string) : World → World :=
  with_ui (λ u, {| isLoading := isLoading u; isEditing := isEditing u;
    currentItemIndex := currentItemIndex u; error := error u;
    selectedAddress := selectedAddress u;
    selectedShippingOption := selectedShippingOption u;
    itemConsignments := itemConsignments u; configuredItems := configuredItems u;
    allItemsConfigured := allItemsConfigured u;
    originalItemOrder := l |}).

(** [l.findIndex(p)], with [-1] when nothing is found *)
Fixpoint findIndexZ {A} (p : A → bool) (l : list A) : Z :=
  match l with
  | [] => -1
  | x :: rest =>
      if p x then 0
      else let i := findIndexZ p rest in if bool_decide (0 ≤ i) then i + 1 else -1
  end.

(** [l[i]] for a number [i] *)
Definition nthZ {A} (l : list A) (i : Z) : option A :=
  if bool_decide (0 ≤ i) then l !! Z.to_nat i else None.

(** [configuredItems[id]] as a condition *)
Definition configured (m : gmap string bool) (i : ItemId) : bool :=
  default false (m !! id_toString i).

(** [s || d] for an optional string *)
Definition or_string (s : option string) (d : string) : string :=
  match s with
  | Some x => if bool_decide (x = "") then d else x
  | None => d
  end.

(** A fresh entry: no consignment, nothing chosen. *)
Definition freshEntry (i : ItemId) : ConsignmentWithItem :=
  {| cw_id := None; cw_lineItemId := i; cw_shippingAddress := None;
     cw_selectedShippingOption := None; cw_availableShippingOptions := Some [] |}.

(** [Boolean(c.shippingAddress && c.selectedShippingOption)] *)
Definition complete {A B} (address : option A) (option_ : option B) : bool :=
  bool_decide (is_Some address) && bool_decide (is_Some option_).

(** [c.lineItemIds.length === 1 && c.lineItemIds[0] === s] *)
Definition is_sole_item (s : string) (c : Consignment) : bool :=
  match c_lineItemIds c with
  | [x] => bool_decide (x = s)
  | _ => false
  end.

(** [c.lineItemIds.includes(s)] *)
Definition covers (s : string) (c : Consignment) : bool :=
  bool_decide (s ∈ c_lineItemIds c).

(** [o?.k] for a parsed value *)
Definition optional_get (o : option json) (k : string) : option json :=
  match o with
  | Some (JObj fs) => assoc k fs
  | _ => None
  end.

Definition includeOptions : string := "consignments.availableShippingOptions".
Definition includeCartAndOptions : string :=
  "cart.lineItems.physicalItems.options,consignments.availableShippingOptions".

Module CustomShipping.
Section Component.

Context (E : Env) (P : Props).

(** [await fetch(url, options)] *)
Definition fetch (req : request) : M (bool * option ResponseBody) := λ w,
  let res := gw_fetch E (clock w) req in
  let w' := with_event (EvFetch req res) w in
  match res with
  | NetworkFailure msg => (Thrown (TypeError msg), w')
  | Response ok body => (Normal (ok, body), w')
  end.

(** [response.ok] *)
Definition response_ok (r : bool * option ResponseBody) : bool := r.1.

(** [await response.json()] *)
Definition response_json (r : bool * option ResponseBody) : M ResponseBody :=
  match r.2 with
  | Some b => mret b
  | None => throw (SyntaxError "Unexpected end of JSON input")
  end.

Definition loadCheckout : M unit := λ w,
  let w' := with_event EvLoadCheckout w in
  match gw_loadCheckout E (clock w) with
  | None => (Normal tt, w')
  | Some e => (Thrown e, w')
  end.

Definition getCheckout : M (option Checkout) :=
  read (λ w, gw_getCheckout E (clock w)).

Definition deleteConsignments : M unit := λ w,
  let w' := with_event EvDeleteConsignments w in
  match gw_deleteConsignments E (clock w) with
  | None => (Normal tt, w')
  | Some e => (Thrown e, w')
  end.

Definition onUnhandledError (e : js_error) : M unit := modify (with_unhandled e).

Definition restoreConsignment (storedConsignment : json) : M (option ResponseBody) :=
  checkout ← getCheckout;
  match checkout with
  | None => throw (Error "Checkout not available")
  | Some checkout =>
      try_catch
        (existingConsignment ←
           match co_consignments checkout with
           | [] => mret None
           | existingConsignments =>
               li ← lift_outcome (js_get storedConsignment "lineItemId");
               s ← lift_outcome (opt_toString li);
               mret (find (covers s) existingConsignments)
           end;
         match existingConsignment with
         | Some existingConsignment =>
             shippingOptionId ←
               lift_outcome (js_get storedConsignment "selectedShippingOptionId");
             response ← fetch (PutShippingOption (co_id checkout)
                                 (c_id existingConsignment) true shippingOptionId);
             (if response_ok response then mret tt
              else errorData ← response_json response;
                   throw (Error (or_string (rb_title errorData)
                                   "Failed to restore consignment")));;
             loadCheckout;;
             body ← response_json response;
             mret (Some body)
         | None => mret None
         end)
        (λ error,
           console_error ("Error restoring consignment: " +:+ err_message error);;
           throw error)
  end.

(** The entries built from the consignments that remain after the
    incomplete ones were deleted. *)
Definition entryOfRemaining (remainingConsignments : list Consignment)
    (item : LineItem) : ConsignmentWithItem :=
  match find (covers (id_toString (li_id item))) remainingConsignments with
  | Some existingConsignment =>
      match c_selectedShippingOption existingConsignment with
      | Some o =>
          {| cw_id := Some (c_id existingConsignment);
             cw_lineItemId := li_id item;
             cw_shippingAddress := c_shippingAddress existingConsignment;
             cw_selectedShippingOption := Some o;
             cw_availableShippingOptions :=
               Some (default [] (c_availableShippingOptions existingConsignment)) |}
      | None => freshEntry (li_id item)
      end
  | None => freshEntry (li_id item)
  end.

(** [entries.forEach(c => map[c.lineItemId] = Boolean(...))] *)
Definition configuredItemsOf (entries : list ConsignmentWithItem) : gmap string bool :=
  foldl (λ m c, <[id_toString (cw_lineItemId c) :=
                    complete (cw_shippingAddress c) (cw_selectedShippingOption c)]> m)
        ∅ entries.

(** The entries of a consignment, one per line item id it lists. *)
Definition entriesOfConsignment (c : Consignment) : list ConsignmentWithItem :=
  map (λ lineItemId,
         {| cw_id := Some (c_id c); cw_lineItemId := IdStr lineItemId;
            cw_shippingAddress := c_shippingAddress c;
            cw_selectedShippingOption := c_selectedShippingOption c;
            cw_availableShippingOptions :=
              Some (default [] (c_availableShippingOptions c)) |})
      (c_lineItemIds c).

(** [firstUnconfiguredIndex]: [physicalItems.findIndex(item => !map[item.id])] *)
Definition firstUnconfiguredIndex (m : gmap string bool) : Z :=
  findIndexZ (λ item, negb (configured m (li_id item))) (physicalItems P).

(** [physicalItems.find(p => p.id.toString() === s)] and its quantity, [1]
    when there is none *)
Definition quantityOf (s : string) : Z :=
  match find (λ physItem, bool_decide (id_toString (li_id physItem) = s))
             (physicalItems P) with
  | Some p => li_quantity p
  | None => 1
  end.

(** One round of the restoration loop of [initConsignments]. *)
Definition restoreItem (currentConsignments : list Consignment) (item : LineItem)
  : M unit :=
  let itemQuantity := quantityOf (id_toString (li_id item)) in
  let existingConsignment :=
    find (is_sole_item (id_toString (li_id item))) currentConsignments in
  match existingConsignment with
  | Some existingConsignment =>
      match c_selectedShippingOption existingConsignment with
      | None =>
          storedConsignment ←
            Persistence.findStoredConsignmentByLineItemId (li_id item) itemQuantity;
          if opt_truthy (optional_get storedConsignment "selectedShippingOptionId")
          then
            match storedConsignment with
            | Some stored =>
                try_catch (restoreConsignment stored ;; mret tt)
                  (λ restoreError,
                     console_error ("Error restoring consignment for item "
                                    +:+ id_toString (li_id item) +:+ ": "
                                    +:+ err_message restoreError))
            | None => mret tt
            end
          else mret tt
      | Some _ => mret tt
      end
  | None => mret tt
  end.

(** One round of the deletion loop of [initConsignments]. *)
Definition removeIncomplete (checkout : Checkout) (consignment : Consignment)
  : M unit :=
  fetch (DeleteConsignment (co_id checkout) (c_id consignment));;
  if bool_decide (c_id consignment = "") then mret tt
  else Persistence.removeStoredConsignment (c_id consignment).

(** After the incomplete consignments were deleted: the checkout is
    reloaded and the entries are built from the consignments that remain. *)
Definition seedFromRemaining : M unit :=
  loadCheckout;;
  updated ← getCheckout;
  let remainingConsignments :=
    match updated with Some c => co_consignments c | None => [] end in
  let initialConsignments :=
    map (entryOfRemaining remainingConsignments) (physicalItems P) in
  modify (setItemConsignments (λ _, initialConsignments));;
  let configuredItemsMap := configuredItemsOf initialConsignments in
  modify (setConfiguredItems (λ _, configuredItemsMap));;
  let first := firstUnconfiguredIndex configuredItemsMap in
  modify (setCurrentItemIndex (if bool_decide (0 ≤ first) then first else 0)).

(** When nothing had to be deleted: consignments with several line items
    are deleted wholesale, or else the entries are mapped from the
    consignments of the re-read. *)
Definition seedFromConsignments (itemOrder : list string)
    (currentConsignments : list Consignment) : M unit :=
  let consignmentsToSplit :=
    filter (λ c, (1 < length (c_lineItemIds c))%nat) currentConsignments in
  modify (setOriginalItemOrder itemOrder);;
  (if bool_decide (0 < length consignmentsToSplit)%nat
      && deleteConsignmentsProvided P
   then
     deleteConsignments;;
     modify (setItemConsignments
               (λ _, map (λ item, freshEntry (li_id item)) (physicalItems P)));;
     modify (setConfiguredItems (λ _, ∅));;
     modify (setCurrentItemIndex 0);;
     modify (setSelectedAddress None);;
     modify (setSelectedShippingOption None)
   else
     let fromConsignments :=
       concat (map entriesOfConsignment currentConsignments) in
     let configuredOfConsignments := configuredItemsOf fromConsignments in
     let unconfiguredItems :=
       filter (λ item, configuredOfConsignments !! id_toString (li_id item) = None)
              (physicalItems P) in
     let mappedConsignments :=
       fromConsignments ++ map (λ item, freshEntry (li_id item)) unconfiguredItems in
     let configuredItemsMap :=
       foldl (λ m item, <[id_toString (li_id item) := false]> m)
             configuredOfConsignments unconfiguredItems in
     modify (setItemConsignments (λ _, mappedConsignments));;
     modify (setConfiguredItems (λ _, configuredItemsMap));;
     let first := firstUnconfiguredIndex configuredItemsMap in
     modify (setCurrentItemIndex (if bool_decide (0 ≤ first) then first else 0));;
     if bool_decide (0 ≤ first) then
       match nthZ (physicalItems P) first with
       | Some currentItem =>
           match find (λ c, id_strict_eq (cw_lineItemId c) (li_id currentItem))
                      mappedConsignments with
           | Some {| cw_shippingAddress := Some a;
                     cw_selectedShippingOption := Some o |} =>
               modify (setSelectedAddress (Some a));;
               modify (setSelectedShippingOption (Some o))
           | _ =>
               modify (setSelectedAddress None);;
               modify (setSelectedShippingOption None)
           end
       | None =>
           throw (TypeError "Cannot read properties of undefined (reading 'id')")
       end
     else mret tt);;
  loadCheckout.

(** The re-read of the checkout after the restoration attempts. *)
Definition rereadConsignments (checkout : Checkout) : M (list Consignment) :=
  response ← fetch (GetCheckout (co_id checkout) includeOptions);
  (if response_ok response then mret tt
   else throw (Error "Failed to split line item"));;
  result ← response_json response;
  mret (default [] (rb_consignments result)).

(** The body of the [try] block of [initConsignments]. *)
Definition initConsignments_try : M unit :=
  let itemOrder := map (λ item, id_toString (li_id item)) (physicalItems P) in
  modify (setOriginalItemOrder itemOrder);;
  checkout ← getCheckout;
  match checkout with
  | None => mret tt
  | Some checkout =>
      for_each (physicalItems P) (restoreItem (consignments P));;
      currentConsignments ← rereadConsignments checkout;
      let consignmentsToRemove :=
        filter (λ c, c_selectedShippingOption c = None) currentConsignments in
      (match consignmentsToRemove with
       | _ :: _ =>
           for_each consignmentsToRemove (removeIncomplete checkout);;
           seedFromRemaining
       | [] => seedFromConsignments itemOrder currentConsignments
       end);;
      loadCheckout
  end.

Definition initConsignments : M unit :=
  match physicalItems P with
  | [] => mret tt
  | _ :: _ =>
      modify (setIsLoading true);;
      finally
        (try_catch initConsignments_try
           (λ err, modify (setError (Some ("Error initializing: "
                                           +:+ err_message err)))))
        (setIsLoading false)
  end.

(** *** Handlers.  [s] is the state of the render the handler closes over. *)

Definition getCurrentItem (s : UiState) : option LineItem :=
  nthZ (physicalItems P) (currentItemIndex s).

Definition getCurrentConsignment (s : UiState) : option ConsignmentWithItem :=
  match getCurrentItem s with
  | Some currentItem =>
      find (λ c, id_strict_eq (cw_lineItemId c) (li_id currentItem))
           (itemConsignments s)
  | None => None
  end.

Definition createConsignment (address : Address) (lineItemId : ItemId) (quantity : Z)
  : M ResponseBody :=
  checkout ← getCheckout;
  match checkout with
  | None => throw (Error "Checkout not available")
  | Some checkout =>
      let body := {| cr_address := address; cr_itemId := lineItemId;
                     cr_quantity := quantity |} in
      match find (is_sole_item (id_toString lineItemId)) (consignments P) with
      | Some existingConsignment =>
          try_catch
            (response ← fetch (PutConsignment (co_id checkout)
                                 (c_id existingConsignment) body);
             (if response_ok response then mret tt
              else errorData ← response_json response;
                   throw (Error (or_string (rb_title errorData)
                                   "Error updating consignment")));;
             response_json response)
            (λ error, throw error)
      | None =>
          try_catch
            (response ← fetch (PostConsignments (co_id checkout) [body]);
             (if response_ok response then mret tt
              else errorData ← response_json response;
                   throw (Error (or_string (rb_title errorData)
                                   "Error creating consignment")));;
             response_json response)
            (λ error, throw error)
      end
  end.

Definition updateConsignmentShippingOption (consignmentId shippingOptionId : string)
  : M ResponseBody :=
  checkout ← getCheckout;
  match checkout with
  | None => throw (Error "Checkout not available")
  | Some checkout =>
      try_catch
        (response ← fetch (PutShippingOption (co_id checkout) consignmentId false
                             (Some (JStr shippingOptionId)));
         (if response_ok response then mret tt
          else errorData ← response_json response;
               throw (Error (or_string (rb_title errorData)
                               "Error updating shipping option")));;
         response_json response)
        (λ error, throw error)
  end.

Definition refreshCheckoutTotals : M unit :=
  modify (setIsLoading true);;
  finally
    (try_catch
       (checkout ← getCheckout;
        match checkout with
        | None => mret tt
        | Some checkout =>
            fetch (GetCheckout (co_id checkout) includeCartAndOptions);;
            loadCheckout
        end)
       (λ err, console_error ("Error refreshing checkout totals: "
                              +:+ err_message err)))
    (setIsLoading false).

Definition updateOrderSummaryDisplay : M unit :=
  checkout ← getCheckout;
  match checkout with
  | None => mret tt
  | Some checkout =>
      try_catch
        (fetch (PutCheckout (co_id checkout) (co_customerMessage checkout));;
         loadCheckout)
        (λ err, console_error ("Error updating order summary display: "
                               +:+ err_message err))
  end.

(** [{...entries[i], ...}] written back at the index of the current item *)
Definition updateEntryOf (lineItemId : ItemId)
    (f : ConsignmentWithItem → ConsignmentWithItem)
    (entries : list ConsignmentWithItem) : option (list ConsignmentWithItem) :=
  let currentIndex :=
    findIndexZ (λ c, id_strict_eq (cw_lineItemId c) lineItemId) entries in
  if bool_decide (0 ≤ currentIndex)
  then Some (alter f (Z.to_nat currentIndex) entries)
  else None.

(** [option?.id || ''] *)
Definition optionIdOrEmpty (o : option ShippingOption) : string :=
  match o with Some x => so_id x | None => "" end.

(** [{...c, selectedShippingOption: option}] *)
Definition withSelectedOption (o : option ShippingOption) (c : ConsignmentWithItem)
  : ConsignmentWithItem :=
  {| cw_id := cw_id c; cw_lineItemId := cw_lineItemId c;
     cw_shippingAddress := cw_shippingAddress c;
     cw_selectedShippingOption := o;
     cw_availableShippingOptions := cw_availableShippingOptions c |}.

(** [{...c, id: id}] *)
Definition withId (id : string) (c : ConsignmentWithItem) : ConsignmentWithItem :=
  {| cw_id := Some id; cw_lineItemId := cw_lineItemId c;
     cw_shippingAddress := cw_shippingAddress c;
     cw_selectedShippingOption := cw_selectedShippingOption c;
     cw_availableShippingOptions := cw_availableShippingOptions c |}.

(** The [else] branch of [handleShippingOptionSelect]: the entry of the
    current item is updated locally. *)
Definition selectOptionLocally (s : UiState) (option_ : ShippingOption) : M unit :=
  match getCurrentItem s with
  | Some currentItem =>
      match updateEntryOf (li_id currentItem) (withSelectedOption (Some option_))
              (itemConsignments s) with
      | Some updatedConsignments =>
          modify (setItemConsignments (λ _, updatedConsignments))
      | None => mret tt
      end
  | None => mret tt   (* [c.lineItemId === undefined] holds for no entry *)
  end.

(** The [then] branch: the Gateway is called and the cache written. *)
Definition selectOptionRemotely (s : UiState) (option_ : ShippingOption)
    (currentId : string) : M unit :=
  result ← updateConsignmentShippingOption currentId (so_id option_);
  let updatedConsignments := default [] (rb_consignments result) in
  match getCurrentItem s with
  | Some currentItem =>
      match find (covers (id_toString (li_id currentItem))) updatedConsignments with
      | Some updatedConsignment =>
          Persistence.updateStoredConsignment
            (c_id updatedConsignment) (li_id currentItem) (li_quantity currentItem)
            (address_json <$> c_shippingAddress updatedConsignment)
            (so_id option_) None;;
          match updateEntryOf (li_id currentItem)
                  (λ c, withSelectedOption
                          (c_selectedShippingOption updatedConsignment)
                          (withId (c_id updatedConsignment) c))
                  (itemConsignments s) with
          | Some newItemConsignments =>
              modify (setItemConsignments (λ _, newItemConsignments))
          | None => mret tt
          end
      | None => mret tt
      end
  | None => mret tt
  end;;
  refreshCheckoutTotals.

Definition handleShippingOptionSelect (s : UiState) (option_ : ShippingOption)
  : M unit :=
  modify (setSelectedShippingOption (Some option_));;
  modify (setIsLoading true);;
  finally
    (try_catch
       (match getCurrentConsignment s with
        | Some {| cw_id := Some currentId |} =>
            if bool_decide (currentId = "")
            then selectOptionLocally s option_
            else selectOptionRemotely s option_ currentId
        | _ => selectOptionLocally s option_
        end;;
        updateOrderSummaryDisplay)
       (λ err,
          modify (setError (Some (err_message err)));;
          modify (setIsEditing false);;
          onUnhandledError err))
    (setIsLoading false).

Definition InvalidAddressError : js_error :=
  JsError "InvalidAddressError" "The address is invalid".

(** [getFields && !isValidAddress(address, getFields(address.countryCode))] *)
Definition addressRejected (address : Address) : bool :=
  match env_getFields E with
  | Some getFields =>
      negb (env_isValidAddress E address (getFields (assoc "countryCode" address)))
  | None => false
  end.

Definition handleAddressSelect (s : UiState) (address : Address) : M unit :=
  if addressRejected address then
    modify (setError (Some "Please provide a valid address with all required fields"));;
    modify (setIsEditing false);;
    onUnhandledError InvalidAddressError
  else
    modify (setSelectedAddress (Some address));;
    modify (setIsLoading true);;
    finally
      (try_catch
         (match getCurrentItem s with
          | Some currentItem =>
              result ← createConsignment address (li_id currentItem)
                         (li_quantity currentItem);
              let updatedConsignments := default [] (rb_consignments result) in
              match find (covers (id_toString (li_id currentItem)))
                         updatedConsignments with
              | Some newConsignment =>
                  Persistence.saveConsignmentToSession
                    (c_id newConsignment) (li_id currentItem)
                    (li_quantity currentItem) (Some (address_json address))
                    (optionIdOrEmpty (c_selectedShippingOption newConsignment))
                    None;;
                  match updateEntryOf (li_id currentItem)
                          (λ c, {| cw_id := Some (c_id newConsignment);
                                   cw_lineItemId := cw_lineItemId c;
                                   cw_shippingAddress := Some address;
                                   cw_selectedShippingOption :=
                                     cw_selectedShippingOption c;
                                   cw_availableShippingOptions :=
                                     Some (default []
                                       (c_availableShippingOptions newConsignment)) |})
                          (itemConsignments s) with
                  | Some updatedItemConsignments =>
                      modify (setItemConsignments (λ _, updatedItemConsignments));;
                      loadCheckout
                  | None => mret tt
                  end
              | None => mret tt
              end
          | None => mret tt
          end)
         (λ err,
            modify (setError (Some (err_message err)));;
            modify (setIsEditing false);;
            onUnhandledError err))
      (setIsLoading false).

(** [while (i < items.length && configured[items[i].id]) i++], on the items
    from index [i] on *)
Fixpoint skipConfigured (m : gmap string bool) (rest : list LineItem) (i : Z) : Z :=
  match rest with
  | [] => i
  | item :: rest' =>
      if configured m (li_id item) then skipConfigured m rest' (i + 1) else i
  end.

(** [c.availableShippingOptions && c.availableShippingOptions.length > 0] *)
Definition hasOptions (c : ConsignmentWithItem) : bool :=
  match cw_availableShippingOptions c with
  | Some (_ :: _) => true
  | _ => false
  end.

Definition handleContinue (s : UiState) : M unit :=
  match selectedAddress s with
  | None => modify (setError (Some "Please select a shipping address"))
  | Some _ =>
      let hasShippingOptions :=
        match getCurrentConsignment s with
        | Some c => hasOptions c
        | None => false
        end in
      if hasShippingOptions && negb (bool_decide (is_Some (selectedShippingOption s)))
      then modify (setError (Some "Please select a shipping method"))
      else
        loadCheckout;;
        updateOrderSummaryDisplay;;
        match getCurrentItem s with
        | None => mret tt
        | Some currentItem =>
            let key := id_toString (li_id currentItem) in
            modify (setConfiguredItems (λ prev, <[key := true]> prev));;
            modify (setIsEditing false);;
            if bool_decide (currentItemIndex s < Z.of_nat (length (physicalItems P)) - 1)
            then
              let updatedConfiguredItems := <[key := true]> (configuredItems s) in
              refreshCheckoutTotals;;
              let nextItemIndex :=
                skipConfigured updatedConfiguredItems
                  (drop (Z.to_nat (currentItemIndex s + 1)) (physicalItems P))
                  (currentItemIndex s + 1) in
              match nthZ (physicalItems P) nextItemIndex with
              | Some nextItem =>
                  modify (setCurrentItemIndex nextItemIndex);;
                  modify (setSelectedAddress None);;
                  modify (setSelectedShippingOption None);;
                  match find (λ c, id_strict_eq (cw_lineItemId c) (li_id nextItem))
                             (itemConsignments s) with
                  | Some nextConsignment =>
                      match cw_shippingAddress nextConsignment,
                            cw_selectedShippingOption nextConsignment with
                      | Some a, Some o =>
                          if hasOptions nextConsignment then
                            modify (setSelectedAddress (Some a));;
                            modify (setSelectedShippingOption (Some o))
                          else mret tt
                      | _, _ => mret tt
                      end
                  | None => mret tt
                  end
              | None => mret tt
              end
            else mret tt
        end
  end.

(** *** Splitting a line item *)

Definition baseAddress : Address :=
  [("firstName", ""); ("lastName", ""); ("address1", ""); ("address2", "");
   ("city", "Los Angeles"); ("stateOrProvince", "California");
   ("stateOrProvinceCode", "CA"); ("countryCode", "US");
   ("postalCode", "90017"); ("phone", "")].

(** [Array.from({ length: quantity }, () => ({...}))] *)
Definition splitConsignments (lineItemId : ItemId) (quantity : Z)
  : list ConsignmentRequest :=
  replicate (Z.to_nat quantity)
    {| cr_address := baseAddress; cr_itemId := IdStr (id_toString lineItemId);
       cr_quantity := 1 |}.

(** An entry of [newItemConsignments]; [lineItemIds[0]] may be [undefined]. *)
Definition splitEntryKey (c : Consignment) : option string := head (c_lineItemIds c).

(** [!c.selectedShippingOption || !c.shippingAddress ||
     Object.keys(c.shippingAddress).length === 0] *)
Definition lacksAddressOrOption (c : Consignment) : bool :=
  match c_selectedShippingOption c, c_shippingAddress c with
  | Some _, Some (_ :: _) => false
  | _, _ => true
  end.

(** One round of the restoration loop of [handleSplitLineItem]. *)
Definition restoreSplitItem (currentConsignments : list Consignment)
    (item : Consignment) : M unit :=
  match splitEntryKey item with
  | None => throw (TypeError "Cannot read properties of undefined (reading 'toString')")
  | Some lineItemId =>
      let itemQuantity := quantityOf lineItemId in
      match find (is_sole_item lineItemId) currentConsignments with
      | Some existingConsignment =>
          if lacksAddressOrOption existingConsignment then
            storedConsignment ←
              Persistence.findStoredConsignmentByLineItemId (IdStr lineItemId)
                itemQuantity;
            console_log "storedConsignment";;
            if opt_truthy (optional_get storedConsignment "selectedShippingOptionId")
            then
              match storedConsignment with
              | Some stored =>
                  try_catch (restoreConsignment stored ;; mret tt)
                    (λ restoreError,
                       console_error ("Error restoring consignment for item "
                                      +:+ lineItemId +:+ ": "
                                      +:+ err_message restoreError))
              | None => mret tt
              end
            else mret tt
          else mret tt
      | None => mret tt
      end
  end.

(** The [forEach] that writes every consignment of the re-read to the cache. *)
Definition storeSplitConsignment (consignment : Consignment) : M unit :=
  match splitEntryKey consignment with
  | None => throw (TypeError "Cannot read properties of undefined (reading 'toString')")
  | Some lineItemId =>
      Persistence.saveConsignmentToSession (c_id consignment) (IdStr lineItemId)
        (quantityOf lineItemId)
        (Some (address_json (default baseAddress (c_shippingAddress consignment))))
        (optionIdOrEmpty (c_selectedShippingOption consignment)) None
  end.

(** The [Map] of [mergeConsignments], in insertion order; a key is a
    [lineItemId], which is [undefined] for a consignment without line item. *)
Definition mergeMap : Type := list (option ItemId * ConsignmentWithItem).

Fixpoint mapGet (k : option ItemId) (m : mergeMap) : option ConsignmentWithItem :=
  match m with
  | [] => None
  | (k', v) :: rest => if bool_decide (k' = k) then Some v else mapGet k rest
  end.

(** [map.set(k, v)]: an existing key keeps its place *)
Fixpoint mapSet (k : option ItemId) (v : ConsignmentWithItem) (m : mergeMap)
  : mergeMap :=
  match m with
  | [] => [(k, v)]
  | (k', v') :: rest =>
      if bool_decide (k' = k) then (k, v) :: rest else (k', v') :: mapSet k v rest
  end.

Definition mergeExisting (m : mergeMap) (c : ConsignmentWithItem) : mergeMap :=
  match mapGet (Some (cw_lineItemId c)) m with
  | Some _ => m
  | None => mapSet (Some (cw_lineItemId c)) c m
  end.

(** The object built for a consignment of the re-read.  An entry has a
    [lineItemId]; the one of a consignment without line item is [undefined],
    and it is kept apart by the key. *)
Definition mergeNew (m : mergeMap) (newConsignment : Consignment) : mergeMap :=
  let key := IdStr <$> splitEntryKey newConsignment in
  let newConsignmentObj :=
    {| cw_id := Some (c_id newConsignment);
       cw_lineItemId := default (IdStr "undefined") key;
       cw_shippingAddress := c_shippingAddress newConsignment;
       cw_selectedShippingOption := c_selectedShippingOption newConsignment;
       cw_availableShippingOptions :=
         Some (default [] (c_availableShippingOptions newConsignment)) |} in
  match mapGet key m with
  | None => mapSet key newConsignmentObj m
  | Some _ =>
      if complete (c_shippingAddress newConsignment)
                  (c_selectedShippingOption newConsignment)
      then mapSet key newConsignmentObj m
      else m
  end.

Definition mergeConsignments (existingConsignments : list ConsignmentWithItem)
    (newConsignments : list Consignment) : list ConsignmentWithItem :=
  map snd (foldl mergeNew (foldl mergeExisting [] existingConsignments)
             newConsignments).

(** [isFullyConfigured] of the split handler *)
Definition isFullyConfigured (c : ConsignmentWithItem) : bool :=
  match cw_shippingAddress c, cw_selectedShippingOption c with
  | Some (_ :: _), Some _ => true
  | _, _ => false
  end.

Definition markUnconfigured (m : gmap string bool) (c : ConsignmentWithItem)
  : gmap string bool :=
  if negb (isFullyConfigured c) || negb (configured m (cw_lineItemId c))
  then <[id_toString (cw_lineItemId c) := false]> m
  else m.

Definition handleSplitLineItem (s : UiState) (lineItemId : ItemId) (quantity : Z)
  : M unit :=
  if bool_decide (quantity ≤ 1) then mret tt
  else
    modify (setIsLoading true);;
    finally
      (try_catch
         (checkout ← getCheckout;
          match checkout with
          | None => throw (Error "Checkout not available")
          | Some checkout =>
              match find (λ item, id_strict_eq (li_id item) lineItemId)
                         (physicalItems P) with
              | None => throw (Error "Item not found")
              | Some currentItem =>
                  response ← fetch (PostConsignments (co_id checkout)
                                      (splitConsignments lineItemId quantity));
                  (if response_ok response then mret tt
                   else throw (Error "Failed to split line item"));;
                  result ← response_json response;
                  let updatedConsignments := default [] (rb_consignments result) in
                  for_each updatedConsignments (restoreSplitItem updatedConsignments);;
                  checkoutResponse ←
                    fetch (GetCheckout (co_id checkout) includeCartAndOptions);
                  checkoutResult ← response_json checkoutResponse;
                  let newConsignments :=
                    default [] (rb_consignments checkoutResult) in
                  loadCheckout;;
                  for_each newConsignments storeSplitConsignment;;
                  modify (setItemConsignments
                            (λ prevConsignments,
                               mergeConsignments prevConsignments newConsignments));;
                  let newConfiguredItems :=
                    foldl markUnconfigured (configuredItems s) (itemConsignments s) in
                  modify (setConfiguredItems (λ _, newConfiguredItems));;
                  let currentIndex :=
                    findIndexZ (λ item, id_strict_eq (li_id item) lineItemId)
                               (physicalItems P) in
                  modify (setCurrentItemIndex currentIndex);;
                  modify (setIsEditing true);;
                  modify (setSelectedAddress None);;
                  modify (setSelectedShippingOption None);;
                  refreshCheckoutTotals
              end
          end)
         (λ err,
            modify (setError (Some ("Error splitting line item: "
                                    +:+ err_message err)));;
            onUnhandledError err))
      (setIsLoading false).

(** *** Editing a configured item *)

(** [Object.values(configuredItems).some(v => v === false)] *)
Definition isAnyItemEditing (m : gmap string bool) : bool :=
  existsb negb (map snd (map_to_list m)).

(** [Object.keys(m).forEach(key => m[key] = key !== itemId)] *)
Definition markOnlyEdited (itemId : string) (m : gmap string bool) : gmap string bool :=
  map_imap (λ key _, Some (negb (bool_decide (key = itemId)))) m.

Definition handleEditConsignment (s : UiState) (index : Z) : M unit :=
  if isAnyItemEditing (configuredItems s) then
    modify (setError (Some "Please complete editing the current item first"))
  else
    modify (setIsLoading true);;
    modify (setIsEditing true);;
    modify (setCurrentItemIndex index);;
    finally
      (try_catch
         (let item := nthZ (physicalItems P) index in
          let itemIdString : M string :=
            match item with
            | Some i => mret (id_toString (li_id i))
            | None =>
                throw (TypeError
                         "Cannot read properties of undefined (reading 'toString')")
            end in
          checkout ← getCheckout;
          match checkout with
          | None => throw (Error "Checkout not available")
          | Some checkout =>
              response ← fetch (GetCheckout (co_id checkout) includeCartAndOptions);
              (if response_ok response then mret tt
               else throw (Error "Failed to fetch checkout details"));;
              checkoutData ← response_json response;
              relevantConsignment ←
                match rb_consignments checkoutData with
                | None | Some [] => mret None
                | Some l => key ← itemIdString; mret (find (covers key) l)
                end;
              updatedConfiguredItems ←
                (if bool_decide (configuredItems s = ∅) then mret (configuredItems s)
                 else key ← itemIdString;
                      mret (markOnlyEdited key (configuredItems s)));
              modify (setSelectedAddress None);;
              modify (setSelectedShippingOption None);;
              match relevantConsignment, item with
              | Some relevantConsignment, Some item =>
                  Persistence.updateStoredConsignment (c_id relevantConsignment)
                    (li_id item) (li_quantity item)
                    (address_json <$> c_shippingAddress relevantConsignment)
                    (optionIdOrEmpty (c_selectedShippingOption relevantConsignment))
                    None;;
                  match updateEntryOf (li_id item)
                          (λ c, {| cw_id := Some (c_id relevantConsignment);
                                   cw_lineItemId := cw_lineItemId c;
                                   cw_shippingAddress :=
                                     c_shippingAddress relevantConsignment;
                                   cw_selectedShippingOption :=
                                     c_selectedShippingOption relevantConsignment;
                                   cw_availableShippingOptions :=
                                     Some (default []
                                       (c_availableShippingOptions
                                          relevantConsignment)) |})
                          (itemConsignments s) with
                  | Some updatedItemConsignments =>
                      modify (setItemConsignments (λ _, updatedItemConsignments));;
                      match c_shippingAddress relevantConsignment,
                            c_selectedShippingOption relevantConsignment with
                      | Some a, Some o =>
                          modify (setSelectedAddress (Some a));;
                          modify (setSelectedShippingOption (Some o))
                      | _, _ => mret tt
                      end
                  | None => mret tt
                  end;;
                  modify (setConfiguredItems (λ _, updatedConfiguredItems))
              | _, _ => mret tt
              end;;
              refreshCheckoutTotals
          end)
         (λ err,
            modify (setError (Some ("Error editing consignment: "
                                    +:+ err_message err)));;
            onUnhandledError err;;
            modify (setIsEditing false);;
            modify (setCurrentItemIndex (-1))))
      (setIsLoading false).

(** *** The completion signal *)

(** The effect on [physicalItems, configuredItems]. *)
Definition allItemsConfiguredEffect (m : gmap string bool) : bool :=
  match physicalItems P with
  | [] => false
  | items => forallb (λ item, configured m (li_id item)) items
  end.



End Component.
End CustomShipping.

(** ** The variant that splits through the middleware
    (the component that follows the helpers in consignment-persistence.ts) *)

Module MiddlewareVariant.
Section Component.

Context (E : Env) (P : Props).

(** [`Recipient #${i+1}`] for [i] from [0] to [quantity - 1] *)
Definition giftMessages (quantity : Z) : list string :=
  map (λ i, "Recipient #" +:+ pretty (Z.of_nat i + 1)) (seq 0 (Z.to_nat quantity)).

(** The entry built for an item of the reloaded cart. *)
Definition entryOfUpdated (updatedConsignments : list Consignment) (item : LineItem)
  : ConsignmentWithItem :=
  let itemConsignment :=
    find (covers (id_toString (li_id item))) updatedConsignments in
  {| cw_id := c_id <$> itemConsignment;
     cw_lineItemId := li_id item;
     cw_shippingAddress := itemConsignment ≫= c_shippingAddress;
     cw_selectedShippingOption := itemConsignment ≫= c_selectedShippingOption;
     cw_availableShippingOptions :=
       Some (default [] (itemConsignment ≫= c_availableShippingOptions)) |}.

Definition configuredOfUpdated (updatedConsignments : list Consignment)
    (updatedPhysicalItems : list LineItem) : gmap string bool :=
  foldl (λ m item,
           let itemConsignment :=
             find (covers (id_toString (li_id item))) updatedConsignments in
           <[id_toString (li_id item) :=
               complete (itemConsignment ≫= c_shippingAddress)
                        (itemConsignment ≫= c_selectedShippingOption)]> m)
        ∅ updatedPhysicalItems.

Definition handleSplitLineItem (lineItemId : ItemId) (quantity : Z) : M unit :=
  if bool_decide (quantity ≤ 1) then mret tt
  else
    modify (setIsLoading true);;
    finally
      (try_catch
         (checkout ← CustomShipping.getCheckout E;
          match checkout with
          | None => mret tt
          | Some checkout =>
              match find (λ item, id_strict_eq (li_id item) lineItemId)
                         (physicalItems P) with
              | None => throw (Error "Item not found")
              | Some originalItem =>
                  response ←
                    CustomShipping.fetch E
                      (PostMiddlewareSplit (co_cartId checkout) lineItemId quantity
                         (li_productId originalItem) (li_variantId originalItem)
                         (giftMessages quantity));
                  (if CustomShipping.response_ok response then mret tt
                   else errorData ← CustomShipping.response_json response;
                        throw (Error (or_string (rb_error errorData)
                                        "Failed to split item")));;
                  CustomShipping.loadCheckout E;;
                  updatedCheckout ← CustomShipping.getCheckout E;
                  match updatedCheckout with
                  | None => throw (Error "Failed to get updated checkout")
                  | Some updatedCheckout =>
                      let updatedPhysicalItems := co_physicalItems updatedCheckout in
                      let updatedConsignments := co_consignments updatedCheckout in
                      modify (setItemConsignments
                                (λ _, map (entryOfUpdated updatedConsignments)
                                          updatedPhysicalItems));;
                      let newConfiguredItems :=
                        configuredOfUpdated updatedConsignments updatedPhysicalItems in
                      modify (setConfiguredItems (λ _, newConfiguredItems));;
                      let first :=
                        findIndexZ (λ item, negb (configured newConfiguredItems
                                                    (li_id item)))
                                   updatedPhysicalItems in
                      modify (setCurrentItemIndex
                                (if bool_decide (0 ≤ first) then first else 0));;
                      modify (setOriginalItemOrder
                                (map (λ item, id_toString (li_id item))
                                     updatedPhysicalItems));;
                      CustomShipping.refreshCheckoutTotals E
                  end
              end
          end)
         (λ err,
            modify (setError (Some ("Error splitting item: " +:+ err_message err)));;
            CustomShipping.onUnhandledError err))
      (setIsLoading false).

End Component.
End MiddlewareVariant.

(** ** The variant with delivery dates (its completion signal) *)

Module DeliveryDateVariant.

(** An option of a cart line item, and a cart line item as [cartItems]
    holds it. *)
Record CartOption : Type := {
  op_name : string;
  op_value : option string;
}.

Record CartItem : Type := {
  ci_id : ItemId;
  ci_options : option (list CartOption);   (* [None]: absent or not an array *)
}.

(** [hay.includes(needle)] *)
Fixpoint includes (needle hay : string) : bool :=
  String.prefix needle hay
  || match hay with
     | EmptyString => false
     | String _ rest => includes needle rest
     end.

(** The white space and the line terminators that [trim] removes.  A string
    is held as the bytes of its UTF-8 form, so that such a character is one
    byte (U+0009 to U+000D, U+0020), two (U+00A0) or three (U+1680, U+2000
    to U+200A, U+2028, U+2029, U+202F, U+205F, U+3000, U+FEFF). *)
Definition is_space (c : Ascii.ascii) : bool :=
  let n := Ascii.N_of_ascii c in
  bool_decide (n = 32 ∨ 9 ≤ n ≤ 13)%N.

Definition is_space2 (a b : Ascii.ascii) : bool :=
  bool_decide (Ascii.N_of_ascii a = 194 ∧ Ascii.N_of_ascii b = 160)%N.

Definition is_space3 (a b c : Ascii.ascii) : bool :=
  let x := Ascii.N_of_ascii a in
  let y := Ascii.N_of_ascii b in
  let z := Ascii.N_of_ascii c in
  bool_decide ((x = 225 ∧ y = 154 ∧ z = 128)
               ∨ (x = 226 ∧ y = 128
                  ∧ (128 ≤ z ≤ 138 ∨ z = 168 ∨ z = 169 ∨ z = 175))
               ∨ (x = 226 ∧ y = 129 ∧ z = 159)
               ∨ (x = 227 ∧ y = 128 ∧ z = 128)
               ∨ (x = 239 ∧ y = 187 ∧ z = 191))%N.

(** [s.trimStart()] *)
Fixpoint trimStart (s : string) : string :=
  match s with
  | String a r1 =>
      if is_space a then trimStart r1
      else
        match r1 with
        | String b r2 =>
            if is_space2 a b then trimStart r2
            else
              match r2 with
              | String c r3 => if is_space3 a b c then trimStart r3 else s
              | EmptyString => s
              end
        | EmptyString => s
        end
  | EmptyString => EmptyString
  end.

(** [s.trim() !== '']: what [trim] leaves is empty exactly when nothing
    follows the leading white space. *)
Definition trimmed_nonempty (s : string) : bool :=
  negb (bool_decide (trimStart s = "")).

Definition isDeliveryDateOption (o : CartOption) : bool :=
  bool_decide (op_name o = "Delivery Date") || includes "Delivery Date" (op_name o).

Definition hasValidDeliveryDate (cartItems : list CartItem) (itemId : ItemId) : bool :=
  match find (λ item, id_strict_eq (ci_id item) itemId) cartItems with
  | Some {| ci_options := Some options |} =>
      match find isDeliveryDateOption options with
      | None => true
      | Some deliveryDateOption =>
          match op_value deliveryDateOption with
          | Some v => negb (bool_decide (v = "")) && trimmed_nonempty v
          | None => false
          end
      end
  | _ => false
  end.

(** The effect on [physicalItems, configuredItems, cartItems]. *)
Definition allItemsConfiguredEffect (items : list LineItem) (m : gmap string bool)
    (cartItems : list CartItem) : bool :=
  match items with
  | [] => false
  | _ =>
      forallb (λ item, configured m (li_id item)
                       && hasValidDeliveryDate cartItems (li_id item)) items
  end.

End DeliveryDateVariant.

(** ** The stores this module writes *)

(** The records of the store, when it holds an array. *)
Definition records (store : gmap string text) : list json :=
  match store !! Persistence.storageKey with
  | Some (TJson (JArr l)) => l
  | _ => []
  end.

(** The [consignmentId] of a record, when it is a string. *)
Definition record_id (c : json) : option string :=
  match c with
  | JObj fs =>
      match assoc "consignmentId" fs with
      | Some (JStr s) => Some s
      | _ => None
      end
  | _ => None
  end.

(** A record as [saveConsignmentToSession] writes it. *)
Inductive is_record : json → Prop :=
| is_record_intro cid li q a o d :
    is_record (Persistence.consignmentData cid li q a o d).

(** The line item and the quantity a record was saved with. *)
Definition record_matches (li : ItemId) (q : Z) (c : json) : bool :=
  match c with
  | JObj fs =>
      match assoc "lineItemId" fs, assoc "quantity" fs with
      | Some v, Some (JNum q') =>
          match json_toString v with
          | Normal s => bool_decide (s = id_toString li) && bool_decide (q' = q)
          | Thrown _ => false
          end
      | _, _ => false
      end
  | _ => false
  end.

(** What [saveConsignmentToSession] does to the array: the first record
    with the id is replaced, or the record is added at the end. *)
Definition upsert (cid : string) (data : json) (l : list json) : list json :=
  match list_find (λ c, record_id c = Some cid) l with
  | Some (i, _) => <[i := data]> l
  | None => l ++ [data]
  end.

(** What [removeStoredConsignment] does to the array. *)
Definition purge (cid : string) (l : list json) : list json :=
  filter (λ c, record_id c ≠ Some cid) l.

(** The store holds nothing under the key, or an array of records. *)
Definition cache_wf (store : gmap string text) : Prop :=
  store !! Persistence.storageKey = None
  ∨ ∃ l, store !! Persistence.storageKey = Some (TJson (JArr l)) ∧ Forall is_record l.

(** The invariant of the store. *)
Definition cache_inv (store : gmap string text) : Prop :=
  cache_wf store ∧ NoDup (record_id <$> records store).

(** The worlds whose store was written by this module alone, from a session
    that had nothing under the key. *)
Inductive cache_reachable : World → Prop :=
| reach_fresh w :
    ss w !! Persistence.storageKey = None → cache_reachable w
| reach_save w cid li q a o d :
    cache_reachable w →
    cache_reachable (Persistence.saveConsignmentToSession cid li q a o d w).2
| reach_remove w cid :
    cache_reachable w →
    cache_reachable (Persistence.removeStoredConsignment cid w).2
| reach_same_store w w' :
    cache_reachable w → ss w' = ss w → cache_reachable w'.

(** The text under the key is absent, empty, or does not parse. *)
Definition unreadable (t : option text) : Prop :=
  t = None ∨ t = Some TEmpty ∨ ∃ s, t = Some (TGarbage s).

(** ** Concrete worlds *)

(** The initial values of the [useState] calls. *)
Definition initialUi : UiState :=
  {| isLoading := false; isEditing := false; currentItemIndex := 0;
     error := None; selectedAddress := None; selectedShippingOption := None;
     itemConsignments := []; configuredItems := ∅; allItemsConfigured := false;
     originalItemOrder := [] |}.

(** A new session: nothing stored, nothing called yet. *)
Definition freshWorld : World :=
  {| clock := 0; ss := ∅; events := []; console := []; unhandled := [];
     ui := initialUi |}.

(** A session whose key holds the text [{}]. *)
Definition objectStoreWorld : World :=
  with_ss (λ _, {[ Persistence.storageKey := TJson (JObj []) ]}) freshWorld.

(** A session whose key holds a text that is not JSON. *)
Definition garbageStoreWorld : World :=
  with_ss (λ _, {[ Persistence.storageKey := TGarbage "[{" ]}) freshWorld.

(** ** The completion signal as the specification words it *)


(** ** Concrete carts *)

Definition itemA : LineItem :=
  {| li_id := IdStr "A"; li_name := "Mug"; li_quantity := 1;
     li_productId := 77; li_variantId := 1 |}.

Definition itemB : LineItem :=
  {| li_id := IdStr "B"; li_name := "Poster"; li_quantity := 3;
     li_productId := 78; li_variantId := 1 |}.


Definition cartAB : Props :=
  {| physicalItems := [itemA; itemB]; consignments := [];
     deleteConsignmentsProvided := true; isBillingSameAsShipping := true |}.

Definition home : Address :=
  [("firstName", "Ada"); ("lastName", "Lovelace"); ("address1", "12 Main St");
   ("city", "Austin"); ("stateOrProvinceCode", "TX"); ("countryCode", "US");
   ("postalCode", "73301")].

Definition ground : ShippingOption :=
  {| so_id := "opt-9"; so_description := "Ground" |}.

(** A session in which two consignments were saved. *)
Definition twoRecords : World :=
  (Persistence.saveConsignmentToSession "c-2" (IdStr "B") 1
     (Some (address_json home)) "opt-1" None
     (Persistence.saveConsignmentToSession "c-1" (IdStr "A") 2 None "opt-1" None
        freshWorld).2).2.

(** ** Concrete collaborators *)

(** A Gateway that is down: every call fails. *)
Definition offlineEnv : Env :=
  {| gw_fetch := λ _ _, NetworkFailure "Failed to fetch";
     gw_loadCheckout := λ _, Some (Error "offline");
     gw_getCheckout := λ _, None;
     gw_deleteConsignments := λ _, Some (Error "offline");
     env_getFields := Some (λ _, ["firstName"; "address1"; "city"; "postalCode"]);
     env_isValidAddress :=
       λ address fields,
         forallb (λ f, bool_decide (is_Some (assoc f address))) fields |}.

(** An address without street and city. *)
Definition incompleteAddress : Address :=
  [("firstName", "Ada"); ("countryCode", "US")].

(** Item A is configured, item B is being edited. *)
Definition editingB : UiState :=
  {| isLoading := false; isEditing := true; currentItemIndex := 1;
     error := None; selectedAddress := None; selectedShippingOption := None;
     itemConsignments :=
       [ {| cw_id := Some "c-1"; cw_lineItemId := IdStr "A";
            cw_shippingAddress := Some home;
            cw_selectedShippingOption := Some ground;
            cw_availableShippingOptions := Some [ground] |};
         freshEntry (IdStr "B") ];
     configuredItems := {[ "A" := true; "B" := false ]};
     allItemsConfigured := false;
     originalItemOrder := ["A"; "B"] |}.

(** ** The selections an item starts from *)

(** The address and the option of the entry of [item], when the entry has
    both and lists shipping options; nothing otherwise. *)
Definition ownSelections (entries : list ConsignmentWithItem) (item : LineItem)
  : option Address * option ShippingOption :=
  match find (λ c, id_strict_eq (cw_lineItemId c) (li_id item)) entries with
  | Some c =>
      match cw_shippingAddress c, cw_selectedShippingOption c with
      | Some a, Some o =>
          if CustomShipping.hasOptions c then (Some a, Some o) else (None, None)
      | _, _ => (None, None)
      end
  | None => (None, None)
  end.

(** A Gateway that creates what it is asked to create and lists no
    shipping option for any address.  The reply to the re-read with the cart
    is the state after the split of item B, the only place where the
    component reads it. *)
Definition consignmentFor (cid item : string) (a : Address) : Consignment :=
  {| c_id := cid; c_lineItemIds := [item]; c_shippingAddress := Some a;
     c_selectedShippingOption := None; c_availableShippingOptions := Some [] |}.

Definition replyWith (l : list Consignment) : fetch_result :=
  Response true (Some {| rb_consignments := Some l; rb_title := None;
                         rb_error := None |}).

Definition createdFor (i : nat) (b : ConsignmentRequest) : Consignment :=
  consignmentFor ("c-" +:+ id_toString (cr_itemId b) +:+ pretty (Z.of_nat i))
    (id_toString (cr_itemId b)) (cr_address b).

Definition noOptionsGateway : Env :=
  {| gw_fetch := λ _ req,
       match req with
       | PostConsignments _ body => replyWith (imap createdFor body)
       | GetCheckout _ include =>
           if bool_decide (include = includeOptions) then replyWith []
           else replyWith
                  (consignmentFor "c-A0" "A" home
                   :: imap createdFor (CustomShipping.splitConsignments (IdStr "B") 3))
       | _ => replyWith []
       end;
     gw_loadCheckout := λ _, None;
     gw_getCheckout := λ _, Some {| co_id := "chk"; co_cartId := "cart";
                                    co_customerMessage := "";
                                    co_consignments := [];
                                    co_physicalItems := [itemA; itemB] |};
     gw_deleteConsignments := λ _, None;
     env_getFields := None;
     env_isValidAddress := λ _ _, true |}.

(** A handler run in the state of the latest render. *)
Definition act (h : UiState → M unit) (w : World) : World := (h (ui w) w).2.

(** The shopper opens the step on the cart [A (1), B (3)], gives A an
    address and continues: the pointer is on B. *)
Definition beforeSplit : World :=
  act (CustomShipping.handleContinue noOptionsGateway cartAB)
    (act (λ s, CustomShipping.handleAddressSelect noOptionsGateway cartAB s home)
      (act (λ _, CustomShipping.initConsignments noOptionsGateway cartAB)
           freshWorld)).

(** Then the shopper splits B, and gives B an address. *)
Definition beforeLastContinue : World :=
  act (λ s, CustomShipping.handleAddressSelect noOptionsGateway cartAB s home)
   (act (λ s, CustomShipping.handleSplitLineItem noOptionsGateway cartAB s
                (IdStr "B") 3)
     beforeSplit).


(** ** What a computation leaves alone, and what it asks of the collaborators *)

(** [m] does not change the part [f] of the world. *)
Definition preserves {A B} (f : World → A) (m : M B) : Prop :=
  ∀ w, f (m w).2 = f w.


(** [m] only adds events, all of them in [Q]. *)
Definition emits {B} (Q : event → Prop) (m : M B) : Prop :=
  ∀ w, ∃ evs, events (m w).2 = events w ++ evs ∧ Forall Q evs.

(** ** The invariant of a reconciliation pass *)


(** Any event. *)
Definition anyEvent (ev : event) : Prop := True.

(** ** A reconciliation scenario *)

Definition itemC : LineItem :=
  {| li_id := IdStr "C"; li_name := "Vase"; li_quantity := 1;
     li_productId := 79; li_variantId := 1 |}.

Definition consA_incomplete : Consignment :=
  {| c_id := "cons-A"; c_lineItemIds := ["A"]; c_shippingAddress := Some home;
     c_selectedShippingOption := None;
     c_availableShippingOptions := Some [ground] |}.

Definition consC_incomplete : Consignment :=
  {| c_id := "cons-C"; c_lineItemIds := ["C"]; c_shippingAddress := Some home;
     c_selectedShippingOption := None;
     c_availableShippingOptions := Some [ground] |}.

Definition consC_restored : Consignment :=
  {| c_id := "cons-C"; c_lineItemIds := ["C"]; c_shippingAddress := Some home;
     c_selectedShippingOption := Some ground;
     c_availableShippingOptions := Some [ground] |}.

(** The cart [A, C]; the consignments of both items lost their option. *)
Definition cartAC : Props :=
  {| physicalItems := [itemA; itemC];
     consignments := [consA_incomplete; consC_incomplete];
     deleteConsignmentsProvided := true; isBillingSameAsShipping := true |}.

Definition checkoutWith (l : list Consignment) : Checkout :=
  {| co_id := "chk"; co_cartId := "cart"; co_customerMessage := "";
     co_consignments := l; co_physicalItems := [itemA; itemC] |}.

Definition unavailable : fetch_result :=
  Response false (Some {| rb_consignments := None;
                          rb_title := Some "Service unavailable";
                          rb_error := None |}).

(** A Gateway that sets the option it is asked to set and deletes what it
    is asked to delete; the re-read succeeds or not, as [rereadOk] says. *)
Definition reconcilingGateway (rereadOk : bool) : Env :=
  {| gw_fetch := λ _ req,
       match req with
       | GetCheckout _ _ =>
           if rereadOk then replyWith [consA_incomplete; consC_restored]
           else unavailable
       | PutShippingOption _ _ _ _ => replyWith [consA_incomplete; consC_restored]
       | DeleteConsignment _ _ => replyWith [consC_restored]
       | _ => replyWith []
       end;
     gw_loadCheckout := λ _, None;
     gw_getCheckout := λ t,
       Some (checkoutWith
               (if (t <? 1)%nat then [consA_incomplete; consC_incomplete]
                else if (t <? 4)%nat then [consA_incomplete; consC_restored]
                else [consC_restored]));
     gw_deleteConsignments := λ _, None;
     env_getFields := None;
     env_isValidAddress := λ _ _, true |}.

(** A session in which the option [opt-9] was confirmed for item C. *)
Definition sessionWithRecordForC : World :=
  (Persistence.saveConsignmentToSession "cons-C" (IdStr "C") 1
     (Some (address_json home)) "opt-9" None freshWorld).2.

(** ** The calls a run made, without the replies *)

Inductive call : Type :=
| CallFetch (req : request)
| CallLoadCheckout
| CallDeleteConsignments
| CallNavigateNextStep.

Definition call_of (ev : event) : call :=
  match ev with
  | EvFetch req _ => CallFetch req
  | EvLoadCheckout => CallLoadCheckout
  | EvDeleteConsignments => CallDeleteConsignments
  | EvNavigateNextStep _ => CallNavigateNextStep
  end.

Definition calls (w : World) : list call := call_of <$> events w.

(** ** What the restoration of an item asks of the Gateway *)

(** The request that the restoration round of [item] sends, if any: the
    item has a consignment of its own without option, the cache has a
    record for the item and its quantity with an option id, and the checkout
    lists a consignment that covers the item. *)
Definition restoreTarget (E : Env) (P : Props) (item : LineItem) (w : World)
  : option request :=
  let s := id_toString (li_id item) in
  match find (is_sole_item s) (consignments P) with
  | Some existing =>
      match c_selectedShippingOption existing with
      | Some _ => None
      | None =>
          let stored :=
            find (record_matches (li_id item) (CustomShipping.quantityOf P s))
                 (records (ss w)) in
          let optionId := optional_get stored "selectedShippingOptionId" in
          if opt_truthy optionId then
            match gw_getCheckout E (clock w) with
            | Some checkout =>
                match find (covers s) (co_consignments checkout) with
                | Some target =>
                    Some (PutShippingOption (co_id checkout) (c_id target) true
                            optionId)
                | None => None
                end
            | None => None
            end
          else None
      end
  | None => None
  end.

(** The reply is a failure of the call. *)
Definition reply_fails (res : fetch_result) : bool :=
  match res with
  | Response true _ => false
  | _ => true
  end.

(** A request to set the shipping option of the consignment [cid]. *)
Definition isSetOptionOn (cid : string) (ev : event) : bool :=
  match ev with
  | EvFetch (PutShippingOption _ cid' _ _) _ => bool_decide (cid' = cid)
  | _ => false
  end.

(** A request to delete the consignment [cid]. *)
Definition isDeleteOf (cid : string) (ev : event) : bool :=
  match ev with
  | EvFetch (DeleteConsignment _ cid') _ => bool_decide (cid' = cid)
  | _ => false
  end.

(** ** The replay of a cached option *)

(** Throughout the pass the checkout is at hand, it lists the consignment
    [cid] as the first one that covers the line item [s], and what it lists
    under that id covers that line item alone. *)
Definition keepsConsignmentOf (E : Env) (cid s : string) : Prop :=
  ∀ t, ∃ chk,
    gw_getCheckout E t = Some chk
    ∧ (∀ c', c' ∈ co_consignments chk → c_id c' = cid → c_lineItemIds c' = [s])
    ∧ ∃ c', find (covers s) (co_consignments chk) = Some c' ∧ c_id c' = cid.

(** The events of the restoration loop: requests to set an option, and
    reloads of the checkout. *)
Definition isRestoreEvent (ev : event) : Prop :=
  match ev with
  | EvFetch (PutShippingOption _ _ _ _) _ | EvLoadCheckout => True
  | _ => False
  end.

(** What the pass may emit after the re-read that listed [L]: no request to
    set the option of [cid], and a request to delete [cid] only if [L] lists
    it without option. *)
Definition afterReread (cid : string) (L : list Consignment) (ev : event) : Prop :=
  isSetOptionOn cid ev = false
  ∧ (isDeleteOf cid ev = true →
     ∃ c', c' ∈ L ∧ c_id c' = cid ∧ c_selectedShippingOption c' = None).

(** [m] moves the world along the relation [R]. *)
Definition steps {B} (R : relation World) (m : M B) : Prop :=
  ∀ w, R w (m w).2.

(** The console only grows. *)
Definition console_grows : relation World :=
  λ w w', ∀ line, line ∈ console w → line ∈ console w'.

(** ** A Gateway that refuses to set an option *)

(** The request to set a shipping option is answered with an error; the
    re-read lists both consignments as they were. *)
Definition refusingGateway : Env :=
  {| gw_fetch := λ _ req,
       match req with
       | PutShippingOption _ _ _ _ => unavailable
       | GetCheckout _ _ => replyWith [consA_incomplete; consC_incomplete]
       | _ => replyWith []
       end;
     gw_loadCheckout := λ _, None;
     gw_getCheckout := λ _,
       Some (checkoutWith [consA_incomplete; consC_incomplete]);
     gw_deleteConsignments := λ _, None;
     env_getFields := None;
     env_isValidAddress := λ _ _, true |}.

(** ** A second visit of the step *)

Definition express : ShippingOption :=
  {| so_id := "opt-2"; so_description := "Express" |}.

(** A Gateway that puts the line item of a request on a consignment of its
    own, named after the moment of the request, with two shipping options on
    offer, and that selects the option it is asked to select. *)
Definition consignmentAt (t : nat) (b : ConsignmentRequest) : Consignment :=
  {| c_id := "cons-" +:+ pretty (Z.of_nat t);
     c_lineItemIds := [id_toString (cr_itemId b)];
     c_shippingAddress := Some (cr_address b);
     c_selectedShippingOption := None;
     c_availableShippingOptions := Some [ground; express] |}.

Definition optionOf (v : option json) : option ShippingOption :=
  match v with
  | Some (JStr s) =>
      if bool_decide (s = so_id express) then Some express else Some ground
  | _ => None
  end.

Definition servingGateway : Env :=
  {| gw_fetch := λ t req,
       match req with
       | PostConsignments _ body => replyWith (consignmentAt t <$> body)
       | PutShippingOption _ cid _ v =>
           replyWith [ {| c_id := cid; c_lineItemIds := ["A"];
                          c_shippingAddress := Some home;
                          c_selectedShippingOption := optionOf v;
                          c_availableShippingOptions := Some [ground; express] |} ]
       | _ => replyWith []
       end;
     gw_loadCheckout := λ _, None;
     gw_getCheckout := λ _, Some {| co_id := "chk"; co_cartId := "cart";
                                    co_customerMessage := "";
                                    co_consignments := [];
                                    co_physicalItems := [itemA; itemB] |};
     gw_deleteConsignments := λ _, None;
     env_getFields := None;
     env_isValidAddress := λ _ _, true |}.

(** One visit of the step for item A: the step opens, the shopper gives the
    address and picks the option [o]. *)
Definition arrive (w : World) : World :=
  act (λ s, CustomShipping.handleAddressSelect servingGateway cartAB s home)
    (act (λ _, CustomShipping.initConsignments servingGateway cartAB) w).

Definition visit (o : ShippingOption) (w : World) : World :=
  act (λ s, CustomShipping.handleShippingOptionSelect servingGateway cartAB s o)
    (arrive w).

(** The shopper picks [ground], leaves the step, the platform drops the
    consignments (the component is mounted anew, on the same session
    storage), and the shopper picks [express]. *)
Definition remount (w : World) : World :=
  {| clock := clock w; ss := ss w; events := events w; console := console w;
     unhandled := unhandled w; ui := initialUi |}.

Definition secondVisit : World := visit express (remount (visit ground freshWorld)).

(** ** The invariant of the merge *)

(** The keys of the map of [mergeConsignments] are distinct, and an entry
    sits under its [lineItemId]. *)
Definition merge_inv (m : CustomShipping.mergeMap) : Prop :=
  NoDup m.*1
  ∧ Forall (λ kv, cw_lineItemId kv.2 = default (IdStr "undefined") kv.1) m.

(** * The rest of the code *)

(** ** The store of delivery dates
    ([saveDeliveryDateToSession] of [consignment-persistence.ts]) *)

Module DeliveryDateStore.

Definition storageKey : string := "storedDeliveryDates".

(** [d.lineItemId === lineItemId], for [d] out of [JSON.parse]: a string
    equals a string and a number a number, nothing else is equal. *)
Definition has_lineItemId (lineItemId : ItemId) (d : json) : outcome bool :=
  match js_get d "lineItemId" with
  | Thrown e => Thrown e
  | Normal (Some (JStr s)) =>
      Normal (match lineItemId with IdStr s' => bool_decide (s = s') | IdNum _ => false end)
  | Normal (Some (JNum n)) =>
      Normal (match lineItemId with IdNum n' => bool_decide (n = n') | IdStr _ => false end)
  | Normal _ => Normal false
  end.

(** [{ lineItemId, deliveryDate }] *)
Definition deliveryDateEntry (lineItemId : ItemId) (deliveryDate : json) : json :=
  JObj [("lineItemId", id_json lineItemId); ("deliveryDate", deliveryDate)].

(** The body of the [try] block: the new content of the store, or the
    exception. *)
Definition save_try (lineItemId : ItemId) (deliveryDate : json)
    (store : gmap string text) : outcome (gmap string text) :=
  match Persistence.parse_or_empty (store !! storageKey) with
  | Thrown e => Thrown e
  | Normal v =>
      match as_array "storedDeliveryDates.findIndex" v with
      | Thrown e => Thrown e
      | Normal storedDeliveryDates =>
          match Persistence.findIndex (has_lineItemId lineItemId)
                  storedDeliveryDates with
          | Thrown e => Thrown e
          | Normal existingIndex =>
              let entry := deliveryDateEntry lineItemId deliveryDate in
              let updated :=
                match existingIndex with
                | Some i => <[i := entry]> storedDeliveryDates
                | None => storedDeliveryDates ++ [entry]
                end in
              Normal (<[storageKey := TJson (JArr updated)]> store)
          end
      end
  end.

Definition saveDeliveryDateToSession (lineItemId : ItemId) (deliveryDate : json)
  : M unit := λ w,
  match save_try lineItemId deliveryDate (ss w) with
  | Normal store' => (Normal tt, with_ss (λ _, store') w)
  | Thrown e =>
      (Normal tt,
       with_console ("Error saving delivery date to session storage: "
                     +:+ err_message e) w)
  end.

End DeliveryDateStore.

(** The array of delivery dates under the key; empty when there is none. *)
Definition dates (store : gmap string text) : list json :=
  match store !! DeliveryDateStore.storageKey with
  | Some (TJson (JArr l)) => l
  | _ => []
  end.

(** The line item an entry was saved for. *)
Definition date_key (d : json) : option ItemId :=
  match d with
  | JObj fs =>
      match assoc "lineItemId" fs with
      | Some (JStr s) => Some (IdStr s)
      | Some (JNum n) => Some (IdNum n)
      | _ => None
      end
  | _ => None
  end.

Inductive is_date_entry : json → Prop :=
| is_date_entry_intro li d : is_date_entry (DeliveryDateStore.deliveryDateEntry li d).

(** The store holds nothing under the key of the dates, or an array of
    entries. *)
Definition dates_wf (store : gmap string text) : Prop :=
  store !! DeliveryDateStore.storageKey = None
  ∨ ∃ l, store !! DeliveryDateStore.storageKey = Some (TJson (JArr l))
         ∧ Forall is_date_entry l.

(** What [saveDeliveryDateToSession] does to the array: the first entry of
    the line item is replaced, or the entry is added at the end. *)
Definition upsert_date (li : ItemId) (entry : json) (l : list json) : list json :=
  match list_find (λ e, date_key e = Some li) l with
  | Some (i, _) => <[i := entry]> l
  | None => l ++ [entry]
  end.

(** ** The remaining handlers and effects of [CustomShipping.tsx] *)

(** [navigateNextStep(b)]: a callback of the parent, not awaited. *)
Definition with_navigation (b : bool) (w : World) : World :=
  {| clock := clock w; ss := ss w; events := events w ++ [EvNavigateNextStep b];
     console := console w; unhandled := unhandled w; ui := ui w |}.

Module Shell.
Section Component.

Context (E : Env) (P : Props).

Definition navigateNextStep (b : bool) : M unit := modify (with_navigation b).

Definition handleFinalContinue (s : UiState) : M unit :=
  if isLoading s then mret tt
  else
    modify (setIsLoading true);;
    finally
      (try_catch
         (CustomShipping.refreshCheckoutTotals E;;
          CustomShipping.updateOrderSummaryDisplay E;;
          navigateNextStep (isBillingSameAsShipping P))
         (λ err,
            modify (setError (Some (err_message err)));;
            modify (setIsEditing false);;
            CustomShipping.onUnhandledError err))
      (setIsLoading false).

(** The effect on [currentItemIndex]; [s] is the state of the render that
    follows the change of the index. *)
Definition loadCurrentItemShippingOptions (s : UiState) : M unit :=
  modify (setSelectedAddress None);;
  modify (setSelectedShippingOption None);;
  modify (setIsLoading true);;
  finally
    (try_catch
       (CustomShipping.loadCheckout E;;
        match CustomShipping.getCurrentItem P s with
        | None => mret tt
        | Some currentItem =>
            checkout ← CustomShipping.getCheckout E;
            let updatedConsignments :=
              match checkout with Some c => co_consignments c | None => [] end in
            match find (covers (id_toString (li_id currentItem)))
                       updatedConsignments with
            | Some updatedConsignment =>
                match c_availableShippingOptions updatedConsignment,
                      c_shippingAddress updatedConsignment,
                      c_selectedShippingOption updatedConsignment with
                | Some (_ :: _), Some a, Some o =>
                    modify (setSelectedAddress (Some a));;
                    modify (setSelectedShippingOption (Some o))
                | _, _, _ => mret tt
                end
            | None => mret tt
            end
        end)
       (λ err, console_error ("Error loading current item shipping options: "
                              +:+ err_message err)))
    (setIsLoading false).

Definition currentItemEffect (s : UiState) : M unit :=
  if isEditing s then mret tt else loadCurrentItemShippingOptions s.






(** [originalItemOrder.indexOf(s)] *)
Definition indexOf (s : string) (l : list string) : Z :=
  findIndexZ (λ x, bool_decide (x = s)) l.

(** The comparison function of [getOrderedPhysicalItems]. *)
Definition compareByOriginalOrder (order : list string) (a b : LineItem) : Z :=
  let aIndex := indexOf (id_toString (li_id a)) order in
  let bIndex := indexOf (id_toString (li_id b)) order in
  if negb (bool_decide (aIndex = -1)) && negb (bool_decide (bIndex = -1))
  then aIndex - bIndex
  else if negb (bool_decide (aIndex = -1)) then -1
  else if negb (bool_decide (bIndex = -1)) then 1
  else 0.

(** [Array.prototype.sort] with a comparison function: the sort is stable,
    so with a consistent comparison function, as the one above is, its
    result is the one of the insertion of the elements, from the last one
    on, each before the first element it does not follow. *)
Fixpoint insertSorted {A} (cmp : A → A → Z) (x : A) (l : list A) : list A :=
  match l with
  | [] => [x]
  | y :: rest =>
      if bool_decide (cmp x y ≤ 0) then x :: y :: rest
      else y :: insertSorted cmp x rest
  end.

Definition sortBy {A} (cmp : A → A → Z) (l : list A) : list A :=
  foldr (insertSorted cmp) [] l.

Definition getOrderedPhysicalItems (s : UiState) : list LineItem :=
  sortBy (compareByOriginalOrder (originalItemOrder s)) (physicalItems P).

End Component.
End Shell.

(** The position of an item in an order; items the order does not know
    come last. *)
Definition orderRank (order : list string) (item : LineItem) : Z :=
  let i := Shell.indexOf (id_toString (li_id item)) order in
  if bool_decide (i = -1) then Z.of_nat (length order) else i.

(** Ranks never decrease along [l]. *)
Fixpoint ranked (rank : LineItem → Z) (l : list LineItem) : Prop :=
  match l with
  | [] => True
  | x :: rest => Forall (λ y, rank x ≤ rank y) rest ∧ ranked rank rest
  end.

(** A call other than [navigateNextStep]. *)
Definition isGatewayCall (ev : event) : Prop :=
  match ev with EvNavigateNextStep _ => False | _ => True end.


(** The selections that the checkout offers for an item: those of the first
    consignment that covers it, when it lists options and has both. *)
Definition remoteSelections (cs : list Consignment) (item : LineItem)
  : option Address * option ShippingOption :=
  match find (covers (id_toString (li_id item))) cs with
  | Some c =>
      match c_availableShippingOptions c, c_shippingAddress c,
            c_selectedShippingOption c with
      | Some (_ :: _), Some a, Some o => (Some a, Some o)
      | _, _, _ => (None, None)
      end
  | None => (None, None)
  end.

(** A run from [w] that resolved: it returned at its guard, and left
    [isLoading] as it was, or it went on, and left [isLoading] false. *)
Definition settled (guard : bool) (w : World) (r : outcome unit * World) : Prop :=
  r.1 = Normal tt
  ∧ isLoading (ui r.2) = (if guard then isLoading (ui w) else false).

(** ** What the selection of an address asks of the Gateway *)

(** The request of [createConsignment]: an update of the consignment that
    the props list for the item alone, or else the creation of one. *)
Definition addressRequest (P : Props) (chk : Checkout) (a : Address)
    (item : LineItem) : request :=
  let body := {| cr_address := a; cr_itemId := li_id item;
                 cr_quantity := li_quantity item |} in
  match find (is_sole_item (id_toString (li_id item))) (consignments P) with
  | Some existing => PutConsignment (co_id chk) (c_id existing) body
  | None => PostConsignments (co_id chk) [body]
  end.

(** The message shown when the Gateway refuses that request without a
    title. *)
Definition addressErrorDefault (P : Props) (item : LineItem) : string :=
  match find (is_sole_item (id_toString (li_id item))) (consignments P) with
  | Some _ => "Error updating consignment"
  | None => "Error creating consignment"
  end.

(** The entry of a line item. *)
Definition entryOf (entries : list ConsignmentWithItem) (k : ItemId)
  : option ConsignmentWithItem :=
  find (λ c, id_strict_eq (cw_lineItemId c) k) entries.

(** The error that a request of the component ends in, by the reply:
    a failure of the network, a refusal (with the title of the reply, or the
    default message), or a reply without a body. *)
Definition refusal (dflt : string) (reply : fetch_result) : option js_error :=
  match reply with
  | NetworkFailure msg => Some (TypeError msg)
  | Response true (Some _) => None
  | Response false (Some b) => Some (Error (or_string (rb_title b) dflt))
  | Response _ None => Some (SyntaxError "Unexpected end of JSON input")
  end.

(** A Gateway that refuses every request, with the checkout at hand. *)
Definition closedGateway : Env :=
  {| gw_fetch := λ _ _, unavailable;
     gw_loadCheckout := λ _, None;
     gw_getCheckout := λ _, Some (checkoutWith []);
     gw_deleteConsignments := λ _, None;
     env_getFields := None;
     env_isValidAddress := λ _ _, true |}.

(** The step just opened on the cart [A, B], with the Gateway that serves. *)
Definition stepOpened : World :=
  act (λ _, CustomShipping.initConsignments servingGateway cartAB) freshWorld.

(** Both items of the cart [A, B] are configured. *)
Definition configuredAB : UiState :=
  {| isLoading := false; isEditing := false; currentItemIndex := 1;
     error := None; selectedAddress := Some home;
     selectedShippingOption := Some ground;
     itemConsignments :=
       [ {| cw_id := Some "c-A0"; cw_lineItemId := IdStr "A";
            cw_shippingAddress := Some home;
            cw_selectedShippingOption := Some ground;
            cw_availableShippingOptions := Some [ground] |};
         {| cw_id := Some "c-B0"; cw_lineItemId := IdStr "B";
            cw_shippingAddress := Some home;
            cw_selectedShippingOption := Some ground;
            cw_availableShippingOptions := Some [ground] |} ];
     configuredItems := {[ "A" := true; "B" := true ]};
     allItemsConfigured := true;
     originalItemOrder := ["A"; "B"] |}.

Definition allConfigured : World := with_ui (λ _, configuredAB) freshWorld.

(** ** The completion signal along a visit of the step *)









(** * Properties *)

(** ** The monad *)

Lemma bind_normal {A B} (m : M A) (k : A → M B) w a w' :
  m w = (Normal a, w') → (m ≫= k) w = k a w'.
Proof. intros H. unfold mbind, M_bind. by rewrite H. Qed.

Lemma bind_thrown {A B} (m : M A) (k : A → M B) w e w' :
  m w = (Thrown e, w') → (m ≫= k) w = (Thrown e, w').
Proof. intros H. unfold mbind, M_bind. by rewrite H. Qed.

Lemma bind_modify {B} (f : World → World) (k : unit → M B) w :
  (modify f ≫= k) w = k tt (f w).
Proof. reflexivity. Qed.

Lemma bind_ret {A B} (a : A) (k : A → M B) w : (mret a ≫= k) w = k a w.
Proof. reflexivity. Qed.

Lemma bind_assoc {A B C} (m : M A) (k1 : A → M B) (k2 : B → M C) w :
  ((m ≫= k1) ≫= k2) w = (m ≫= λ a, k1 a ≫= k2) w.
Proof. unfold mbind, M_bind. by destruct (m w) as [[a|e] w']. Qed.

Lemma bind_read {A B} (g : World → A) (k : A → M B) w :
  (read g ≫= k) w = k (g w) w.
Proof. reflexivity. Qed.

Lemma world_eta w :
  {| clock := clock w; ss := ss w; events := events w; console := console w;
     unhandled := unhandled w; ui := ui w |} = w.
Proof. by destruct w. Qed.

(** ** The cache *)

Section Cache.

Import Persistence.

Lemma record_id_data cid li q a o d :
  record_id (consignmentData cid li q a o d) = Some cid.
Proof. reflexivity. Qed.

Lemma has_consignmentId_record cid c :
  is_record c →
  has_consignmentId cid c = Normal (bool_decide (record_id c = Some cid)).
Proof.
  intros [cid' li q a o d]. unfold has_consignmentId. cbn.
  f_equal. apply bool_decide_ext. split; [congruence | by intros [=]].
Qed.

Lemma json_toString_id li : json_toString (id_json li) = Normal (id_toString li).
Proof. by destruct li. Qed.

Lemma matches_lineItem_record li q c :
  is_record c → matches_lineItem li q c = Normal (record_matches li q c).
Proof.
  intros [cid li' q' a o d]. unfold matches_lineItem, record_matches. cbn.
  rewrite json_toString_id.
  destruct (decide (id_toString li' = id_toString li)) as [Heq|Hne].
  - rewrite !bool_decide_eq_true_2 by congruence. done.
  - rewrite !bool_decide_eq_false_2 by congruence. done.
Qed.

Lemma record_matches_data li q cid a o d :
  record_matches li q (consignmentData cid li q a o d) = true.
Proof.
  unfold record_matches. cbn. rewrite json_toString_id.
  by rewrite !bool_decide_eq_true_2.
Qed.

Lemma js_find_records p (f : json → bool) l :
  Forall (λ c, p c = Normal (f c)) l → js_find p l = Normal (find f l).
Proof.
  induction 1 as [|c l Hc _ IH]; [done|]. cbn. rewrite Hc.
  destruct (f c); [done | exact IH].
Qed.

Lemma js_filter_records p (f : json → bool) l :
  Forall (λ c, p c = Normal (f c)) l →
  js_filter p l = Normal (filter (λ c, f c = true) l).
Proof.
  induction 1 as [|c l Hc _ IH]; [done|].
  rewrite filter_cons. cbn [js_filter]. rewrite Hc, IH.
  destruct (f c); case_decide; done.
Qed.

Lemma findIndex_list_find cid l :
  Forall is_record l →
  findIndex (has_consignmentId cid) l
  = Normal (fst <$> list_find (λ c, record_id c = Some cid) l).
Proof.
  induction 1 as [|c l Hc _ IH]; [done|]. cbn [findIndex list_find].
  rewrite (has_consignmentId_record _ _ Hc). case_bool_decide.
  - by rewrite decide_True.
  - rewrite decide_False by done. rewrite IH.
    by destruct (list_find _ l) as [[i c']|].
Qed.

Lemma upsert_cons cid data c l :
  upsert cid data (c :: l)
  = if decide (record_id c = Some cid) then data :: l else c :: upsert cid data l.
Proof.
  unfold upsert. cbn [list_find]. case_decide; [done|].
  by destruct (list_find _ l) as [[i c']|].
Qed.

Lemma upsert_records cid data l :
  is_record data → Forall is_record l → Forall is_record (upsert cid data l).
Proof.
  intros Hd. induction 1 as [|c l Hc Hl IH].
  - by repeat constructor.
  - rewrite upsert_cons. case_decide; by constructor.
Qed.

Lemma upsert_ids cid data l :
  record_id data = Some cid →
  record_id <$> (upsert cid data l)
  = if decide (Some cid ∈ record_id <$> l) then record_id <$> l
    else (record_id <$> l) ++ [Some cid].
Proof.
  intros Hd. induction l as [|c l IH].
  - cbn. rewrite decide_False by apply not_elem_of_nil. by rewrite Hd.
  - rewrite upsert_cons. rewrite fmap_cons.
    destruct (decide (record_id c = Some cid)) as [Hc|Hc].
    + rewrite decide_True by (rewrite Hc; apply list_elem_of_here).
      rewrite fmap_cons. by rewrite Hd, Hc.
    + rewrite fmap_cons, IH. destruct (decide (Some cid ∈ record_id <$> l)).
      * by rewrite decide_True by by apply list_elem_of_further.
      * rewrite decide_False; [done|]. by intros [?|?]%elem_of_cons.
Qed.

Lemma upsert_NoDup cid data l :
  record_id data = Some cid →
  NoDup (record_id <$> l) → NoDup (record_id <$> (upsert cid data l)).
Proof.
  intros Hd Hl. rewrite upsert_ids by done. case_decide; [done|].
  apply NoDup_app. repeat split; [done| |apply NoDup_singleton].
  intros x Hx ->%list_elem_of_singleton. done.
Qed.

Lemma filter_id_absent cid l :
  Some cid ∉ record_id <$> l → filter (λ c, record_id c = Some cid) l = [].
Proof.
  intros Hn. induction l as [|c l IH]; [done|].
  rewrite filter_cons. rewrite decide_False.
  - apply IH. intros ?. apply Hn. by apply list_elem_of_further.
  - intros Hc. apply Hn. cbn. rewrite Hc. apply list_elem_of_here.
Qed.

(** After an upsert there is exactly one record with the id: the new one. *)
Lemma upsert_unique cid data l :
  record_id data = Some cid →
  NoDup (record_id <$> l) →
  filter (λ c, record_id c = Some cid) (upsert cid data l) = [data].
Proof.
  intros Hd. induction l as [|c l IH]; intros Hl.
  - change (upsert cid data []) with [data].
    by rewrite filter_cons, decide_True by done.
  - rewrite fmap_cons in Hl. apply NoDup_cons in Hl as [Hc Hl]. rewrite upsert_cons.
    case_decide as Hcid.
    + rewrite filter_cons, decide_True by done.
      rewrite filter_id_absent; [done|]. by rewrite <- Hcid.
    + rewrite filter_cons, decide_False by done. by apply IH.
Qed.

Lemma upsert_idemp cid data l :
  record_id data = Some cid →
  upsert cid data (upsert cid data l) = upsert cid data l.
Proof.
  intros Hd. induction l as [|c l IH].
  - change (upsert cid data []) with [data].
    by rewrite upsert_cons, decide_True.
  - rewrite upsert_cons. case_decide.
    + rewrite upsert_cons. by rewrite decide_True.
    + rewrite upsert_cons, decide_False by done. by rewrite IH.
Qed.

(** An upsert leaves the records with another id where they are. *)
Lemma upsert_others cid data l :
  record_id data = Some cid →
  filter (λ c, record_id c ≠ Some cid) (upsert cid data l)
  = filter (λ c, record_id c ≠ Some cid) l.
Proof.
  intros Hd. induction l as [|c l IH].
  - change (upsert cid data []) with [data].
    by rewrite filter_cons, decide_False by (by intros ?).
  - rewrite upsert_cons. case_decide as Hc.
    + rewrite !filter_cons. rewrite !decide_False; [done| |]; by intros ?.
    + rewrite !filter_cons. rewrite !decide_True by done. by rewrite IH.
Qed.

Lemma upsert_lookup_other cid data l (i : nat) c :
  l !! i = Some c → record_id c ≠ Some cid → upsert cid data l !! i = Some c.
Proof.
  revert i. induction l as [|c0 l IH]; intros i Hi Hc; [done|].
  rewrite upsert_cons. case_decide as Hc0.
  - destruct i as [|i]; [|done]. cbn in Hi. by simplify_eq.
  - destruct i as [|i]; [done|]. cbn. by apply IH.
Qed.

Lemma upsert_length cid data l :
  record_id data = Some cid →
  length (upsert cid data l)
  = if decide (Some cid ∈ record_id <$> l) then length l else S (length l).
Proof.
  intros Hd. pose proof (f_equal length (upsert_ids cid data l Hd)) as H.
  rewrite length_fmap in H. rewrite H.
  case_decide; [by rewrite length_fmap|].
  rewrite length_app, length_fmap. cbn. lia.
Qed.

Lemma purge_records cid l : Forall is_record l → Forall is_record (purge cid l).
Proof.
  intros Hl. unfold purge. apply Forall_forall. intros c [_ Hc]%list_elem_of_filter.
  by eapply Forall_forall in Hl.
Qed.

Lemma purge_ids cid l : Some cid ∉ record_id <$> (purge cid l).
Proof.
  unfold purge. intros (c & Hc & [Hn _]%list_elem_of_filter)%list_elem_of_fmap.
  by apply Hn.
Qed.

Lemma purge_NoDup cid l :
  NoDup (record_id <$> l) → NoDup (record_id <$> (purge cid l)).
Proof.
  unfold purge. induction l as [|c l IH]; [done|].
  rewrite fmap_cons. intros [Hc Hl]%NoDup_cons.
  rewrite filter_cons. case_decide; [|by apply IH]. rewrite fmap_cons. apply NoDup_cons.
  split; [|by apply IH]. intros (c' & Hc' & [_ Hin]%list_elem_of_filter)%list_elem_of_fmap.
  apply Hc. rewrite Hc'. by apply list_elem_of_fmap_2.
Qed.

Lemma cache_wf_parse store :
  cache_wf store →
  parse_or_empty (store !! storageKey) = Normal (JArr (records store))
  ∧ Forall is_record (records store).
Proof.
  unfold records. intros [-> | (l & -> & Hl)]; by split.
Qed.

Lemma records_insert store l :
  records (<[storageKey := TJson (JArr l)]> store) = l.
Proof. unfold records. by rewrite lookup_insert_eq. Qed.

Lemma cache_wf_insert store l :
  Forall is_record l → cache_wf (<[storageKey := TJson (JArr l)]> store).
Proof. intros Hl. right. exists l. by rewrite lookup_insert_eq. Qed.

Lemma save_wf w cid li q a o d :
  cache_wf (ss w) →
  saveConsignmentToSession cid li q a o d w
  = (Normal tt,
     with_ss (λ _, <[storageKey :=
                       TJson (JArr (upsert cid (consignmentData cid li q a o d)
                                      (records (ss w))))]> (ss w)) w).
Proof.
  intros [Hp Hl]%cache_wf_parse. unfold saveConsignmentToSession, save_try.
  rewrite Hp. cbn [as_array]. rewrite (findIndex_list_find _ _ Hl).
  unfold upsert. by destruct (list_find _ _) as [[i c]|].
Qed.

Lemma getStored_wf w :
  cache_wf (ss w) → getStoredConsignments w = (Normal (JArr (records (ss w))), w).
Proof.
  intros [Hp _]%cache_wf_parse. unfold getStoredConsignments. by rewrite Hp.
Qed.

Lemma find_lineItem_wf w li q :
  cache_wf (ss w) →
  findStoredConsignmentByLineItemId li q w
  = (Normal (find (record_matches li q) (records (ss w))), w).
Proof.
  intros Hwf. unfold findStoredConsignmentByLineItemId.
  rewrite (bind_normal _ _ _ _ _ (getStored_wf w Hwf)).
  unfold mbind, M_bind, lift_outcome, as_array.
  rewrite (js_find_records _ (record_matches li q)); [done|].
  apply cache_wf_parse in Hwf as [_ Hl].
  eapply Forall_impl; [exact Hl|]. intros c Hc. by apply matches_lineItem_record.
Qed.

Lemma find_id_wf w cid :
  cache_wf (ss w) →
  findStoredConsignmentById cid w
  = (Normal (find (λ c, bool_decide (record_id c = Some cid)) (records (ss w))), w).
Proof.
  intros Hwf. unfold findStoredConsignmentById.
  rewrite (bind_normal _ _ _ _ _ (getStored_wf w Hwf)).
  unfold mbind, M_bind, lift_outcome, as_array.
  rewrite (js_find_records _ (λ c, bool_decide (record_id c = Some cid))); [done|].
  apply cache_wf_parse in Hwf as [_ Hl].
  eapply Forall_impl; [exact Hl|]. intros c Hc. by apply has_consignmentId_record.
Qed.

Lemma remove_wf w cid :
  cache_wf (ss w) →
  removeStoredConsignment cid w
  = (Normal tt,
     with_ss (λ store, <[storageKey := TJson (JArr (purge cid (records (ss w))))]>
                         store) w).
Proof.
  intros Hwf. unfold removeStoredConsignment, try_catch.
  rewrite (bind_normal _ _ _ _ _ (getStored_wf w Hwf)).
  unfold mbind, M_bind, lift_outcome, as_array.
  rewrite (js_filter_records _ (λ c, negb (bool_decide (record_id c = Some cid)))).
  - unfold modify, purge. do 3 f_equal.
    f_equal. f_equal. apply list_filter_iff. intros c.
    rewrite negb_true_iff, bool_decide_eq_false. done.
  - apply cache_wf_parse in Hwf as [_ Hl].
    eapply Forall_impl; [exact Hl|]. intros c Hc. cbn beta.
    by rewrite (has_consignmentId_record _ _ Hc).
Qed.

Lemma save_inv w cid li q a o d :
  cache_inv (ss w) → cache_inv (ss (saveConsignmentToSession cid li q a o d w).2).
Proof.
  intros [Hwf Hnd]. rewrite (save_wf _ _ _ _ _ _ _ Hwf). cbn.
  apply cache_wf_parse in Hwf as [_ Hl]. split.
  - apply cache_wf_insert. apply upsert_records; [constructor | done].
  - rewrite records_insert. by apply upsert_NoDup.
Qed.

Lemma remove_inv w cid :
  cache_inv (ss w) → cache_inv (ss (removeStoredConsignment cid w).2).
Proof.
  intros [Hwf Hnd]. rewrite (remove_wf _ _ Hwf). cbn.
  apply cache_wf_parse in Hwf as [_ Hl]. split.
  - apply cache_wf_insert. by apply purge_records.
  - rewrite records_insert. by apply purge_NoDup.
Qed.

Lemma reachable_inv w : cache_reachable w → cache_inv (ss w).
Proof.
  induction 1 as [w Hw | w cid li q a o d _ IH | w cid _ IH | w w' _ IH Heq].
  - split; [by left|]. unfold records. rewrite Hw. apply NoDup_nil_2.
  - by apply save_inv.
  - by apply remove_inv.
  - by rewrite Heq.
Qed.

Lemma reachable_wf w : cache_reachable w → cache_wf (ss w).
Proof. by intros [? _]%reachable_inv. Qed.

End Cache.

(** ** C9: the cache is keyed by consignment id *)

(** C9.  In a session whose store was written by this module alone, no two
    records have the same [consignmentId], and a save keeps it so.  After a
    save there is exactly one record with the saved id; it is what a lookup
    by that id returns, and its properties read as the arguments of the
    save, those that were [undefined] being absent.  The records with
    another id are the same as before, in the same order and at the same
    places, and the array is longer by one exactly when the id was new;
    nothing but the text under the key changes.  [updateStoredConsignment]
    is the same operation, and a second save with the same arguments
    changes nothing. *)
Theorem save_is_upsert_by_consignmentId w cid li q a o d :
  cache_reachable w →
  let w1 := (Persistence.saveConsignmentToSession cid li q a o d w).2 in
  NoDup (record_id <$> records (ss w))
  ∧ NoDup (record_id <$> records (ss w1))
  ∧ (∃ c, filter (λ c, record_id c = Some cid) (records (ss w1)) = [c]
          ∧ Persistence.findStoredConsignmentById cid w1 = (Normal (Some c), w1)
          ∧ js_get c "consignmentId" = Normal (Some (JStr cid))
          ∧ js_get c "lineItemId" = Normal (Some (id_json li))
          ∧ js_get c "quantity" = Normal (Some (JNum q))
          ∧ js_get c "shippingAddress" = Normal a
          ∧ js_get c "selectedShippingOptionId" = Normal (Some (JStr o))
          ∧ js_get c "selectedDeliveryDate" = Normal d)
  ∧ filter (λ c, record_id c ≠ Some cid) (records (ss w1))
    = filter (λ c, record_id c ≠ Some cid) (records (ss w))
  ∧ (∀ (i : nat) c, records (ss w) !! i = Some c → record_id c ≠ Some cid →
                    records (ss w1) !! i = Some c)
  ∧ length (records (ss w1))
    = (if decide (Some cid ∈ record_id <$> records (ss w))
       then length (records (ss w)) else S (length (records (ss w))))
  ∧ w1 = with_ss (λ _, <[Persistence.storageKey := TJson (JArr (records (ss w1)))]>
                         (ss w)) w
  ∧ Persistence.updateStoredConsignment cid li q a o d w
    = Persistence.saveConsignmentToSession cid li q a o d w
  ∧ Persistence.saveConsignmentToSession cid li q a o d w1 = (Normal tt, w1).
Proof.
  intros Hr w1. set (data := Persistence.consignmentData cid li q a o d).
  pose proof (reachable_inv w Hr) as [Hwf Hnd].
  assert (Hr1 : cache_reachable w1) by by constructor.
  pose proof (reachable_inv w1 Hr1) as [Hwf1 Hnd1].
  assert (Hid : record_id data = Some cid) by done.
  assert (Hrec : records (ss w1) = upsert cid data (records (ss w))).
  { subst w1. rewrite (save_wf _ _ _ _ _ _ _ Hwf). cbn. by rewrite records_insert. }
  assert (Hone : filter (λ c, record_id c = Some cid) (records (ss w1)) = [data]).
  { rewrite Hrec. by apply upsert_unique. }
  do 2 (split; [done|]). split; [|split; [|split; [|split; [|split; [|split]]]]].
  - exists data. split; [done|]. split.
    + rewrite (find_id_wf _ _ Hwf1). do 2 f_equal.
      revert Hone. generalize (records (ss w1)). intros l.
      induction l as [|c l IH]; [done|]. rewrite filter_cons. cbn [find].
      case_bool_decide; case_decide; try done. by intros [= ->].
    + subst data. unfold Persistence.consignmentData, Persistence.opt_field.
      destruct a, d; repeat split; reflexivity.
  - rewrite Hrec. by apply upsert_others.
  - intros i c Hi Hc. rewrite Hrec. by apply upsert_lookup_other.
  - rewrite Hrec. by apply upsert_length.
  - rewrite Hrec. subst w1. by rewrite (save_wf _ _ _ _ _ _ _ Hwf).
  - done.
  - rewrite (save_wf _ _ _ _ _ _ _ Hwf1). f_equal. fold data.
    rewrite Hrec, upsert_idemp by done. rewrite <- Hrec.
    subst w1. rewrite (save_wf _ _ _ _ _ _ _ Hwf) in *. cbn in *.
    rewrite records_insert in *. unfold with_ss. cbn. f_equal.
    by rewrite insert_insert_eq.
Qed.

Lemma save_is_upsert_by_consignmentId_witness :
  records (ss (Persistence.saveConsignmentToSession "c-1" (IdStr "A") 2 None
                 "opt-2" None twoRecords).2) !! 1%nat
  = Some (Persistence.consignmentData "c-2" (IdStr "B") 1 (Some (address_json home))
            "opt-1" None).
Proof.
  destruct (save_is_upsert_by_consignmentId twoRecords "c-1" (IdStr "A") 2 None
              "opt-2" None) as (_ & _ & _ & _ & H & _).
  - apply reach_save, reach_save, reach_fresh. reflexivity.
  - apply H; [reflexivity|]. vm_compute. discriminate.
Defined.

(** ** C10: which cache operations can throw *)

Lemma try_catch_logged (m : M unit) (line : js_error → string) w :
  (try_catch m (λ e, console_error (line e)) w).1 = Normal tt.
Proof.
  unfold try_catch. destruct (m w) as [[[]|e] w']; reflexivity.
Qed.

(** C10, as stated, fails: with the text [{}] under the key,
    [getStoredConsignments] returns the object, not an empty list, and both
    find functions throw a [TypeError] to their caller. *)
Lemma find_throws_on_object_store :
  (Persistence.getStoredConsignments objectStoreWorld).1 = Normal (JObj [])
  ∧ is_thrown (Persistence.findStoredConsignmentById "c-1" objectStoreWorld).1 = true
  ∧ is_thrown (Persistence.findStoredConsignmentByLineItemId (IdStr "A") 1
                 objectStoreWorld).1 = true.
Proof. repeat split; reflexivity. Qed.

(** C10, amended.  [getStoredConsignments], save, update and remove never
    throw, whatever the storage holds; when the text under the key is
    absent, empty or does not parse, [getStoredConsignments] returns the
    empty list and the find functions return [undefined]; on a store
    written by this module alone the find functions do not throw; and when
    the text parses to a value that is not an array,
    [getStoredConsignments] returns that value and both find functions throw
    a [TypeError]. *)
Theorem cache_operations_total w :
  (∃ v, (Persistence.getStoredConsignments w).1 = Normal v)
  ∧ (∀ cid li q a o d,
       (Persistence.saveConsignmentToSession cid li q a o d w).1 = Normal tt
       ∧ (Persistence.updateStoredConsignment cid li q a o d w).1 = Normal tt)
  ∧ (∀ cid, (Persistence.removeStoredConsignment cid w).1 = Normal tt)
  ∧ (unreadable (ss w !! Persistence.storageKey) →
     (Persistence.getStoredConsignments w).1 = Normal (JArr [])
     ∧ ∀ cid li q,
         (Persistence.findStoredConsignmentByLineItemId li q w).1 = Normal None
         ∧ (Persistence.findStoredConsignmentById cid w).1 = Normal None)
  ∧ (cache_reachable w →
     ∀ cid li q,
       (∃ r, (Persistence.findStoredConsignmentByLineItemId li q w).1 = Normal r)
       ∧ (∃ r, (Persistence.findStoredConsignmentById cid w).1 = Normal r))
  ∧ (∀ v, ss w !! Persistence.storageKey = Some (TJson v) →
          (∀ l, v ≠ JArr l) →
          (Persistence.getStoredConsignments w).1 = Normal v
          ∧ ∀ cid li q,
              (∃ msg, (Persistence.findStoredConsignmentByLineItemId li q w).1
                      = Thrown (TypeError msg))
              ∧ (∃ msg, (Persistence.findStoredConsignmentById cid w).1
                        = Thrown (TypeError msg))).
Proof.
  split; [|split; [|split; [|split; [|split]]]].
  - unfold Persistence.getStoredConsignments.
    destruct (Persistence.parse_or_empty _); eauto.
  - intros cid li q a o d.
    unfold Persistence.updateStoredConsignment, Persistence.saveConsignmentToSession.
    by destruct (Persistence.save_try _ _ _ _ _ _ _).
  - intros cid. apply try_catch_logged.
  - intros Hu. split; [|intros cid li q; split].
    + unfold Persistence.getStoredConsignments.
      destruct Hu as [-> | [-> | [s ->]]]; reflexivity.
    + unfold Persistence.findStoredConsignmentByLineItemId,
        Persistence.getStoredConsignments, mbind, M_bind.
      destruct Hu as [-> | [-> | [s ->]]]; reflexivity.
    + unfold Persistence.findStoredConsignmentById,
        Persistence.getStoredConsignments, mbind, M_bind.
      destruct Hu as [-> | [-> | [s ->]]]; reflexivity.
  - intros Hr cid li q. split.
    + rewrite (find_lineItem_wf _ _ _ (reachable_wf _ Hr)). eauto.
    + rewrite (find_id_wf _ _ (reachable_wf _ Hr)). eauto.
  - intros v Hv Hna. split; [|intros cid li q; split].
    + unfold Persistence.getStoredConsignments. by rewrite Hv.
    + unfold Persistence.findStoredConsignmentByLineItemId,
        Persistence.getStoredConsignments, mbind, M_bind. rewrite Hv. cbn.
      destruct v; try (eexists; reflexivity). by destruct (Hna l).
    + unfold Persistence.findStoredConsignmentById,
        Persistence.getStoredConsignments, mbind, M_bind. rewrite Hv. cbn.
      destruct v; try (eexists; reflexivity). by destruct (Hna l).
Qed.

Lemma cache_operations_total_witness :
  (Persistence.getStoredConsignments garbageStoreWorld).1 = Normal (JArr [])
  ∧ (∃ r, (Persistence.findStoredConsignmentById "c-1" freshWorld).1 = Normal r)
  ∧ ∃ msg, (Persistence.findStoredConsignmentById "c-1" objectStoreWorld).1
           = Thrown (TypeError msg).
Proof.
  split; [|split].
  - destruct (cache_operations_total garbageStoreWorld) as (_ & _ & _ & H & _).
    apply H. right. right. exists "[{". reflexivity.
  - destruct (cache_operations_total freshWorld) as (_ & _ & _ & _ & H & _).
    apply (H (reach_fresh freshWorld eq_refl) "c-1" (IdStr "A") 1).
  - destruct (cache_operations_total objectStoreWorld) as (_ & _ & _ & _ & _ & H).
    destruct (H (JObj [])) as [_ Hf]; [reflexivity | discriminate |].
    apply (Hf "c-1" (IdStr "A") 1).
Defined.

(** ** C2: the completion signal *)


Lemma configured_true m i :
  configured m i = true ↔ m !! id_toString i = Some true.
Proof.
  unfold configured. destruct (m !! id_toString i) as [[]|]; cbn; split; congruence.
Qed.











(** ** C6: one item is edited at a time *)

Lemma isAnyItemEditing_true (m : gmap string bool) k :
  m !! k = Some false → CustomShipping.isAnyItemEditing m = true.
Proof.
  intros Hk. unfold CustomShipping.isAnyItemEditing. apply existsb_exists.
  exists false. split; [|done]. apply in_map_iff. exists (k, false).
  split; [done|]. apply list_elem_of_In. by apply elem_of_map_to_list.
Qed.



(** ** C8: an invalid address *)

(** C8.  When the validation of the address fails, [handleAddressSelect]
    sets the error message, leaves edit mode and reports an
    [InvalidAddressError]; the entries, the flags, the pointer, the selected
    address and the cache stay as they are, and no call is made to the
    Gateway. *)
Theorem invalid_address_rejected E P s address w getFields :
  env_getFields E = Some getFields →
  env_isValidAddress E address (getFields (assoc "countryCode" address)) = false →
  let w' := (CustomShipping.handleAddressSelect E P s address w).2 in
  (CustomShipping.handleAddressSelect E P s address w).1 = Normal tt
  ∧ error (ui w') = Some "Please provide a valid address with all required fields"
  ∧ unhandled w' = unhandled w ++ [CustomShipping.InvalidAddressError]
  ∧ isEditing (ui w') = false
  ∧ events w' = events w
  ∧ clock w' = clock w
  ∧ ss w' = ss w
  ∧ itemConsignments (ui w') = itemConsignments (ui w)
  ∧ configuredItems (ui w') = configuredItems (ui w)
  ∧ currentItemIndex (ui w') = currentItemIndex (ui w)
  ∧ selectedAddress (ui w') = selectedAddress (ui w)
  ∧ selectedShippingOption (ui w') = selectedShippingOption (ui w).
Proof.
  intros Hf Hv w'. subst w'. unfold CustomShipping.handleAddressSelect,
    CustomShipping.addressRejected. rewrite Hf, Hv. repeat split.
Qed.

Lemma invalid_address_rejected_witness :
  let w := with_ui (λ _, editingB) freshWorld in
  let w' := (CustomShipping.handleAddressSelect offlineEnv cartAB editingB
               incompleteAddress w).2 in
  events w' = events w ∧ itemConsignments (ui w') = itemConsignments (ui w).
Proof.
  intros w w'.
  destruct (invalid_address_rejected offlineEnv cartAB editingB incompleteAddress w
              (λ _, ["firstName"; "address1"; "city"; "postalCode"])
              eq_refl eq_refl)
    as (_ & _ & _ & _ & He & _ & _ & Hi & _).
  split; [exact He | exact Hi].
Defined.

(** ** Calls that touch neither the cache nor the model *)

Section Frames.

Context (E : Env) (P : Props).

Lemma loadCheckout_resolves w :
  gw_loadCheckout E (clock w) = None →
  CustomShipping.loadCheckout E w = (Normal tt, with_event EvLoadCheckout w).
Proof. intros H. unfold CustomShipping.loadCheckout. by rewrite H. Qed.

Lemma loadCheckout_frame w :
  let r := CustomShipping.loadCheckout E w in
  ui r.2 = ui w ∧ ss r.2 = ss w ∧ unhandled r.2 = unhandled w
  ∧ console r.2 = console w.
Proof.
  unfold CustomShipping.loadCheckout. by destruct (gw_loadCheckout E (clock w)).
Qed.

Lemma fetch_frame req w :
  let r := CustomShipping.fetch E req w in
  ui r.2 = ui w ∧ ss r.2 = ss w ∧ unhandled r.2 = unhandled w
  ∧ console r.2 = console w.
Proof.
  unfold CustomShipping.fetch. by destruct (gw_fetch E (clock w) req).
Qed.

Lemma updateOrderSummaryDisplay_frame w :
  ∃ w', CustomShipping.updateOrderSummaryDisplay E w = (Normal tt, w')
        ∧ ui w' = ui w ∧ ss w' = ss w ∧ unhandled w' = unhandled w.
Proof.
  unfold CustomShipping.updateOrderSummaryDisplay, CustomShipping.getCheckout,
    mbind, M_bind, read, try_catch, console_error, modify.
  destruct (gw_getCheckout E (clock w)) as [checkout|]; [|by eexists].
  pose proof (fetch_frame (PutCheckout (co_id checkout) (co_customerMessage checkout)) w)
    as (Hu & Hs & Hh & _).
  destruct (CustomShipping.fetch E _ w) as [[r|e] w1]; cbn in *.
  - pose proof (loadCheckout_frame w1) as (Hu1 & Hs1 & Hh1 & _).
    destruct (CustomShipping.loadCheckout E w1) as [[[]|e] w2]; cbn in *;
      eexists; (split; [reflexivity|]); cbn; repeat split; congruence.
  - eexists. split; [reflexivity|]. cbn. repeat split; congruence.
Qed.

Lemma refreshCheckoutTotals_frame w :
  ∃ w', CustomShipping.refreshCheckoutTotals E w = (Normal tt, w')
        ∧ ui w' = ui (setIsLoading false w) ∧ ss w' = ss w
        ∧ unhandled w' = unhandled w.
Proof.
  unfold CustomShipping.refreshCheckoutTotals, CustomShipping.getCheckout,
    mbind, M_bind, read, try_catch, finally, console_error, modify.
  cbn [clock setIsLoading with_ui].
  destruct (gw_getCheckout E (clock w)) as [checkout|];
    [|eexists; split; [reflexivity|]; done].
  pose proof (fetch_frame (GetCheckout (co_id checkout) includeCartAndOptions)
                (setIsLoading true w)) as (Hu & Hs & Hh & _).
  destruct (CustomShipping.fetch E _ (setIsLoading true w)) as [[r|e] w1]; cbn in *.
  - pose proof (loadCheckout_frame w1) as (Hu1 & Hs1 & Hh1 & _).
    destruct (CustomShipping.loadCheckout E w1) as [[[]|e] w2]; cbn in *;
      eexists; (split; [reflexivity|]); cbn; rewrite ?Hu1, ?Hu;
      repeat split; congruence.
  - eexists. split; [reflexivity|]. cbn. rewrite Hu. repeat split; congruence.
Qed.

End Frames.

(** ** C7: continuing to the next item *)

Lemma nthZ_lookup {A} (l : list A) i : 0 ≤ i → nthZ l i = l !! Z.to_nat i.
Proof. intros H. unfold nthZ. by rewrite bool_decide_eq_true_2. Qed.

Lemma nthZ_neg {A} (l : list A) i : i < 0 → nthZ l i = None.
Proof. intros H. unfold nthZ. rewrite bool_decide_eq_false_2; [done | lia]. Qed.

Lemma nthZ_Some {A} (l : list A) i x :
  nthZ l i = Some x → 0 ≤ i < Z.of_nat (length l) ∧ l !! Z.to_nat i = Some x.
Proof.
  unfold nthZ. case_bool_decide; [|done]. intros Hl. split; [|done].
  apply lookup_lt_Some in Hl. lia.
Qed.

Lemma findIndexZ_ge {A} (p : A → bool) l : -1 ≤ findIndexZ p l.
Proof.
  induction l as [|x l IH]; cbn; [lia|]. destruct (p x); [lia|].
  case_bool_decide; lia.
Qed.

Lemma findIndexZ_first {A} (p : A → bool) (l : list A) (j : nat) x :
  l !! j = Some x → p x = true →
  (∀ i y, (i < j)%nat → l !! i = Some y → p y = false) →
  findIndexZ p l = Z.of_nat j.
Proof.
  revert j. induction l as [|y l IH]; intros j Hj Hp Hmin; [done|].
  destruct j as [|j]; cbn in *.
  - simplify_eq. by rewrite Hp.
  - rewrite (Hmin 0%nat y) by (lia || done).
    rewrite (IH j) by (done || (intros i z ??; apply (Hmin (S i)); [lia | done])).
    rewrite bool_decide_eq_true_2 by lia. lia.
Qed.

Lemma skipConfigured_spec m l i :
  ∃ k : nat,
    CustomShipping.skipConfigured m l i = i + Z.of_nat k
    ∧ (k ≤ length l)%nat
    ∧ (∀ n x, (n < k)%nat → l !! n = Some x → configured m (li_id x) = true)
    ∧ (∀ x, l !! k = Some x → configured m (li_id x) = false).
Proof.
  revert i. induction l as [|y l IH]; intros i; cbn.
  - exists 0%nat. repeat split; [lia | lia | intros; lia | done].
  - destruct (configured m (li_id y)) eqn:Hy.
    + destruct (IH (i + 1)) as (k & -> & Hk & Hbefore & Hat).
      exists (S k). repeat split; [lia | cbn; lia | | done].
      intros [|n] x Hn Hx; cbn in Hx; [by simplify_eq|]. eapply Hbefore; [|done]. lia.
    + exists 0%nat. repeat split; [lia | lia | intros; lia |].
      intros x [= <-]. done.
Qed.

(** C7, as stated, fails.  On the cart [A (1), B (3)] with a Gateway that
    lists no shipping option, the shopper configures A, splits B (which
    marks A unconfigured again, its entry having no option) and gives B an
    address.  [handleContinue] then has its preconditions, marks B
    configured, and leaves the pointer on B with the selections in place,
    although A, the first unconfigured item, remains. *)
Lemma continue_leaves_earlier_item_behind :
  let w := beforeLastContinue in
  let w' := act (CustomShipping.handleContinue noOptionsGateway cartAB) w in
  selectedAddress (ui w) = Some home
  ∧ (CustomShipping.hasOptions <$> CustomShipping.getCurrentConsignment cartAB (ui w))
    = Some false
  ∧ currentItemIndex (ui w) = 1
  ∧ configuredItems (ui w') = {[ "A" := false; "B" := true ]}
  ∧ CustomShipping.firstUnconfiguredIndex cartAB (configuredItems (ui w')) = 0
  ∧ currentItemIndex (ui w') = 1
  ∧ selectedAddress (ui w') = Some home.
Proof. vm_compute. repeat split. Qed.

(** C7, amended.  When an address is selected, an option is selected
    whenever the entry of the current item lists options, the current item
    exists and the reload of the checkout succeeds, [handleContinue] marks
    the current item configured and leaves edit mode.  If an unconfigured
    item follows the current one, the pointer moves to the first such item
    and the selections become that item's own (those of its entry when it is
    complete and lists options, none otherwise); when every item before the
    current one is configured, this is the first unconfigured item of the
    cart.  If no unconfigured item follows, the pointer and the selections
    stay as they are. *)
Theorem continue_marks_and_advances E P w a item :
  let s := ui w in
  let cur := currentItemIndex s in
  let upd := <[id_toString (li_id item) := true]> (configuredItems s) in
  let r := CustomShipping.handleContinue E P s w in
  let u' := ui r.2 in
  selectedAddress s = Some a →
  (∀ c, CustomShipping.getCurrentConsignment P s = Some c →
        CustomShipping.hasOptions c = true → is_Some (selectedShippingOption s)) →
  CustomShipping.getCurrentItem P s = Some item →
  gw_loadCheckout E (clock w) = None →
  r.1 = Normal tt
  ∧ configuredItems u' = upd
  ∧ isEditing u' = false
  ∧ itemConsignments u' = itemConsignments s
  ∧ ss r.2 = ss w
  ∧ (∀ j nxt,
       cur < j → nthZ (physicalItems P) j = Some nxt →
       configured upd (li_id nxt) = false →
       (∀ i x, cur < i < j → nthZ (physicalItems P) i = Some x →
               configured upd (li_id x) = true) →
       currentItemIndex u' = j
       ∧ (selectedAddress u', selectedShippingOption u')
         = ownSelections (itemConsignments s) nxt
       ∧ ((∀ i x, i < cur → nthZ (physicalItems P) i = Some x →
                  configured upd (li_id x) = true) →
          CustomShipping.firstUnconfiguredIndex P upd = j))
  ∧ ((∀ i x, cur < i → nthZ (physicalItems P) i = Some x →
             configured upd (li_id x) = true) →
     currentItemIndex u' = cur
     ∧ selectedAddress u' = selectedAddress s
     ∧ selectedShippingOption u' = selectedShippingOption s).
Proof.
  intros s cur upd r u' Ha Hopt Hitem Hload. subst r u'.
  unfold CustomShipping.handleContinue. fold s. rewrite Ha.
  assert (Hguard :
    (match CustomShipping.getCurrentConsignment P s with
     | Some c => CustomShipping.hasOptions c
     | None => false
     end && negb (bool_decide (is_Some (selectedShippingOption s)))) = false).
  { destruct (CustomShipping.getCurrentConsignment P s) as [c|] eqn:Hc; [|done].
    destruct (CustomShipping.hasOptions c) eqn:Ho; [|done].
    rewrite bool_decide_eq_true_2; [done|]. by eapply Hopt. }
  rewrite Hguard.
  rewrite (bind_normal _ _ _ _ _ (loadCheckout_resolves E w Hload)).
  destruct (updateOrderSummaryDisplay_frame E (with_event EvLoadCheckout w))
    as (w2 & Hrun & Hu2 & Hs2 & _).
  rewrite (bind_normal _ _ _ _ _ Hrun). rewrite Hitem.
  apply nthZ_Some in Hitem as [Hcur Hitem]. fold cur in Hcur, Hitem.
  destruct (skipConfigured_spec upd
              (drop (Z.to_nat (cur + 1)) (physicalItems P)) (cur + 1))
    as (k & Hj & Hk & Hbefore & Hat).
  assert (Hnth : ∀ i, cur < i →
            nthZ (physicalItems P) i
            = drop (Z.to_nat (cur + 1)) (physicalItems P) !! Z.to_nat (i - (cur + 1))).
  { intros i Hi. rewrite nthZ_lookup by lia. rewrite lookup_drop. f_equal. lia. }
  rewrite !bind_modify. fold cur upd. clear Hguard.
  destruct (decide (cur < Z.of_nat (length (physicalItems P)) - 1)) as [Hlast|Hlast];
    [rewrite bool_decide_eq_true_2 by done | rewrite bool_decide_eq_false_2 by done].
  - destruct (refreshCheckoutTotals_frame E
                (setIsEditing false
                   (setConfiguredItems
                      (λ prev, <[id_toString (li_id item):=true]> prev) w2)))
      as (w3 & Hrun3 & Hu3 & Hs3 & _).
    rewrite (bind_normal _ _ _ _ _ Hrun3). rewrite Hj.
    destruct (nthZ (physicalItems P) (cur + 1 + Z.of_nat k)) as [nextItem|] eqn:Hnext.
    + assert (Hnext' : drop (Z.to_nat (cur + 1)) (physicalItems P) !! k
                       = Some nextItem).
      { rewrite <- Hnext, Hnth by lia. f_equal. lia. }
      assert (Huniq : ∀ j nxt,
                cur < j → nthZ (physicalItems P) j = Some nxt →
                configured upd (li_id nxt) = false →
                (∀ i x, cur < i < j → nthZ (physicalItems P) i = Some x →
                        configured upd (li_id x) = true) →
                j = cur + 1 + Z.of_nat k ∧ nxt = nextItem).
      { intros j nxt Hcj Hnxt Hun Hmin.
        assert (j = cur + 1 + Z.of_nat k) as ->; [|split; congruence].
        destruct (Z.lt_trichotomy j (cur + 1 + Z.of_nat k)) as [Hlt|[?|Hgt]]; [|done|].
        - rewrite Hnth in Hnxt by done.
          rewrite (Hbefore (Z.to_nat (j - (cur + 1))) nxt ltac:(lia) Hnxt) in Hun.
          done.
        - pose proof (Hmin (cur + 1 + Z.of_nat k) nextItem ltac:(lia) Hnext) as Hc.
          by rewrite (Hat _ Hnext') in Hc. }
      rewrite !bind_modify.
      assert (Hsel : ∀ w0 : World,
        let r := match find (λ c, id_strict_eq (cw_lineItemId c) (li_id nextItem))
                         (itemConsignments s) with
                 | Some nextConsignment =>
                     match cw_shippingAddress nextConsignment with
                     | Some a0 =>
                         match cw_selectedShippingOption nextConsignment with
                         | Some o =>
                             if CustomShipping.hasOptions nextConsignment
                             then modify (setSelectedAddress (Some a0))
                                  ≫= λ _, modify (setSelectedShippingOption (Some o))
                             else mret ()
                         | None => mret ()
                         end
                     | None => mret ()
                     end
                 | None => mret ()
                 end
                   (setSelectedShippingOption None (setSelectedAddress None w0)) in
        r.1 = Normal tt
        ∧ ss r.2 = ss w0
        ∧ configuredItems (ui r.2) = configuredItems (ui w0)
        ∧ isEditing (ui r.2) = isEditing (ui w0)
        ∧ itemConsignments (ui r.2) = itemConsignments (ui w0)
        ∧ currentItemIndex (ui r.2) = currentItemIndex (ui w0)
        ∧ (selectedAddress (ui r.2), selectedShippingOption (ui r.2))
          = ownSelections (itemConsignments s) nextItem).
      { intros w0. unfold ownSelections.
        destruct (find _ (itemConsignments s)) as [c|]; [|by repeat split].
        destruct (cw_shippingAddress c); [|by repeat split].
        destruct (cw_selectedShippingOption c); [|by repeat split].
        destruct (CustomShipping.hasOptions c); by repeat split. }
      destruct (Hsel (setCurrentItemIndex (cur + 1 + Z.of_nat k) w3))
        as (H1 & H2 & H3 & H4 & H5 & H6 & H7).
      split; [exact H1|]. split; [rewrite H3; cbn; rewrite Hu3; cbn; by rewrite Hu2|].
      split; [rewrite H4; cbn; rewrite Hu3; cbn; done|].
      split; [rewrite H5; cbn; rewrite Hu3; cbn; by rewrite Hu2|].
      split; [rewrite H2; cbn; rewrite Hs3; cbn; by rewrite Hs2|].
      split.
      * intros j nxt Hcj Hnxt Hun Hmin.
        destruct (Huniq j nxt Hcj Hnxt Hun Hmin) as [-> ->].
        split; [by rewrite H6|]. split; [exact H7|].
        intros Hall. unfold CustomShipping.firstUnconfiguredIndex.
        rewrite (findIndexZ_first _ _ (Z.to_nat (cur + 1 + Z.of_nat k)) nextItem).
        -- lia.
        -- rewrite <- nthZ_lookup by lia. done.
        -- by rewrite Hun.
        -- intros i y Hi Hy. apply negb_false_iff.
           destruct (Z.lt_trichotomy (Z.of_nat i) cur) as [Hlt|[Heq|Hgt]].
           ++ apply (Hall (Z.of_nat i)); [done|].
              rewrite nthZ_lookup by lia. by rewrite Nat2Z.id.
           ++ assert (y = item) as ->.
              { rewrite <- Heq, Nat2Z.id in Hitem. congruence. }
              apply configured_true. subst upd. by rewrite lookup_insert_eq.
           ++ apply (Hmin (Z.of_nat i)); [lia|].
              rewrite nthZ_lookup by lia. by rewrite Nat2Z.id.
      * intros Hall.
        pose proof (Hall (cur + 1 + Z.of_nat k) nextItem ltac:(lia) Hnext) as Hc.
        by rewrite (Hat _ Hnext') in Hc.
    + assert (Hk' : (length (drop (Z.to_nat (cur + 1)) (physicalItems P)) ≤ k)%nat).
      { apply lookup_ge_None. rewrite <- Hnext, Hnth by lia. f_equal. lia. }
      cbn. rewrite Hu3, Hs3. cbn. rewrite Hu2, Hs2. cbn.
      do 5 (split; [done|]). split.
      * intros j nxt Hcj Hnxt Hun Hmin. rewrite Hnth in Hnxt by done.
        rewrite (Hbefore (Z.to_nat (j - (cur + 1))) nxt) in Hun; [done| |done].
        apply lookup_lt_Some in Hnxt. lia.
      * done.
  - cbn. rewrite Hu2, Hs2. cbn. do 5 (split; [done|]). split; [|done].
    intros j nxt Hcj [Hj' _]%nthZ_Some. exfalso. lia.
Qed.

Lemma continue_marks_and_advances_witness :
  let w := act (λ s, CustomShipping.handleAddressSelect noOptionsGateway cartAB s home)
             (act (λ _, CustomShipping.initConsignments noOptionsGateway cartAB)
                  freshWorld) in
  let w' := act (CustomShipping.handleContinue noOptionsGateway cartAB) w in
  configuredItems (ui w') = <[ "A" := true ]> (configuredItems (ui w))
  ∧ currentItemIndex (ui w') = 1.
Proof.
  intros w w'.
  destruct (continue_marks_and_advances noOptionsGateway cartAB w home itemA
              eq_refl) as (_ & Hc & _ & _ & _ & Hadv & _).
  - intros c [= <-]. discriminate.
  - reflexivity.
  - reflexivity.
  - split; [exact Hc|].
    assert (Hcur : currentItemIndex (ui w) = 0) by reflexivity.
    destruct (Hadv 1 itemB) as [Hp _]; [| reflexivity | reflexivity | | exact Hp].
    + rewrite Hcur. lia.
    + intros i x Hi. rewrite Hcur in Hi. lia.
Defined.

(** ** Frame rules *)

Section FrameRules.

Context {A : Type} (f : World → A).

Lemma preserves_ret {B} (b : B) : preserves f (mret b).
Proof. by intros w. Qed.

Lemma preserves_throw {B} e : preserves f (@throw B e).
Proof. by intros w. Qed.

Lemma preserves_lift {B} (o : outcome B) : preserves f (lift_outcome o).
Proof. by intros w. Qed.

Lemma preserves_read {B} (g : World → B) : preserves f (read g).
Proof. by intros w. Qed.

Lemma preserves_modify (g : World → World) :
  (∀ w, f (g w) = f w) → preserves f (modify g).
Proof. intros H w. apply H. Qed.

Lemma preserves_bind {B C} (m : M B) (k : B → M C) :
  preserves f m → (∀ b, preserves f (k b)) → preserves f (m ≫= k).
Proof.
  intros Hm Hk w. unfold mbind, M_bind. specialize (Hm w).
  destruct (m w) as [[b|e] w1]; cbn in *; [|done]. by rewrite Hk.
Qed.

Lemma preserves_try_catch {B} (m : M B) (h : js_error → M B) :
  preserves f m → (∀ e, preserves f (h e)) → preserves f (try_catch m h).
Proof.
  intros Hm Hh w. unfold try_catch. specialize (Hm w).
  destruct (m w) as [[b|e] w1]; cbn in *; [done|]. by rewrite Hh.
Qed.

Lemma preserves_finally {B} (m : M B) (g : World → World) :
  preserves f m → (∀ w, f (g w) = f w) → preserves f (finally m g).
Proof.
  intros Hm Hg w. unfold finally. specialize (Hm w).
  destruct (m w) as [o w1]; cbn in *. by rewrite Hg.
Qed.

Lemma preserves_for_each {B} (l : list B) (body : B → M unit) :
  (∀ x, preserves f (body x)) → preserves f (for_each l body).
Proof.
  intros Hb. induction l as [|x l IH]; [apply preserves_ret|].
  cbn. apply preserves_bind; [apply Hb | by intros _].
Qed.



End FrameRules.

Section EmitRules.

Context (Q : event → Prop).

Lemma emits_silent {B} (m : M B) : preserves events m → emits Q m.
Proof. intros H w. exists []. by rewrite H, app_nil_r. Qed.

Lemma emits_bind {B C} (m : M B) (k : B → M C) :
  emits Q m → (∀ b, emits Q (k b)) → emits Q (m ≫= k).
Proof.
  intros Hm Hk w. unfold mbind, M_bind. destruct (Hm w) as (evs & He & HQ).
  destruct (m w) as [[b|e] w1]; cbn in *; [|by exists evs].
  destruct (Hk b w1) as (evs' & He' & HQ'). exists (evs ++ evs').
  rewrite He', He, app_assoc. split; [done|]. by apply Forall_app.
Qed.

Lemma emits_try_catch {B} (m : M B) (h : js_error → M B) :
  emits Q m → (∀ e, emits Q (h e)) → emits Q (try_catch m h).
Proof.
  intros Hm Hh w. unfold try_catch. destruct (Hm w) as (evs & He & HQ).
  destruct (m w) as [[b|e] w1]; cbn in *; [by exists evs|].
  destruct (Hh e w1) as (evs' & He' & HQ'). exists (evs ++ evs').
  rewrite He', He, app_assoc. split; [done|]. by apply Forall_app.
Qed.

Lemma emits_finally {B} (m : M B) (g : World → World) :
  emits Q m → (∀ w, events (g w) = events w) → emits Q (finally m g).
Proof.
  intros Hm Hg w. unfold finally. destruct (Hm w) as (evs & He & HQ).
  destruct (m w) as [o w1]; cbn in *. exists evs. by rewrite Hg.
Qed.

Lemma emits_for_each {B} (l : list B) (body : B → M unit) :
  (∀ x, emits Q (body x)) → emits Q (for_each l body).
Proof.
  intros Hb. induction l as [|x l IH]; [by apply emits_silent|].
  cbn. apply emits_bind; [apply Hb | by intros _].
Qed.

End EmitRules.

(** ** What the primitives and the cache leave alone *)

Create HintDb frame discriminated.

Section Primitives.

Context {A : Type} (f : World → A) (E : Env).

Lemma fetch_preserves req :
  (∀ ev w, f (with_event ev w) = f w) → preserves f (CustomShipping.fetch E req).
Proof.
  intros H w. unfold CustomShipping.fetch.
  destruct (gw_fetch E (clock w) req); apply H.
Qed.

Lemma loadCheckout_preserves :
  (∀ ev w, f (with_event ev w) = f w) → preserves f (CustomShipping.loadCheckout E).
Proof.
  intros H w. unfold CustomShipping.loadCheckout.
  destruct (gw_loadCheckout E (clock w)); apply H.
Qed.

Lemma deleteConsignments_preserves :
  (∀ ev w, f (with_event ev w) = f w) →
  preserves f (CustomShipping.deleteConsignments E).
Proof.
  intros H w. unfold CustomShipping.deleteConsignments.
  destruct (gw_deleteConsignments E (clock w)); apply H.
Qed.

Lemma getCheckout_preserves : preserves f (CustomShipping.getCheckout E).
Proof. apply preserves_read. Qed.

Lemma response_json_preserves r : preserves f (CustomShipping.response_json r).
Proof. unfold CustomShipping.response_json. by destruct (r.2). Qed.

Lemma console_error_preserves line :
  (∀ l w, f (with_console l w) = f w) → preserves f (console_error line).
Proof. intros H w. apply H. Qed.

Lemma console_log_preserves line :
  (∀ l w, f (with_console l w) = f w) → preserves f (console_log line).
Proof. intros H w. apply H. Qed.

Lemma onUnhandledError_preserves e :
  (∀ e w, f (with_unhandled e w) = f w) →
  preserves f (CustomShipping.onUnhandledError e).
Proof. intros H w. apply H. Qed.

Lemma getStoredConsignments_preserves :
  (∀ l w, f (with_console l w) = f w) →
  preserves f Persistence.getStoredConsignments.
Proof.
  intros H w. unfold Persistence.getStoredConsignments.
  destruct (Persistence.parse_or_empty _); [done | apply H].
Qed.

Lemma findByLineItem_preserves li q :
  (∀ l w, f (with_console l w) = f w) →
  preserves f (Persistence.findStoredConsignmentByLineItemId li q).
Proof.
  intros H. unfold Persistence.findStoredConsignmentByLineItemId.
  apply preserves_bind; [by apply getStoredConsignments_preserves|]. intros v.
  apply preserves_bind; [apply preserves_lift|]. intros l. apply preserves_lift.
Qed.

Lemma findById_preserves cid :
  (∀ l w, f (with_console l w) = f w) →
  preserves f (Persistence.findStoredConsignmentById cid).
Proof.
  intros H. unfold Persistence.findStoredConsignmentById.
  apply preserves_bind; [by apply getStoredConsignments_preserves|]. intros v.
  apply preserves_bind; [apply preserves_lift|]. intros l. apply preserves_lift.
Qed.

Lemma save_preserves cid li q a o d :
  (∀ l w, f (with_console l w) = f w) → (∀ g w, f (with_ss g w) = f w) →
  preserves f (Persistence.saveConsignmentToSession cid li q a o d).
Proof.
  intros H1 H2 w. unfold Persistence.saveConsignmentToSession.
  destruct (Persistence.save_try _ _ _ _ _ _ _); [apply H2 | apply H1].
Qed.

Lemma update_preserves cid li q a o d :
  (∀ l w, f (with_console l w) = f w) → (∀ g w, f (with_ss g w) = f w) →
  preserves f (Persistence.updateStoredConsignment cid li q a o d).
Proof. apply save_preserves. Qed.

Lemma remove_preserves cid :
  (∀ l w, f (with_console l w) = f w) → (∀ g w, f (with_ss g w) = f w) →
  preserves f (Persistence.removeStoredConsignment cid).
Proof.
  intros H1 H2. unfold Persistence.removeStoredConsignment.
  apply preserves_try_catch.
  - apply preserves_bind; [by apply getStoredConsignments_preserves|]. intros v.
    apply preserves_bind; [apply preserves_lift|]. intros l.
    apply preserves_bind; [apply preserves_lift|]. intros l'.
    apply preserves_modify. intros w'. apply H2.
  - intros e. by apply console_error_preserves.
Qed.

End Primitives.

Section EmitPrimitives.

Context (Q : event → Prop) (E : Env).

Lemma fetch_emits req :
  (∀ res, Q (EvFetch req res)) → emits Q (CustomShipping.fetch E req).
Proof.
  intros H w. exists [EvFetch req (gw_fetch E (clock w) req)].
  unfold CustomShipping.fetch. split; [|by repeat constructor].
  by destruct (gw_fetch E (clock w) req).
Qed.

Lemma loadCheckout_emits :
  Q EvLoadCheckout → emits Q (CustomShipping.loadCheckout E).
Proof.
  intros H w. exists [EvLoadCheckout].
  unfold CustomShipping.loadCheckout. split; [|by repeat constructor].
  by destruct (gw_loadCheckout E (clock w)).
Qed.

Lemma deleteConsignments_emits :
  Q EvDeleteConsignments → emits Q (CustomShipping.deleteConsignments E).
Proof.
  intros H w. exists [EvDeleteConsignments].
  unfold CustomShipping.deleteConsignments. split; [|by repeat constructor].
  by destruct (gw_deleteConsignments E (clock w)).
Qed.

End EmitPrimitives.

(** The rules, applied as far as they go.  What is left is a side
    condition on a primitive. *)
Ltac frame_rule :=
  first
    [ apply preserves_ret | apply preserves_throw | apply preserves_lift
    | apply preserves_read | apply getCheckout_preserves
    | apply response_json_preserves
    | apply preserves_bind; [|intros ?]
    | apply preserves_try_catch; [|intros ?]
    | apply preserves_finally; [|intros ?; reflexivity]
    | apply preserves_for_each; intros ?
    | apply preserves_modify; intros ?; reflexivity
    | apply fetch_preserves; intros ? ?; reflexivity
    | apply loadCheckout_preserves; intros ? ?; reflexivity
    | apply deleteConsignments_preserves; intros ? ?; reflexivity
    | apply console_error_preserves; intros ? ?; reflexivity
    | apply console_log_preserves; intros ? ?; reflexivity
    | apply onUnhandledError_preserves; intros ? ?; reflexivity
    | apply getStoredConsignments_preserves; intros ? ?; reflexivity
    | apply findByLineItem_preserves; intros ? ?; reflexivity
    | apply findById_preserves; intros ? ?; reflexivity
    | apply save_preserves; intros ? ?; reflexivity
    | apply update_preserves; intros ? ?; reflexivity
    | apply remove_preserves; intros ? ?; reflexivity
    | solve [eauto with frame]
    | match goal with
      | |- preserves _ (match ?x with _ => _ end) => destruct x
      | |- preserves _ (if ?b then _ else _) => destruct b
      end ].

Ltac frame := cbv zeta; repeat frame_rule.

Section Compound.

Context (E : Env) (P : Props).


Lemma restoreConsignment_ui stored :
  preserves ui (CustomShipping.restoreConsignment E stored).
Proof. unfold CustomShipping.restoreConsignment. frame. Qed.


Lemma restoreItem_ui cs item : preserves ui (CustomShipping.restoreItem E P cs item).
Proof.
  unfold CustomShipping.restoreItem. pose proof restoreConsignment_ui. frame.
Qed.

End Compound.

(** The rules for [emits], applied as far as they go. *)
Ltac emit_rule :=
  first
    [ apply emits_silent; solve [frame]
    | apply emits_bind; [|intros ?]
    | apply emits_try_catch; [|intros ?]
    | apply emits_finally; [|intros ?; reflexivity]
    | apply emits_for_each; intros ?
    | apply fetch_emits; intros ?
    | apply loadCheckout_emits
    | apply deleteConsignments_emits
    | solve [eauto with frame]
    | match goal with
      | |- emits _ (match ?x with _ => _ end) => destruct x
      | |- emits _ (if ?b then _ else _) => destruct b
      end ].

Ltac emit := cbv zeta; repeat emit_rule.

(** ** C1: the reconciliation pass *)

Section Reconciliation.

Context (E : Env) (P : Props).

Lemma restoreConsignment_grows stored :
  emits anyEvent (CustomShipping.restoreConsignment E stored).
Proof. unfold CustomShipping.restoreConsignment. emit; done. Qed.

Lemma restoreItem_grows cs item :
  emits anyEvent (CustomShipping.restoreItem E P cs item).
Proof.
  unfold CustomShipping.restoreItem. pose proof restoreConsignment_grows.
  emit; done.
Qed.














End Reconciliation.

Lemma find_id_absent cid l :
  Some cid ∉ record_id <$> l →
  find (λ c, bool_decide (record_id c = Some cid)) l = None.
Proof.
  induction l as [|c l IH]; [done|]. rewrite fmap_cons. intros Hn. cbn [find].
  rewrite bool_decide_eq_false_2.
  - apply IH. intros ?. apply Hn. by apply list_elem_of_further.
  - intros Hc. apply Hn. rewrite Hc. apply list_elem_of_here.
Qed.




(** ** Rules for a preorder on worlds *)

Section StepRules.

Context (R : relation World) `{!PreOrder R}.

Lemma steps_ret {B} (b : B) : steps R (mret b).
Proof. intros w. reflexivity. Qed.

Lemma steps_throw {B} e : steps R (@throw B e).
Proof. intros w. reflexivity. Qed.

Lemma steps_lift {B} (o : outcome B) : steps R (lift_outcome o).
Proof. intros w. reflexivity. Qed.

Lemma steps_read {B} (g : World → B) : steps R (read g).
Proof. intros w. reflexivity. Qed.

Lemma steps_modify (g : World → World) : (∀ w, R w (g w)) → steps R (modify g).
Proof. intros H w. apply H. Qed.

Lemma steps_bind {B C} (m : M B) (k : B → M C) :
  steps R m → (∀ b, steps R (k b)) → steps R (m ≫= k).
Proof.
  intros Hm Hk w. unfold mbind, M_bind. specialize (Hm w).
  destruct (m w) as [[b|e] w1]; cbn in *; [|done]. etrans; [exact Hm | apply Hk].
Qed.

Lemma steps_try_catch {B} (m : M B) (h : js_error → M B) :
  steps R m → (∀ e, steps R (h e)) → steps R (try_catch m h).
Proof.
  intros Hm Hh w. unfold try_catch. specialize (Hm w).
  destruct (m w) as [[b|e] w1]; cbn in *; [done|]. etrans; [exact Hm | apply Hh].
Qed.

Lemma steps_finally {B} (m : M B) (g : World → World) :
  steps R m → (∀ w, R w (g w)) → steps R (finally m g).
Proof.
  intros Hm Hg w. unfold finally. specialize (Hm w).
  destruct (m w) as [o w1]; cbn in *. etrans; [exact Hm | apply Hg].
Qed.

Lemma steps_for_each {B} (l : list B) (body : B → M unit) :
  (∀ x, steps R (body x)) → steps R (for_each l body).
Proof.
  intros Hb. induction l as [|x l IH]; [apply steps_ret|].
  cbn. apply steps_bind; [apply Hb | by intros _].
Qed.

End StepRules.

#[local] Instance console_grows_preorder : PreOrder console_grows.
Proof. split; [by intros w line | intros w1 w2 w3 H1 H2 line Hl; by apply H2, H1]. Qed.

Lemma steps_console_of_preserves {B} (m : M B) :
  preserves console m → steps console_grows m.
Proof. intros H w line. by rewrite H. Qed.

Lemma console_error_grows line : steps console_grows (console_error line).
Proof. intros w l Hl. cbn. apply elem_of_app. by left. Qed.

Lemma console_log_grows line : steps console_grows (console_log line).
Proof. apply console_error_grows. Qed.

Lemma getStoredConsignments_grows :
  steps console_grows Persistence.getStoredConsignments.
Proof.
  intros w l Hl. unfold Persistence.getStoredConsignments.
  destruct (Persistence.parse_or_empty _); [done|]. cbn. apply elem_of_app. by left.
Qed.

Lemma save_grows cid li q a o d :
  steps console_grows (Persistence.saveConsignmentToSession cid li q a o d).
Proof.
  intros w l Hl. unfold Persistence.saveConsignmentToSession.
  destruct (Persistence.save_try _ _ _ _ _ _ _); [done|]. cbn.
  apply elem_of_app. by left.
Qed.

(** The rules for the console, applied as far as they go. *)
Ltac log_rule :=
  first
    [ apply steps_console_of_preserves; solve [frame]
    | apply (steps_ret console_grows) | apply (steps_throw console_grows)
    | apply (steps_lift console_grows) | apply (steps_read console_grows)
    | apply console_error_grows | apply console_log_grows
    | apply getStoredConsignments_grows | apply save_grows
    | apply (steps_bind console_grows); [|intros ?]
    | apply (steps_try_catch console_grows); [|intros ?]
    | apply (steps_finally console_grows); [|intros ? ? ?; assumption]
    | apply (steps_for_each console_grows); intros ?
    | apply (steps_modify console_grows); intros ? ? ?; assumption
    | solve [eauto with frame]
    | match goal with
      | |- steps _ (match ?x with _ => _ end) => destruct x
      | |- steps _ (if ?b then _ else _) => destruct b
      end ].

Ltac logs := cbv zeta; repeat log_rule.

(** ** C4: the replay of a cached option *)

Section Replay.

Context (E : Env) (P : Props).

Lemma optional_get_optionId cid li q a o d :
  optional_get (Some (Persistence.consignmentData cid li q a o d))
    "selectedShippingOptionId" = Some (JStr o).
Proof. unfold optional_get, Persistence.consignmentData. by destruct a. Qed.

Lemma record_matches_toString li q cid li' q' a o d :
  record_matches li q (Persistence.consignmentData cid li' q' a o d) = true →
  id_toString li' = id_toString li.
Proof.
  unfold record_matches. cbn. rewrite json_toString_id.
  intros [H _]%andb_true_iff. by apply bool_decide_eq_true in H.
Qed.

(** What [restoreConsignment] does with a record of the cache. *)
Lemma restoreConsignment_record w cid li q a o d chk :
  gw_getCheckout E (clock w) = Some chk →
  let stored := Persistence.consignmentData cid li q a o d in
  ∃ out w' tail lines,
    CustomShipping.restoreConsignment E stored w = (out, w')
    ∧ ss w' = ss w ∧ ui w' = ui w
    ∧ console w' = console w ++ lines
    ∧ (∀ e, out = Thrown e →
            lines = ["Error restoring consignment: " +:+ err_message e])
    ∧ Forall (λ ev, ev = EvLoadCheckout) tail
    ∧ match find (covers (id_toString li)) (co_consignments chk) with
      | Some target =>
          let req := PutShippingOption (co_id chk) (c_id target) true
                       (Some (JStr o)) in
          events w' = events w ++ EvFetch req (gw_fetch E (clock w) req) :: tail
          ∧ (reply_fails (gw_fetch E (clock w) req) = true → is_thrown out = true)
      | None => events w' = events w
      end.
Proof.
  intros Hco stored. unfold CustomShipping.restoreConsignment.
  unfold CustomShipping.getCheckout at 1. unfold mbind at 1, M_bind at 1, read.
  rewrite Hco.
  match goal with
  | |- context [try_catch (mbind ?k ?m) ?h] => set (K := k); set (Mf := m)
  end.
  assert (Hfind :
    Mf w = (Normal (find (covers (id_toString li)) (co_consignments chk)), w)).
  { subst Mf. destruct (co_consignments chk); [done|].
    unfold mbind, M_bind, lift_outcome. cbn. rewrite json_toString_id.
    reflexivity. }
  unfold try_catch. rewrite (bind_normal _ _ _ _ _ Hfind). subst K. cbn beta.
  clear Hfind Mf.
  destruct (find (covers (id_toString li)) (co_consignments chk)) as [target|].
  2:{ exists (Normal None), w, [], []. rewrite app_nil_r.
      repeat split; try done. }
  unfold mbind at 1, M_bind at 1, lift_outcome.
  replace (js_get stored "selectedShippingOptionId") with
    (Normal (Some (JStr o))).
  2:{ unfold js_get, stored, Persistence.consignmentData. by destruct a. }
  unfold mbind at 1, M_bind at 1. unfold CustomShipping.fetch at 1.
  set (req := PutShippingOption (co_id chk) (c_id target) true (Some (JStr o))).
  destruct (gw_fetch E (clock w) req) as [msg|[] body] eqn:Hres.
  - (* the request is rejected *)
    eexists _, _, [], [_]. split; [reflexivity|]. cbn.
    repeat split; try done; try (by intros e [= <-]); by repeat constructor.
  - (* the request is accepted *)
    unfold CustomShipping.response_ok. cbn [fst].
    rewrite bind_ret. unfold mbind at 1, M_bind at 1.
    unfold CustomShipping.loadCheckout at 1. cbn [clock with_event].
    destruct (gw_loadCheckout E (S (clock w))) as [e|].
    + eexists _, _, [EvLoadCheckout], [_]. split; [reflexivity|]. cbn.
      rewrite <- app_assoc.
      repeat split; try done; try (by intros e' [= <-]); by repeat constructor.
    + unfold CustomShipping.response_json. cbn [snd].
      destruct body as [b|].
      * eexists _, _, [EvLoadCheckout], []. split; [reflexivity|]. cbn.
        rewrite <- app_assoc, app_nil_r.
        repeat split; try done; by repeat constructor.
      * eexists _, _, [EvLoadCheckout], [_]. split; [reflexivity|]. cbn.
        rewrite <- app_assoc.
        repeat split; try done; try (by intros e' [= <-]); by repeat constructor.
  - (* the request is refused *)
    unfold CustomShipping.response_ok. cbn [fst].
    unfold CustomShipping.response_json. cbn [snd].
    destruct body as [b|]; eexists _, _, [], [_]; (split; [reflexivity|]); cbn;
      (repeat split; try done; try (by intros e' [= <-]); by repeat constructor).
Qed.

(** A round of the restoration loop: it never throws, it leaves cache and
    model alone, and it sends the request of [restoreTarget], if any. *)
Lemma restoreItem_plan w item :
  cache_wf (ss w) →
  ∃ w' tail lines,
    CustomShipping.restoreItem E P (consignments P) item w = (Normal tt, w')
    ∧ ss w' = ss w ∧ ui w' = ui w
    ∧ console w' = console w ++ lines
    ∧ Forall (λ ev, ev = EvLoadCheckout) tail
    ∧ match restoreTarget E P item w with
      | Some req =>
          events w' = events w ++ EvFetch req (gw_fetch E (clock w) req) :: tail
          ∧ (reply_fails (gw_fetch E (clock w) req) = true →
             ∃ msg, ("Error restoring consignment for item "
                     +:+ id_toString (li_id item) +:+ ": " +:+ msg) ∈ lines)
      | None => events w' = events w
      end.
Proof.
  intros Hwf. unfold CustomShipping.restoreItem, restoreTarget. cbv zeta.
  assert (Hskip : ∃ w' tail lines,
            (mret () : M unit) w = (Normal tt, w')
            ∧ ss w' = ss w ∧ ui w' = ui w ∧ console w' = console w ++ lines
            ∧ Forall (λ ev, ev = EvLoadCheckout) tail ∧ events w' = events w).
  { exists w, [], []. rewrite app_nil_r. by repeat split. }
  destruct (find (is_sole_item _) (consignments P)) as [existing|]; [|exact Hskip].
  destruct (c_selectedShippingOption existing); [exact Hskip|].
  rewrite (bind_normal _ _ _ _ _ (find_lineItem_wf w _ _ Hwf)).
  destruct (find (record_matches _ _) (records (ss w))) as [stored|] eqn:Hst;
    [|exact Hskip].
  apply cache_wf_parse in Hwf as [_ Hrec].
  assert (Hin : stored ∈ records (ss w)).
  { apply list_elem_of_In. eapply find_some. exact Hst. }
  eapply Forall_forall in Hrec; [|exact Hin].
  apply find_some in Hst as [_ Hmatch].
  destruct Hrec as [cid li q a o d].
  rewrite optional_get_optionId.
  destruct (opt_truthy (Some (JStr o))); [|exact Hskip].
  unfold try_catch.
  destruct (gw_getCheckout E (clock w)) as [chk|] eqn:Hco.
  - destruct (restoreConsignment_record w cid li q a o d chk Hco)
      as (out & w1 & tail & lines & Hrun & Hss & Hui & Hcon & Hthrown & Htail & Hev).
    rewrite (record_matches_toString _ _ _ _ _ _ _ _ Hmatch) in Hev.
    destruct out as [body|e].
    + rewrite (bind_normal _ _ _ _ _ Hrun). exists w1, tail, lines.
      split; [reflexivity|]. repeat split; try done.
      destruct (find (covers _) (co_consignments chk)); [|done].
      destruct Hev as [Hev Hfail]. split; [done|]. intros Hf.
      by apply Hfail in Hf.
    + rewrite (bind_thrown _ _ _ _ _ Hrun).
      eexists _, tail, (lines ++ [_]). split; [reflexivity|]. cbn.
      rewrite Hcon, app_assoc. repeat split; try done.
      destruct (find (covers _) (co_consignments chk)); [|done].
      destruct Hev as [Hev Hfail]. split; [done|]. intros _.
      eexists. apply elem_of_app. right. apply list_elem_of_here.
  - unfold CustomShipping.restoreConsignment, CustomShipping.getCheckout,
      mbind, M_bind, read, throw. rewrite Hco.
    eexists _, [], [_]. split; [reflexivity|]. by repeat split.
Qed.

Lemma for_each_app {B} (l1 l2 : list B) (body : B → M unit) w :
  for_each (l1 ++ l2) body w = (for_each l1 body ≫= λ _, for_each l2 body) w.
Proof.
  revert w. induction l1 as [|x l1 IH]; intros w; [done|].
  cbn [app for_each]. unfold mbind, M_bind in *.
  destruct (body x w) as [[[]|e] w1]; [|done]. apply IH.
Qed.

Lemma find_by_id_NoDup (items : list LineItem) item :
  NoDup ((λ i, id_toString (li_id i)) <$> items) →
  item ∈ items →
  find (λ p, bool_decide (id_toString (li_id p) = id_toString (li_id item))) items
  = Some item.
Proof.
  induction items as [|x items IH]; intros Hnd Hin; [by apply elem_of_nil in Hin|].
  rewrite fmap_cons in Hnd. apply NoDup_cons in Hnd as [Hx Hnd]. cbn [find].
  apply elem_of_cons in Hin as [->|Hin].
  - by rewrite bool_decide_eq_true_2.
  - rewrite bool_decide_eq_false_2; [by apply IH|].
    intros Heq. apply Hx. rewrite Heq.
    by apply (list_elem_of_fmap_2 (λ i, id_toString (li_id i))).
Qed.

Section Target.

Context (cid s : string) (Hkeeps : keepsConsignmentOf E cid s).

(** The restoration of another item does not touch the consignment. *)
Lemma restoreTarget_other item w req res :
  id_toString (li_id item) ≠ s →
  restoreTarget E P item w = Some req →
  isSetOptionOn cid (EvFetch req res) = false ∧ isRestoreEvent (EvFetch req res).
Proof.
  intros Hne. unfold restoreTarget. cbv zeta.
  destruct (find (is_sole_item _) (consignments P)) as [existing|]; [|done].
  destruct (c_selectedShippingOption existing); [done|].
  destruct (opt_truthy _); [|done].
  destruct (Hkeeps (clock w)) as (chk & -> & Honly & _).
  destruct (find (covers _) (co_consignments chk)) as [target|] eqn:Hfind; [|done].
  intros [= <-]. split; [|done]. cbn. apply bool_decide_eq_false. intros Hid.
  apply find_some in Hfind as [Hin Hcov%bool_decide_eq_true].
  rewrite (Honly target) in Hcov; [|by apply list_elem_of_In|done].
  by apply list_elem_of_singleton in Hcov.
Qed.

(** The rounds of the other items. *)
Lemma restore_loop_others l w :
  cache_wf (ss w) →
  Forall (λ y, id_toString (li_id y) ≠ s) l →
  ∃ w' evs,
    for_each l (CustomShipping.restoreItem E P (consignments P)) w = (Normal tt, w')
    ∧ ss w' = ss w ∧ ui w' = ui w ∧ console_grows w w'
    ∧ events w' = events w ++ evs
    ∧ Forall isRestoreEvent evs
    ∧ filter (isSetOptionOn cid) evs = [].
Proof.
  intros Hwf Hl. revert w Hwf. induction Hl as [|y l Hy _ IH]; intros w Hwf.
  - exists w, []. rewrite app_nil_r. by repeat split.
  - destruct (restoreItem_plan w y Hwf)
      as (w1 & tail & lines & Hrun & Hss & Hui & Hcon & Htail & Hev).
    assert (Hwf1 : cache_wf (ss w1)) by by rewrite Hss.
    destruct (IH w1 Hwf1) as (w2 & evs & Hrun2 & Hss2 & Hui2 & Hcon2 & Hev2 & Hr2 & Hf2).
    assert (Htail' : Forall isRestoreEvent tail ∧ filter (isSetOptionOn cid) tail = []).
    { clear -Htail. induction Htail as [|ev tail -> _ [IH1 IH2]]; [done|].
      split; [by constructor|]. by rewrite filter_cons. }
    destruct Htail' as [Ht1 Ht2].
    cbn [for_each]. rewrite (bind_normal _ _ _ _ _ Hrun).
    destruct (restoreTarget E P y w) as [req|] eqn:Htarget.
    + destruct Hev as [Hev _].
      destruct (restoreTarget_other y w req (gw_fetch E (clock w) req) Hy Htarget)
        as [Hno Hre].
      exists w2, (EvFetch req (gw_fetch E (clock w) req) :: tail ++ evs).
      split; [done|]. repeat split.
      * by rewrite Hss2.
      * by rewrite Hui2.
      * etrans; [|exact Hcon2]. intros line Hline. rewrite Hcon.
        apply elem_of_app. by left.
      * rewrite Hev2, Hev. by rewrite <- app_assoc.
      * constructor; [done|]. by apply Forall_app.
      * rewrite filter_cons, Hno, filter_app, Ht2, Hf2. done.
    + exists w2, evs. split; [done|]. repeat split; try done.
      * by rewrite Hss2.
      * by rewrite Hui2.
      * etrans; [|exact Hcon2]. intros line Hline. rewrite Hcon.
        apply elem_of_app. by left.
      * by rewrite Hev2, Hev.
Qed.

(** The round of the item itself. *)
Lemma restoreTarget_item item c r opt w :
  s = id_toString (li_id item) → cid = c_id c →
  NoDup ((λ i, id_toString (li_id i)) <$> physicalItems P) →
  item ∈ physicalItems P →
  find (is_sole_item s) (consignments P) = Some c →
  c_selectedShippingOption c = None →
  find (record_matches (li_id item) (li_quantity item)) (records (ss w)) = Some r →
  optional_get (Some r) "selectedShippingOptionId" = Some (JStr opt) →
  opt ≠ "" →
  ∃ chkId,
    restoreTarget E P item w
    = Some (PutShippingOption chkId cid true (Some (JStr opt))).
Proof.
  intros -> -> Hnd Hin Hex Hinc Hrec Hopt Hne. unfold restoreTarget. cbv zeta.
  rewrite Hex, Hinc. unfold CustomShipping.quantityOf.
  rewrite (find_by_id_NoDup _ _ Hnd Hin), Hrec, Hopt. cbn [opt_truthy js_truthy].
  rewrite bool_decide_eq_false_2 by done. cbn [negb].
  destruct (Hkeeps (clock w)) as (chk & -> & _ & c' & -> & <-). by eexists.
Qed.

Lemma emits_for_each_in {B} Q (l : list B) (body : B → M unit) :
  (∀ x, x ∈ l → emits Q (body x)) → emits Q (for_each l body).
Proof.
  induction l as [|x l IH]; intros Hb; [apply emits_silent; apply preserves_ret|].
  cbn. apply emits_bind; [apply Hb, list_elem_of_here|]. intros _.
  apply IH. intros y Hy. by apply Hb, list_elem_of_further.
Qed.

Lemma afterReread_quiet L ev :
  isSetOptionOn cid ev = false → isDeleteOf cid ev = false → afterReread cid L ev.
Proof. intros H1 H2. split; [done|]. by rewrite H2. Qed.

(** What follows the re-read. *)
Lemma rest_emits checkout order L :
  emits (afterReread cid L)
    (match filter (λ c, c_selectedShippingOption c = None) L with
     | [] => CustomShipping.seedFromConsignments E P order L
     | _ :: _ =>
         for_each (filter (λ c, c_selectedShippingOption c = None) L)
           (CustomShipping.removeIncomplete E checkout);;
         CustomShipping.seedFromRemaining E P
     end ≫= λ _, CustomShipping.loadCheckout E).
Proof.
  apply emits_bind; [|intros _; apply loadCheckout_emits; by apply afterReread_quiet].
  assert (Hdel : emits (afterReread cid L)
            (for_each (filter (λ c, c_selectedShippingOption c = None) L)
               (CustomShipping.removeIncomplete E checkout))).
  { apply emits_for_each_in. intros c' [Hnone Hin]%list_elem_of_filter.
    unfold CustomShipping.removeIncomplete. apply emits_bind.
    - apply fetch_emits. intros res. split; [done|]. cbn.
      intros Hid%bool_decide_eq_true. by exists c'.
    - intros _. apply emits_silent. frame. }
  destruct (filter (λ c, c_selectedShippingOption c = None) L) as [|c0 rest].
  - unfold CustomShipping.seedFromConsignments. emit; by apply afterReread_quiet.
  - apply emits_bind; [exact Hdel|]. intros _.
    unfold CustomShipping.seedFromRemaining. emit; by apply afterReread_quiet.
Qed.

End Target.

Lemma rest_logs checkout order L :
  steps console_grows
    (match filter (λ c, c_selectedShippingOption c = None) L with
     | [] => CustomShipping.seedFromConsignments E P order L
     | _ :: _ =>
         for_each (filter (λ c, c_selectedShippingOption c = None) L)
           (CustomShipping.removeIncomplete E checkout);;
         CustomShipping.seedFromRemaining E P
     end ≫= λ _, CustomShipping.loadCheckout E).
Proof.
  destruct (filter (λ c, c_selectedShippingOption c = None) L) as [|c0 rest].
  - unfold CustomShipping.seedFromConsignments. logs.
  - unfold CustomShipping.seedFromRemaining, CustomShipping.removeIncomplete.
    logs.
Qed.

Lemma NoDup_split_ne (items l1 l2 : list LineItem) item :
  NoDup ((λ i, id_toString (li_id i)) <$> items) →
  items = l1 ++ item :: l2 →
  Forall (λ y, id_toString (li_id y) ≠ id_toString (li_id item)) l1
  ∧ Forall (λ y, id_toString (li_id y) ≠ id_toString (li_id item)) l2.
Proof.
  intros Hnd ->. rewrite fmap_app, fmap_cons in Hnd.
  apply NoDup_app in Hnd as (_ & Hdisj & [Hnot _]%NoDup_cons).
  split; apply Forall_forall; intros y Hy Heq.
  - apply (Hdisj (id_toString (li_id y))).
    + by apply (list_elem_of_fmap_2 (λ i, id_toString (li_id i))).
    + rewrite Heq. apply list_elem_of_here.
  - apply Hnot. rewrite <- Heq.
    by apply (list_elem_of_fmap_2 (λ i, id_toString (li_id i))).
Qed.

Lemma rereadConsignments_run checkout w :
  ∃ o,
    CustomShipping.rereadConsignments E checkout w
    = (o, with_event
            (EvFetch (GetCheckout (co_id checkout) includeOptions)
               (gw_fetch E (clock w) (GetCheckout (co_id checkout) includeOptions)))
            w)
    ∧ match o with
      | Normal L =>
          ∃ res, gw_fetch E (clock w) (GetCheckout (co_id checkout) includeOptions)
                 = Response true (Some res)
                 ∧ L = default [] (rb_consignments res)
      | Thrown _ => True
      end.
Proof.
  unfold CustomShipping.rereadConsignments, CustomShipping.fetch,
    CustomShipping.response_ok, CustomShipping.response_json, mbind, M_bind, throw.
  destruct (gw_fetch E (clock w) _) as [msg|[] [res|]]; cbn;
    eexists; (split; [reflexivity|]); try done.
  by exists res.
Qed.

(** The events of the body of the pass, in the scenario of the replay. *)
Lemma initConsignments_try_replay w item c r opt :
  NoDup ((λ i, id_toString (li_id i)) <$> physicalItems P) →
  item ∈ physicalItems P →
  find (is_sole_item (id_toString (li_id item))) (consignments P) = Some c →
  c_selectedShippingOption c = None →
  cache_wf (ss w) →
  find (record_matches (li_id item) (li_quantity item)) (records (ss w)) = Some r →
  optional_get (Some r) "selectedShippingOptionId" = Some (JStr opt) →
  opt ≠ "" →
  keepsConsignmentOf E (c_id c) (id_toString (li_id item)) →
  ∃ o w1 chk chkId put evs1 reread evs2,
    CustomShipping.initConsignments_try E P w = (o, w1)
    ∧ gw_getCheckout E (clock w) = Some chk
    ∧ events w1
      = events w ++ evs1
        ++ EvFetch (GetCheckout (co_id chk) includeOptions) reread :: evs2
    ∧ Forall isRestoreEvent evs1
    ∧ filter (isSetOptionOn (c_id c)) evs1
      = [EvFetch (PutShippingOption chkId (c_id c) true (Some (JStr opt))) put]
    ∧ Forall (λ ev, isSetOptionOn (c_id c) ev = false) evs2
    ∧ (∀ ev, ev ∈ evs2 → isDeleteOf (c_id c) ev = true →
         ∃ res c', reread = Response true (Some res)
                   ∧ c' ∈ default [] (rb_consignments res)
                   ∧ c_id c' = c_id c ∧ c_selectedShippingOption c' = None)
    ∧ (reply_fails put = true →
       ∃ msg, ("Error restoring consignment for item "
               +:+ id_toString (li_id item) +:+ ": " +:+ msg) ∈ console w1).
Proof.
  intros Hnd Hin Hex Hinc Hwf Hrec Hopt Hne Hkeeps.
  unfold CustomShipping.initConsignments_try. cbv zeta. rewrite bind_modify.
  unfold CustomShipping.getCheckout at 1. unfold mbind at 1, M_bind at 1, read.
  cbn [clock setOriginalItemOrder with_ui].
  destruct (Hkeeps (clock w)) as (chk & Hco & _). rewrite Hco.
  set (w0 := setOriginalItemOrder _ w).
  destruct (list_elem_of_split _ _ Hin) as (l1 & l2 & Hsplit).
  destruct (NoDup_split_ne _ _ _ _ Hnd Hsplit) as [Hl1 Hl2].
  destruct (restore_loop_others (c_id c) _ Hkeeps l1 w0 Hwf Hl1)
    as (wa & evsa & Hruna & Hssa & Huia & Hcona & Heva & Hra & Hfa).
  assert (Hwfa : cache_wf (ss wa)) by by rewrite Hssa.
  destruct (restoreTarget_item (c_id c) _ Hkeeps item c r opt wa eq_refl eq_refl
              Hnd Hin Hex Hinc) as [chkId Htarget]; [by rewrite Hssa|done..|].
  destruct (restoreItem_plan wa item Hwfa)
    as (wb & tail & lines & Hrunb & Hssb & Huib & Hconb & Htail & Hevb).
  rewrite Htarget in Hevb. destruct Hevb as [Hevb Hlog].
  set (req := PutShippingOption chkId (c_id c) true (Some (JStr opt))) in *.
  set (put := gw_fetch E (clock wa) req) in *.
  assert (Hwfb : cache_wf (ss wb)) by by rewrite Hssb.
  destruct (restore_loop_others (c_id c) _ Hkeeps l2 wb Hwfb Hl2)
    as (wc & evsc & Hrunc & Hssc & Huic & Hconc & Hevc & Hrc & Hfc).
  assert (Hloop : for_each (physicalItems P)
                    (CustomShipping.restoreItem E P (consignments P)) w0
                  = (Normal tt, wc)).
  { rewrite Hsplit, for_each_app, (bind_normal _ _ _ _ _ Hruna).
    cbn [for_each]. by rewrite (bind_normal _ _ _ _ _ Hrunb). }
  rewrite (bind_normal _ _ _ _ _ Hloop).
  set (evs1 := evsa ++ EvFetch req put :: tail ++ evsc).
  assert (Hev1 : events wc = events w ++ evs1).
  { rewrite Hevc, Hevb, Heva. subst evs1 w0. cbn.
    by rewrite <- !app_assoc. }
  assert (Htail' : Forall isRestoreEvent tail
                   ∧ filter (isSetOptionOn (c_id c)) tail = []).
  { clear -Htail. induction Htail as [|ev tail -> _ [IH1 IH2]]; [done|].
    split; [by constructor|]. by rewrite filter_cons. }
  destruct Htail' as [Ht1 Ht2].
  assert (Hr1 : Forall isRestoreEvent evs1).
  { subst evs1. apply Forall_app. split; [done|]. constructor; [done|].
    by apply Forall_app. }
  assert (Hf1 : filter (isSetOptionOn (c_id c)) evs1 = [EvFetch req put]).
  { subst evs1. rewrite filter_app, Hfa, filter_cons. cbn [isSetOptionOn req].
    rewrite bool_decide_eq_true_2 by done. cbn.
    by rewrite filter_app, Ht2, Hfc. }
  assert (Hlogc : reply_fails put = true →
            ∃ msg, ("Error restoring consignment for item "
                    +:+ id_toString (li_id item) +:+ ": " +:+ msg) ∈ console wc).
  { intros Hf. destruct (Hlog Hf) as [msg Hmsg]. exists msg. apply Hconc.
    rewrite Hconb. apply elem_of_app. by right. }
  set (get := GetCheckout (co_id chk) includeOptions).
  destruct (rereadConsignments_run chk wc) as (o1 & Hrr & Ho1). fold get in Hrr, Ho1.
  set (reread := gw_fetch E (clock wc) get) in *.
  set (wd := with_event (EvFetch get reread) wc) in *.
  destruct o1 as [L|e].
  2:{ rewrite (bind_thrown _ _ _ _ _ Hrr).
      exists (Thrown e), wd, chk, chkId, put, evs1, reread, [].
      split; [reflexivity|]. subst wd. cbn. rewrite Hev1, <- app_assoc.
      repeat split; try done. intros ev Hev. by apply elem_of_nil in Hev. }
  destruct Ho1 as (res & Hres & HL).
  rewrite (bind_normal _ _ _ _ _ Hrr). cbv beta.
  destruct (rest_emits (c_id c) chk
              (map (λ item, id_toString (li_id item)) (physicalItems P)) L wd)
    as (evs2 & Hev2 & HQ2).
  pose proof (rest_logs chk
                (map (λ item, id_toString (li_id item)) (physicalItems P)) L wd)
    as Hcon2.
  match goal with
  | |- ∃ o w1 _ _ _ _ _ _, ?m wd = _ ∧ _ => destruct (m wd) as [o w1] eqn:Hrest
  end.
  cbn [fst snd] in Hev2, Hcon2.
  exists o, w1, chk, chkId, put, evs1, reread, evs2.
  split; [reflexivity|]. split; [done|]. split.
  { rewrite Hev2. subst wd. cbn. rewrite Hev1. by rewrite <- !app_assoc. }
  split; [done|]. split; [done|]. split.
  { eapply Forall_impl; [exact HQ2|]. by intros ev [? _]. }
  split.
  - intros ev Hev Hd. eapply Forall_forall in HQ2 as [_ HQ]; [|exact Hev].
    destruct (HQ Hd) as (c' & Hc' & Hid & Hnone). exists res, c'.
    by rewrite <- HL.
  - intros Hf. destruct (Hlogc Hf) as [msg Hmsg]. exists msg.
    apply Hcon2. by subst wd.
Qed.

Lemma initConsignments_unfold w :
  physicalItems P ≠ [] →
  CustomShipping.initConsignments E P w
  = finally
      (try_catch (CustomShipping.initConsignments_try E P)
         (λ err, modify (setError (Some ("Error initializing: "
                                         +:+ err_message err)))))
      (setIsLoading false) (setIsLoading true w).
Proof.
  intros Hne. unfold CustomShipping.initConsignments.
  by destruct (physicalItems P).
Qed.

End Replay.

(** C4, as stated, fails.  The consignment of item C has no option and the
    cache has a record for C with the option [opt-9]; the Gateway refuses
    the request to set it.  The failure is logged, the pass goes on, the
    re-read lists the consignment without option still, and the pass asks
    the Gateway to delete it. *)
Lemma refused_replay_ends_in_delete :
  let w' := (CustomShipping.initConsignments refusingGateway cartAC
               sessionWithRecordForC).2 in
  find (is_sole_item "C") (consignments cartAC) = Some consC_incomplete
  ∧ c_selectedShippingOption consC_incomplete = None
  ∧ (Persistence.findStoredConsignmentByLineItemId (IdStr "C") 1
       sessionWithRecordForC).1
    = Normal (Some (Persistence.consignmentData "cons-C" (IdStr "C") 1
                      (Some (address_json home)) "opt-9" None))
  ∧ calls w'
    = [ CallFetch (PutShippingOption "chk" "cons-C" true (Some (JStr "opt-9")));
        CallFetch (GetCheckout "chk" includeOptions);
        CallFetch (DeleteConsignment "chk" "cons-A");
        CallFetch (DeleteConsignment "chk" "cons-C");
        CallLoadCheckout; CallLoadCheckout ]
  ∧ "Error restoring consignment for item C: Service unavailable" ∈ console w'
  ∧ error (ui w') = None.
Proof.
  vm_compute. repeat split.
  apply list_elem_of_further, list_elem_of_here.
Qed.

Lemma reconcilingGateway_keeps b :
  keepsConsignmentOf (reconcilingGateway b) "cons-C" "C".
Proof.
  intros t. eexists. split; [reflexivity|]. cbn [co_consignments checkoutWith].
  destruct (t <? 1)%nat; [|destruct (t <? 4)%nat].
  - split; [|by eexists].
    intros c' Hc' Hid. repeat (apply elem_of_cons in Hc' as [->|Hc']); try done.
    by apply elem_of_nil in Hc'.
  - split; [|by eexists].
    intros c' Hc' Hid. repeat (apply elem_of_cons in Hc' as [->|Hc']); try done.
    by apply elem_of_nil in Hc'.
  - split; [|by eexists].
    intros c' Hc' Hid. repeat (apply elem_of_cons in Hc' as [->|Hc']); try done.
    by apply elem_of_nil in Hc'.
Qed.

(** C4, amended.  Let the line items of the cart have distinct ids, let the
    consignment [c] be the first one of the checkout that covers [item], let
    it cover that item alone and have no selected shipping option, let the
    cache, written by this module alone, answer the lookup by the item's
    (lineItemId, quantity) with a record whose [selectedShippingOptionId] is
    [opt], and let the checkout stay at hand with [c] listed for that item.
    Then the pass ends normally and what it sent is: the restoration loop,
    which holds exactly one request to set the shipping option of [c], to
    [opt], and deletes nothing; the re-read of the consignments; and a rest
    that sets no option of [c] and asks to delete [c] only if the re-read
    still lists it without a selected option.  If the request to set the
    option failed, the failure is on the console and the pass went on all the
    same, to the re-read. *)
Theorem cached_option_replayed_once E P w item c r opt :
  NoDup ((λ i, id_toString (li_id i)) <$> physicalItems P) →
  item ∈ physicalItems P →
  find (is_sole_item (id_toString (li_id item))) (consignments P) = Some c →
  c_selectedShippingOption c = None →
  cache_reachable w →
  find (record_matches (li_id item) (li_quantity item)) (records (ss w)) = Some r →
  optional_get (Some r) "selectedShippingOptionId" = Some (JStr opt) →
  opt ≠ "" →
  keepsConsignmentOf E (c_id c) (id_toString (li_id item)) →
  ∃ w' chk chkId put loop reread rest,
    CustomShipping.initConsignments E P w = (Normal tt, w')
    ∧ gw_getCheckout E (clock w) = Some chk
    ∧ events w'
      = events w ++ loop
        ++ EvFetch (GetCheckout (co_id chk) includeOptions) reread :: rest
    ∧ Forall isRestoreEvent loop
    ∧ filter (isSetOptionOn (c_id c)) loop
      = [EvFetch (PutShippingOption chkId (c_id c) true (Some (JStr opt))) put]
    ∧ Forall (λ ev, isSetOptionOn (c_id c) ev = false) rest
    ∧ (∀ ev, ev ∈ rest → isDeleteOf (c_id c) ev = true →
         ∃ res c', reread = Response true (Some res)
                   ∧ c' ∈ default [] (rb_consignments res)
                   ∧ c_id c' = c_id c ∧ c_selectedShippingOption c' = None)
    ∧ (reply_fails put = true →
       ∃ msg, ("Error restoring consignment for item "
               +:+ id_toString (li_id item) +:+ ": " +:+ msg) ∈ console w').
Proof.
  intros Hnd Hin Hex Hinc Hreach Hrec Hopt Hne Hkeeps.
  assert (Hitems : physicalItems P ≠ []).
  { intros H0. rewrite H0 in Hin. by apply elem_of_nil in Hin. }
  rewrite (initConsignments_unfold E P w Hitems).
  destruct (initConsignments_try_replay E P (setIsLoading true w) item c r opt
              Hnd Hin Hex Hinc (reachable_wf _ Hreach) Hrec Hopt Hne Hkeeps)
    as (o & w1 & chk & chkId & put & loop & reread & rest
        & Hrun & Hco & Hev & Hloop & Hone & Hrest & Hdel & Hlog).
  unfold finally, try_catch. rewrite Hrun.
  destruct o as [[]|e]; cbn.
  - exists (setIsLoading false w1), chk, chkId, put, loop, reread, rest.
    by repeat (split; [done|]).
  - eexists _, chk, chkId, put, loop, reread, rest.
    split; [reflexivity|]. by repeat (split; [done|]).
Qed.

Lemma cached_option_replayed_once_witness :
  ∃ w' chkId put loop reread rest,
    CustomShipping.initConsignments (reconcilingGateway true) cartAC
      sessionWithRecordForC = (Normal tt, w')
    ∧ events w'
      = loop ++ EvFetch (GetCheckout "chk" includeOptions) reread :: rest
    ∧ filter (isSetOptionOn "cons-C") loop
      = [EvFetch (PutShippingOption chkId "cons-C" true (Some (JStr "opt-9"))) put]
    ∧ Forall (λ ev, isSetOptionOn "cons-C" ev = false) rest.
Proof.
  destruct (cached_option_replayed_once (reconcilingGateway true) cartAC
              sessionWithRecordForC itemC consC_incomplete
              (Persistence.consignmentData "cons-C" (IdStr "C") 1
                 (Some (address_json home)) "opt-9" None)
              "opt-9")
    as (w' & chk & chkId & put & loop & reread & rest
        & Hrun & Hco & Hev & _ & Hone & Hrest & _).
  - apply NoDup_cons. split; [|apply NoDup_singleton].
    by intros [=]%list_elem_of_singleton.
  - apply list_elem_of_further, list_elem_of_here.
  - reflexivity.
  - reflexivity.
  - apply reach_save, reach_fresh. reflexivity.
  - reflexivity.
  - reflexivity.
  - discriminate.
  - apply reconcilingGateway_keeps.
  - assert (Hid : co_id chk = "chk") by (by inversion Hco).
    rewrite Hid in Hev.
    exists w', chkId, put, loop, reread, rest. split; [exact Hrun|].
    split; [exact Hev|]. split; [exact Hone|exact Hrest].
Defined.

(** ** C3: the cache after the selection of an option *)

Section RoundTrip.

Lemma find_upsert_id cid data l :
  record_id data = Some cid →
  find (λ c, bool_decide (record_id c = Some cid)) (upsert cid data l) = Some data.
Proof.
  intros Hd. induction l as [|c l IH].
  - change (upsert cid data []) with [data]. cbn.
    by rewrite bool_decide_eq_true_2.
  - rewrite upsert_cons. destruct (decide (record_id c = Some cid)) as [Hc|Hc]; cbn.
    + by rewrite bool_decide_eq_true_2.
    + by rewrite bool_decide_eq_false_2.
Qed.

Lemma find_upsert_match li q cid data l :
  record_id data = Some cid →
  record_matches li q data = true →
  (∀ r0, find (record_matches li q) l = Some r0 → record_id r0 = Some cid) →
  find (record_matches li q) (upsert cid data l) = Some data.
Proof.
  intros Hd Hm. induction l as [|c l IH]; intros Hfirst.
  - change (upsert cid data []) with [data]. cbn. by rewrite Hm.
  - rewrite upsert_cons. destruct (decide (record_id c = Some cid)) as [Hc|Hc]; cbn.
    + by rewrite Hm.
    + cbn in Hfirst. destruct (record_matches li q c) eqn:Hmc.
      * by destruct Hc; apply Hfirst.
      * by apply IH.
Qed.

Context (E : Env) (P : Props).

Lemma updateConsignmentShippingOption_ok w cid oid chk res :
  gw_getCheckout E (clock w) = Some chk →
  gw_fetch E (clock w) (PutShippingOption (co_id chk) cid false (Some (JStr oid)))
  = Response true (Some res) →
  CustomShipping.updateConsignmentShippingOption E cid oid w
  = (Normal res,
     with_event (EvFetch (PutShippingOption (co_id chk) cid false (Some (JStr oid)))
                   (Response true (Some res))) w).
Proof.
  intros Hco Hput.
  unfold CustomShipping.updateConsignmentShippingOption, CustomShipping.getCheckout,
    CustomShipping.fetch, CustomShipping.response_ok, CustomShipping.response_json,
    mbind, M_bind, read, try_catch.
  by rewrite Hco, Hput.
Qed.

(** The store after a selection that went through the Gateway. *)
Lemma handleShippingOptionSelect_store w o item cur cid chk res uc :
  CustomShipping.getCurrentItem P (ui w) = Some item →
  CustomShipping.getCurrentConsignment P (ui w) = Some cur →
  cw_id cur = Some cid → cid ≠ "" →
  cache_wf (ss w) →
  gw_getCheckout E (clock w) = Some chk →
  gw_fetch E (clock w)
    (PutShippingOption (co_id chk) cid false (Some (JStr (so_id o))))
  = Response true (Some res) →
  find (covers (id_toString (li_id item))) (default [] (rb_consignments res))
  = Some uc →
  ∃ w',
    CustomShipping.handleShippingOptionSelect E P (ui w) o w = (Normal tt, w')
    ∧ ss w'
      = <[Persistence.storageKey :=
            TJson (JArr (upsert (c_id uc)
                           (Persistence.consignmentData (c_id uc) (li_id item)
                              (li_quantity item)
                              (address_json <$> c_shippingAddress uc) (so_id o) None)
                           (records (ss w))))]> (ss w).
Proof.
  intros Hitem Hcur Hid Hne Hwf Hco Hput Hfind.
  unfold CustomShipping.handleShippingOptionSelect. rewrite !bind_modify.
  rewrite Hcur. destruct cur as [cid' li a so av]. cbn in Hid. subst cid'.
  rewrite bool_decide_eq_false_2 by done.
  set (w2 := setIsLoading true (setSelectedShippingOption (Some o) w)).
  unfold finally, try_catch, CustomShipping.selectOptionRemotely.
  assert (Hupd := updateConsignmentShippingOption_ok w2 cid (so_id o) chk res Hco Hput).
  set (w3 := with_event _ w2) in Hupd.
  rewrite bind_assoc, (bind_normal _ _ _ _ _ Hupd). cbv beta zeta.
  rewrite Hitem, Hfind.
  assert (Hwf3 : cache_wf (ss w3)) by done.
  unfold Persistence.updateStoredConsignment.
  rewrite !bind_assoc.
  rewrite (bind_normal _ _ _ _ _ (save_wf w3 _ _ _ _ _ _ Hwf3)).
  set (w4 := with_ss _ w3).
  assert (Hentry : ∃ w5,
            (match CustomShipping.updateEntryOf (li_id item)
                     (λ c, CustomShipping.withSelectedOption
                             (c_selectedShippingOption uc)
                             (CustomShipping.withId (c_id uc) c))
                     (itemConsignments (ui w)) with
             | Some newItemConsignments =>
                 modify (setItemConsignments (λ _, newItemConsignments))
             | None => mret ()
             end) w4 = (Normal tt, w5) ∧ ss w5 = ss w4).
  { destruct (CustomShipping.updateEntryOf _ _ _); by eexists. }
  destruct Hentry as (w5 & Hrun5 & Hs5).
  rewrite (bind_normal _ _ _ _ _ Hrun5).
  destruct (refreshCheckoutTotals_frame E w5) as (w6 & Hrun6 & _ & Hs6 & _).
  rewrite (bind_normal _ _ _ _ _ Hrun6).
  destruct (updateOrderSummaryDisplay_frame E w6) as (w7 & Hrun7 & _ & Hs7 & _).
  rewrite Hrun7. eexists. split; [reflexivity|].
  cbn [ss setIsLoading with_ui]. by rewrite Hs7, Hs6, Hs5.
Qed.

(** C3, amended.  Let the entry of the current item be bound to a
    consignment, let the store be written by this module alone, and let the
    Gateway accept the request to set the option [o] and list in its reply a
    consignment [uc] that covers the item.  Then the selection ends normally,
    the cache holds under the id of [uc] a record whose
    [selectedShippingOptionId] is the id of [o], and the lookup by the item's
    (lineItemId, quantity) returns that record provided that the first
    record that matched this key before, if any, was the one of [uc]. *)
Theorem selected_option_cached w o item cur cid chk res uc :
  CustomShipping.getCurrentItem P (ui w) = Some item →
  CustomShipping.getCurrentConsignment P (ui w) = Some cur →
  cw_id cur = Some cid → cid ≠ "" →
  cache_reachable w →
  gw_getCheckout E (clock w) = Some chk →
  gw_fetch E (clock w)
    (PutShippingOption (co_id chk) cid false (Some (JStr (so_id o))))
  = Response true (Some res) →
  find (covers (id_toString (li_id item))) (default [] (rb_consignments res))
  = Some uc →
  let data := Persistence.consignmentData (c_id uc) (li_id item) (li_quantity item)
                (address_json <$> c_shippingAddress uc) (so_id o) None in
  ∃ w',
    CustomShipping.handleShippingOptionSelect E P (ui w) o w = (Normal tt, w')
    ∧ optional_get (Some data) "selectedShippingOptionId" = Some (JStr (so_id o))
    ∧ Persistence.findStoredConsignmentById (c_id uc) w' = (Normal (Some data), w')
    ∧ ((∀ r0, find (record_matches (li_id item) (li_quantity item))
                (records (ss w)) = Some r0 →
              record_id r0 = Some (c_id uc)) →
       Persistence.findStoredConsignmentByLineItemId (li_id item) (li_quantity item) w'
       = (Normal (Some data), w')).
Proof.
  intros Hitem Hcur Hid Hne Hreach Hco Hput Hfind data.
  destruct (handleShippingOptionSelect_store w o item cur cid chk res uc
              Hitem Hcur Hid Hne (reachable_wf _ Hreach) Hco Hput Hfind)
    as (w' & Hrun & Hss).
  fold data in Hss.
  assert (Hwf' : cache_wf (ss w')).
  { rewrite Hss. apply cache_wf_insert. apply upsert_records; [constructor|].
    by apply cache_wf_parse, reachable_wf. }
  assert (Hrecs : records (ss w') = upsert (c_id uc) data (records (ss w))).
  { by rewrite Hss, records_insert. }
  exists w'. split; [done|]. split; [apply optional_get_optionId|]. split.
  - rewrite find_id_wf by done. by rewrite Hrecs, find_upsert_id.
  - intros Hfirst. rewrite find_lineItem_wf by done. rewrite Hrecs.
    rewrite find_upsert_match; [done|done| |done]. apply record_matches_data.
Qed.

End RoundTrip.

(** C3, as stated, fails.  In a first visit of the step the shopper picked
    [ground] for item A; the consignments were dropped, and in a second
    visit, on the same session storage, the shopper picks [express].  The
    selection succeeds, on a consignment of a new id, and the lookup by
    (lineItemId, quantity) still returns the record of the first visit. *)
Lemma stale_record_shadows_selection :
  let w := secondVisit in
  error (ui w) = None
  ∧ (cw_selectedShippingOption <$> CustomShipping.getCurrentConsignment cartAB (ui w))
    = Some (Some express)
  ∧ CallFetch (PutShippingOption "chk" "cons-13" false (Some (JStr "opt-2")))
    ∈ calls w
  ∧ (Persistence.findStoredConsignmentByLineItemId (IdStr "A") 1 w).1
    = Normal (Some (Persistence.consignmentData "cons-3" (IdStr "A") 1
                      (Some (address_json home)) "opt-9" None))
  ∧ (Persistence.findStoredConsignmentById "cons-13" w).1
    = Normal (Some (Persistence.consignmentData "cons-13" (IdStr "A") 1
                      (Some (address_json home)) "opt-2" None)).
Proof.
  vm_compute. repeat split.
  do 15 apply list_elem_of_further. apply list_elem_of_here.
Qed.

Lemma selected_option_cached_witness :
  ∃ w',
    CustomShipping.handleShippingOptionSelect servingGateway cartAB
      (ui (arrive freshWorld)) ground (arrive freshWorld) = (Normal tt, w')
    ∧ Persistence.findStoredConsignmentByLineItemId (IdStr "A") 1 w'
      = (Normal (Some (Persistence.consignmentData "cons-3" (IdStr "A") 1
                         (Some (address_json home)) "opt-9" None)), w').
Proof.
  destruct (selected_option_cached servingGateway cartAB (arrive freshWorld) ground
              itemA
              {| cw_id := Some "cons-3"; cw_lineItemId := IdStr "A";
                 cw_shippingAddress := Some home;
                 cw_selectedShippingOption := None;
                 cw_availableShippingOptions := Some [ground; express] |}
              "cons-3"
              {| co_id := "chk"; co_cartId := "cart"; co_customerMessage := "";
                 co_consignments := []; co_physicalItems := [itemA; itemB] |}
              {| rb_consignments :=
                   Some [ {| c_id := "cons-3"; c_lineItemIds := ["A"];
                             c_shippingAddress := Some home;
                             c_selectedShippingOption := Some ground;
                             c_availableShippingOptions := Some [ground; express] |} ];
                 rb_title := None; rb_error := None |}
              {| c_id := "cons-3"; c_lineItemIds := ["A"];
                 c_shippingAddress := Some home;
                 c_selectedShippingOption := Some ground;
                 c_availableShippingOptions := Some [ground; express] |})
    as (w' & Hrun & _ & _ & Hfind).
  - reflexivity.
  - reflexivity.
  - reflexivity.
  - discriminate.
  - apply (reach_same_store
             (Persistence.saveConsignmentToSession "cons-3" (IdStr "A") 1
                (Some (address_json home)) "" None freshWorld).2).
    + apply reach_save, reach_fresh. reflexivity.
    + reflexivity.
  - reflexivity.
  - reflexivity.
  - reflexivity.
  - exists w'. split; [exact Hrun|]. apply Hfind.
    intros r0 Hr0. vm_compute in Hr0. by inversion Hr0.
Defined.

(** ** C5: splitting a line item *)

Section Merge.

Lemma splitConsignments_length li q :
  length (CustomShipping.splitConsignments li q) = Z.to_nat q.
Proof. unfold CustomShipping.splitConsignments. by rewrite length_replicate. Qed.

Lemma splitConsignments_single li q :
  Forall (λ r, cr_itemId r = IdStr (id_toString li) ∧ cr_quantity r = 1)
    (CustomShipping.splitConsignments li q).
Proof.
  unfold CustomShipping.splitConsignments. apply Forall_forall.
  by intros r [-> _]%elem_of_replicate.
Qed.

Lemma splitConsignments_sum li q :
  0 ≤ q → foldr Z.add 0 (cr_quantity <$> CustomShipping.splitConsignments li q) = q.
Proof.
  intros Hq. unfold CustomShipping.splitConsignments.
  rewrite <- (Z2Nat.id q) at 2 by done.
  induction (Z.to_nat q) as [|n IH]; [done|]. cbn. rewrite IH. lia.
Qed.

Lemma mapGet_None k m : CustomShipping.mapGet k m = None ↔ k ∉ m.*1.
Proof.
  induction m as [|[k' v] m IH]; cbn.
  - split; [intros _ H; by apply elem_of_nil in H | done].
  - case_bool_decide as Hk.
    + split; [done|]. intros Hn. destruct Hn. subst. apply list_elem_of_here.
    + rewrite IH, not_elem_of_cons.
      split; [intros ?; split; [by intros ->|done] | by intros [_ ?]].
Qed.

Lemma mapSet_keys k v m :
  (CustomShipping.mapSet k v m).*1 = if decide (k ∈ m.*1) then m.*1 else m.*1 ++ [k].
Proof.
  induction m as [|[k' v'] m IH]; cbn.
  - by rewrite decide_False by (intros H; by apply elem_of_nil in H).
  - case_bool_decide as Hk.
    + subst. cbn. by rewrite decide_True by apply list_elem_of_here.
    + cbn. rewrite IH. destruct (decide (k ∈ m.*1)) as [Hin|Hin].
      * by rewrite decide_True by by apply list_elem_of_further.
      * rewrite decide_False; [done|]. rewrite not_elem_of_cons.
        split; [by intros ->|done].
Qed.

Lemma mapSet_inv k v m :
  cw_lineItemId v = default (IdStr "undefined") k →
  merge_inv m → merge_inv (CustomShipping.mapSet k v m).
Proof.
  intros Hv [Hnd Hall]. split.
  - rewrite mapSet_keys. case_decide; [done|].
    apply NoDup_app. repeat split; [done| |apply NoDup_singleton].
    by intros x Hx ->%list_elem_of_singleton.
  - clear Hnd. induction Hall as [|[k' v'] m Hkv Hall IH]; cbn.
    + by repeat constructor.
    + case_bool_decide; constructor; done.
Qed.

Lemma mergeExisting_inv m c :
  merge_inv m → merge_inv (CustomShipping.mergeExisting m c).
Proof.
  intros Hm. unfold CustomShipping.mergeExisting.
  destruct (CustomShipping.mapGet _ m); [done|]. by apply mapSet_inv.
Qed.

Lemma mergeNew_inv m c :
  merge_inv m → merge_inv (CustomShipping.mergeNew m c).
Proof.
  intros Hm. unfold CustomShipping.mergeNew. cbv zeta.
  destruct (CustomShipping.mapGet _ m); [destruct (complete _ _); [|done]|];
    by apply mapSet_inv.
Qed.

Lemma merged_inv prev new :
  merge_inv (foldl CustomShipping.mergeNew
               (foldl CustomShipping.mergeExisting [] prev) new).
Proof.
  assert (H0 : merge_inv []) by (split; constructor).
  assert (H1 : merge_inv (foldl CustomShipping.mergeExisting [] prev)).
  { revert H0. generalize ([] : CustomShipping.mergeMap).
    induction prev as [|c prev IH]; intros m Hm; [done|].
    cbn. by apply IH, mergeExisting_inv. }
  revert H1. generalize (foldl CustomShipping.mergeExisting [] prev).
  induction new as [|c new IH]; intros m Hm; [done|].
  cbn. by apply IH, mergeNew_inv.
Qed.

Lemma merge_inv_unique m k :
  k ≠ IdStr "undefined" → merge_inv m →
  (length (filter (λ e, cw_lineItemId e = k) m.*2) ≤ 1)%nat.
Proof.
  intros Hk [Hnd Hall]. revert Hnd.
  induction Hall as [|[k0 v0] m Hkv Hall IH]; intros Hnd; [cbn; lia|].
  rewrite fmap_cons in Hnd. rewrite fmap_cons, filter_cons. cbn [fst snd] in *.
  apply NoDup_cons in Hnd as [Hnot Hnd].
  destruct (decide (cw_lineItemId v0 = k)) as [Hv|Hv]; [|by apply IH].
  assert (Hk0 : k0 = Some k).
  { destruct k0 as [k0|]; cbn in Hkv; congruence. }
  subst k0. cbn.
  assert (Hnone : filter (λ e, cw_lineItemId e = k) m.*2 = []).
  { destruct (filter (λ e, cw_lineItemId e = k) m.*2) as [|e l'] eqn:Hf; [done|].
    exfalso.
    assert (He : e ∈ filter (λ e, cw_lineItemId e = k) m.*2)
      by (rewrite Hf; apply list_elem_of_here).
    apply list_elem_of_filter in He as [He ([k1 v1] & -> & Hin)%list_elem_of_fmap].
    cbn in He. eapply Forall_forall in Hall; [|exact Hin]. cbn in Hall.
    apply Hnot. apply list_elem_of_fmap. exists (k1, v1). split; [|done]. cbn.
    destruct k1 as [k1|]; cbn in Hall; congruence. }
  by rewrite Hnone.
Qed.

(** After the merge there is at most one entry for a line item. *)
Lemma mergeConsignments_unique prev new k :
  k ≠ IdStr "undefined" →
  (length (filter (λ e, cw_lineItemId e = k)
             (CustomShipping.mergeConsignments prev new)) ≤ 1)%nat.
Proof.
  intros Hk. unfold CustomShipping.mergeConsignments.
  change (map snd ?m) with (m.*2). apply merge_inv_unique; [done|].
  apply merged_inv.
Qed.

Lemma mapSet_keys_incl k v m k' :
  k' ∈ m.*1 → k' ∈ (CustomShipping.mapSet k v m).*1.
Proof.
  intros Hin. rewrite mapSet_keys. case_decide; [done|].
  apply elem_of_app. by left.
Qed.

Lemma mapSet_keys_new k v m : k ∈ (CustomShipping.mapSet k v m).*1.
Proof.
  rewrite mapSet_keys. case_decide; [done|].
  apply elem_of_app. right. apply list_elem_of_here.
Qed.

Lemma mergeExisting_keys m c k :
  k ∈ m.*1 → k ∈ (CustomShipping.mergeExisting m c).*1.
Proof.
  intros Hin. unfold CustomShipping.mergeExisting.
  destruct (CustomShipping.mapGet _ m); [done|]. by apply mapSet_keys_incl.
Qed.

Lemma mergeNew_keys m c k :
  k ∈ m.*1 → k ∈ (CustomShipping.mergeNew m c).*1.
Proof.
  intros Hin. unfold CustomShipping.mergeNew. cbv zeta.
  destruct (CustomShipping.mapGet _ m); [destruct (complete _ _); [|done]|];
    by apply mapSet_keys_incl.
Qed.

Lemma foldl_mergeExisting_keys prev m k :
  k ∈ m.*1 → k ∈ (foldl CustomShipping.mergeExisting m prev).*1.
Proof.
  revert m. induction prev as [|c prev IH]; intros m Hin; [done|].
  cbn. by apply IH, mergeExisting_keys.
Qed.

Lemma foldl_mergeNew_keys new m k :
  k ∈ m.*1 → k ∈ (foldl CustomShipping.mergeNew m new).*1.
Proof.
  revert m. induction new as [|c new IH]; intros m Hin; [done|].
  cbn. by apply IH, mergeNew_keys.
Qed.

Lemma foldl_mergeExisting_covers prev m e :
  e ∈ prev → Some (cw_lineItemId e) ∈ (foldl CustomShipping.mergeExisting m prev).*1.
Proof.
  revert m. induction prev as [|c prev IH]; intros m Hin.
  - by apply elem_of_nil in Hin.
  - cbn. apply elem_of_cons in Hin as [->|Hin]; [|by apply IH].
    apply foldl_mergeExisting_keys. unfold CustomShipping.mergeExisting.
    destruct (CustomShipping.mapGet _ m) eqn:Hget.
    + destruct (decide (Some (cw_lineItemId c) ∈ m.*1)) as [|Hn]; [done|].
      apply mapGet_None in Hn. congruence.
    + apply mapSet_keys_new.
Qed.

(** The merge keeps an entry for every line item that had one. *)
Lemma mergeConsignments_keeps prev new e :
  e ∈ prev →
  ∃ e', e' ∈ CustomShipping.mergeConsignments prev new
        ∧ cw_lineItemId e' = cw_lineItemId e.
Proof.
  intros Hin. unfold CustomShipping.mergeConsignments.
  pose proof (merged_inv prev new) as [_ Hall].
  pose proof (foldl_mergeNew_keys new _ _
                (foldl_mergeExisting_covers prev [] e Hin)) as Hk.
  apply list_elem_of_fmap in Hk as ([k v] & Hkv & Hm). cbn in Hkv. subst k.
  exists v. split.
  - change (map snd ?m) with (m.*2). apply list_elem_of_fmap. by exists (Some (cw_lineItemId e), v).
  - eapply Forall_forall in Hall; [|exact Hm]. done.
Qed.

End Merge.

Section SplitLaw.

Context (E : Env) (P : Props).

Lemma bind_keep {A B C} (f : World → C) (m : M A) (k : A → M B)
    (Q : outcome B * World → Prop) w :
  preserves f m →
  (∀ a w1, f w1 = f w → Q (k a w1)) →
  (∀ e w1, f w1 = f w → Q (Thrown e, w1)) →
  Q ((m ≫= k) w).
Proof.
  intros Hm Hk He. unfold mbind, M_bind. specialize (Hm w).
  destruct (m w) as [[a|e] w1]; cbn in Hm; auto.
Qed.

Lemma fetch_events req w :
  events (CustomShipping.fetch E req w).2
  = events w ++ [EvFetch req (gw_fetch E (clock w) req)].
Proof. unfold CustomShipping.fetch. by destruct (gw_fetch E (clock w) req). Qed.

(** The first call of a split is the request for [quantity] consignments. *)
Lemma handleSplitLineItem_request s li q w chk item :
  1 < q →
  gw_getCheckout E (clock w) = Some chk →
  find (λ item, id_strict_eq (li_id item) li) (physicalItems P) = Some item →
  ∃ reply evs,
    events (CustomShipping.handleSplitLineItem E P s li q w).2
    = events w
      ++ EvFetch (PostConsignments (co_id chk) (CustomShipping.splitConsignments li q))
           reply :: evs.
Proof.
  intros Hq Hco Hfind. unfold CustomShipping.handleSplitLineItem.
  rewrite bool_decide_eq_false_2 by lia. rewrite bind_modify.
  unfold finally, try_catch. unfold CustomShipping.getCheckout at 1.
  rewrite bind_read. cbn [clock setIsLoading with_ui]. rewrite Hco, Hfind.
  match goal with
  | |- context [mbind ?k (CustomShipping.fetch E ?r) ?w0] =>
      set (K := k); set (w2 := w0); set (req := r)
  end.
  assert (HK : ∀ r, emits anyEvent (K r)).
  { intros r. subst K. cbv beta.
    pose proof (restoreConsignment_grows E) as Hrestore.
    unfold CustomShipping.restoreSplitItem, CustomShipping.storeSplitConsignment,
      CustomShipping.refreshCheckoutTotals.
    emit; done. }
  pose proof (fetch_events req w2) as Hev3.
  destruct (CustomShipping.fetch E req w2) as [[r|e] w3] eqn:Hf; cbn [snd] in Hev3.
  - rewrite (bind_normal _ _ _ _ _ Hf). destruct (HK r w3) as (evs & Hev & _).
    destruct (K r w3) as [[[]|e] w4]; cbn [snd] in Hev;
      [|rewrite bind_modify; unfold CustomShipping.onUnhandledError, modify];
      cbn; eexists _, evs; rewrite Hev, Hev3; subst w2; cbn;
      by rewrite <- app_assoc.
  - rewrite (bind_thrown _ _ _ _ _ Hf). rewrite bind_modify.
    unfold CustomShipping.onUnhandledError, modify. cbn.
    eexists _, []. by rewrite Hev3.
Qed.

(** What a split does to the entries: nothing, or the merge. *)
Lemma handleSplitLineItem_entries s li q w :
  let w' := (CustomShipping.handleSplitLineItem E P s li q w).2 in
  itemConsignments (ui w') = itemConsignments (ui w)
  ∨ ∃ new, itemConsignments (ui w')
           = CustomShipping.mergeConsignments (itemConsignments (ui w)) new.
Proof.
  cbv zeta. unfold CustomShipping.handleSplitLineItem.
  destruct (bool_decide (q ≤ 1)); [by left|].
  rewrite bind_modify. unfold finally, try_catch.
  match goal with |- context [(mbind ?k ?m) ?w0] => pattern ((mbind k m) w0) end.
  match goal with |- ?Q0 _ => set (Q := Q0) end.
  assert (Hthrow : ∀ e w1,
            itemConsignments (ui w1) = itemConsignments (ui w) → Q (Thrown e, w1)).
  { intros e w1 H1. subst Q. cbn. by left. }
  assert (Hnorm : ∀ w1 new,
            itemConsignments (ui w1)
            = CustomShipping.mergeConsignments (itemConsignments (ui w)) new →
            Q (Normal tt, w1)).
  { intros w1 new H1. subst Q. cbn. right. by exists new. }
  clearbody Q.
  apply (bind_keep (λ w, itemConsignments (ui w))); [frame| |by apply Hthrow].
  intros [chk|] w1 H1; [|by apply Hthrow]. cbn in H1.
  destruct (find _ (physicalItems P)) as [item|]; [|by apply Hthrow].
  apply (bind_keep (λ w, itemConsignments (ui w))); [frame| |intros; apply Hthrow; congruence].
  intros response w2 H2.
  apply (bind_keep (λ w, itemConsignments (ui w))); [frame| |intros; apply Hthrow; congruence].
  intros _ w3 H3.
  apply (bind_keep (λ w, itemConsignments (ui w))); [frame| |intros; apply Hthrow; congruence].
  intros result w4 H4.
  apply (bind_keep (λ w, itemConsignments (ui w)));
    [unfold CustomShipping.restoreSplitItem, CustomShipping.restoreConsignment; frame
    | |intros; apply Hthrow; congruence].
  intros _ w5 H5.
  apply (bind_keep (λ w, itemConsignments (ui w))); [frame| |intros; apply Hthrow; congruence].
  intros checkoutResponse w6 H6.
  apply (bind_keep (λ w, itemConsignments (ui w))); [frame| |intros; apply Hthrow; congruence].
  intros checkoutResult w7 H7.
  apply (bind_keep (λ w, itemConsignments (ui w))); [frame| |intros; apply Hthrow; congruence].
  intros _ w8 H8.
  apply (bind_keep (λ w, itemConsignments (ui w)));
    [unfold CustomShipping.storeSplitConsignment; frame
    | |intros; apply Hthrow; congruence].
  intros _ w9 H9. rewrite !bind_modify.
  match goal with
  | |- Q (CustomShipping.refreshCheckoutTotals E ?w0) =>
      destruct (refreshCheckoutTotals_frame E w0) as (w10 & -> & Hui & _)
  end.
  apply (Hnorm _ (default [] (rb_consignments checkoutResult))).
  rewrite Hui. cbn. congruence.
Qed.

Lemma bind_getCheckout {B} (k : option Checkout → M B) w :
  (CustomShipping.getCheckout E ≫= k) w = k (gw_getCheckout E (clock w)) w.
Proof. reflexivity. Qed.

Lemma giftMessages_length q :
  length (MiddlewareVariant.giftMessages q) = Z.to_nat q.
Proof. unfold MiddlewareVariant.giftMessages. by rewrite length_map, length_seq. Qed.

Lemma entryOfUpdated_ids cs items :
  cw_lineItemId <$> map (MiddlewareVariant.entryOfUpdated cs) items = li_id <$> items.
Proof. induction items as [|i items IH]; [done|]. cbn. by f_equal. Qed.

(** The first call of the middleware variant. *)
Lemma middleware_split_request li q w chk item :
  1 < q →
  gw_getCheckout E (clock w) = Some chk →
  find (λ item, id_strict_eq (li_id item) li) (physicalItems P) = Some item →
  ∃ reply evs,
    events (MiddlewareVariant.handleSplitLineItem E P li q w).2
    = events w
      ++ EvFetch (PostMiddlewareSplit (co_cartId chk) li q (li_productId item)
                    (li_variantId item) (MiddlewareVariant.giftMessages q))
           reply :: evs.
Proof.
  intros Hq Hco Hfind. unfold MiddlewareVariant.handleSplitLineItem.
  rewrite bool_decide_eq_false_2 by lia. rewrite bind_modify.
  unfold finally, try_catch. rewrite bind_getCheckout.
  cbn [clock setIsLoading with_ui]. rewrite Hco, Hfind.
  match goal with
  | |- context [mbind ?k (CustomShipping.fetch E ?r) ?w0] =>
      set (K := k); set (w2 := w0); set (req := r)
  end.
  assert (HK : ∀ r, emits anyEvent (K r)).
  { intros r. subst K. cbv beta. unfold CustomShipping.refreshCheckoutTotals.
    emit; done. }
  pose proof (fetch_events req w2) as Hev3.
  destruct (CustomShipping.fetch E req w2) as [[r|e] w3] eqn:Hf; cbn [snd] in Hev3.
  - rewrite (bind_normal _ _ _ _ _ Hf). destruct (HK r w3) as (evs & Hev & _).
    destruct (K r w3) as [[[]|e] w4]; cbn [snd] in Hev;
      [|rewrite bind_modify; unfold CustomShipping.onUnhandledError, modify];
      cbn; eexists _, evs; rewrite Hev, Hev3; subst w2; cbn;
      by rewrite <- app_assoc.
  - rewrite (bind_thrown _ _ _ _ _ Hf). rewrite bind_modify.
    unfold CustomShipping.onUnhandledError, modify. cbn.
    eexists _, []. by rewrite Hev3.
Qed.

(** What the middleware variant does to the entries: nothing, or one entry
    for each physical item of the reloaded cart. *)
Lemma middleware_split_entries li q w :
  let w' := (MiddlewareVariant.handleSplitLineItem E P li q w).2 in
  itemConsignments (ui w') = itemConsignments (ui w)
  ∨ ∃ updated,
      itemConsignments (ui w')
      = map (MiddlewareVariant.entryOfUpdated (co_consignments updated))
          (co_physicalItems updated).
Proof.
  cbv zeta. unfold MiddlewareVariant.handleSplitLineItem.
  destruct (bool_decide (q ≤ 1)); [by left|].
  rewrite bind_modify. unfold finally, try_catch.
  match goal with |- context [(mbind ?k ?m) ?w0] => pattern ((mbind k m) w0) end.
  match goal with |- ?Q0 _ => set (Q := Q0) end.
  assert (Hthrow : ∀ e w1,
            itemConsignments (ui w1) = itemConsignments (ui w) → Q (Thrown e, w1)).
  { intros e w1 H1. subst Q. cbn. by left. }
  assert (Hkeep : ∀ w1,
            itemConsignments (ui w1) = itemConsignments (ui w) → Q (Normal tt, w1)).
  { intros w1 H1. subst Q. cbn. by left. }
  assert (Hnorm : ∀ w1 updated,
            itemConsignments (ui w1)
            = map (MiddlewareVariant.entryOfUpdated (co_consignments updated))
                (co_physicalItems updated) →
            Q (Normal tt, w1)).
  { intros w1 updated H1. subst Q. cbn. right. by exists updated. }
  clearbody Q.
  apply (bind_keep (λ w, itemConsignments (ui w))); [frame| |by apply Hthrow].
  intros [chk|] w1 H1; [|by apply Hkeep]. cbn in H1.
  destruct (find _ (physicalItems P)) as [item|]; [|by apply Hthrow].
  apply (bind_keep (λ w, itemConsignments (ui w))); [frame| |intros; apply Hthrow; congruence].
  intros response w2 H2.
  apply (bind_keep (λ w, itemConsignments (ui w))); [frame| |intros; apply Hthrow; congruence].
  intros _ w3 H3.
  apply (bind_keep (λ w, itemConsignments (ui w))); [frame| |intros; apply Hthrow; congruence].
  intros _ w4 H4.
  apply (bind_keep (λ w, itemConsignments (ui w))); [frame| |intros; apply Hthrow; congruence].
  intros [updated|] w5 H5; [|apply Hthrow; congruence].
  rewrite !bind_modify.
  match goal with
  | |- Q (CustomShipping.refreshCheckoutTotals E ?w0) =>
      destruct (refreshCheckoutTotals_frame E w0) as (w10 & -> & Hui & _)
  end.
  apply (Hnorm _ updated). by rewrite Hui.
Qed.

End SplitLaw.

(** C5, as stated, fails.  On the cart [A (1), B (3)] the shopper splits B
    into 3.  The Gateway is asked for three consignments of one unit of B and
    lists them; the split ends without error, and the entries are what they
    were: one entry for B, the original one, and none added. *)
Lemma split_keeps_one_entry :
  let w := beforeSplit in
  let w' := act (λ s, CustomShipping.handleSplitLineItem noOptionsGateway cartAB s
                        (IdStr "B") 3) w in
  li_quantity itemB = 3
  ∧ error (ui w') = None
  ∧ CallFetch (PostConsignments "chk" (CustomShipping.splitConsignments (IdStr "B") 3))
    ∈ calls w'
  ∧ itemConsignments (ui w') = itemConsignments (ui w)
  ∧ filter (λ e, cw_lineItemId e = IdStr "B") (itemConsignments (ui w'))
    = [freshEntry (IdStr "B")].
Proof.
  vm_compute. repeat split.
  repeat first [apply list_elem_of_here | apply list_elem_of_further].
Qed.

(** C5, amended.  A split with a quantity of at most 1 does nothing, in both
    variants.  With a larger quantity [q], the checkout at hand and the item
    in the cart, the first call is the request: to the Gateway, for [q]
    consignments of one unit of the item each, [q] units in all; in the
    middleware variant, to the middleware, with [q] gift messages.  In the
    entries of the component every line item that had an entry has one
    still, and a line item that had at most one entry has at most one; in
    the middleware variant the entries stay as they are, or become one entry
    for each physical item of the reloaded cart, in the order of the cart. *)
Theorem split_law E P s li q w :
  let w' := (CustomShipping.handleSplitLineItem E P s li q w).2 in
  let wm := (MiddlewareVariant.handleSplitLineItem E P li q w).2 in
  let reqs := CustomShipping.splitConsignments li q in
  (q ≤ 1 →
   CustomShipping.handleSplitLineItem E P s li q w = (Normal tt, w)
   ∧ MiddlewareVariant.handleSplitLineItem E P li q w = (Normal tt, w))
  ∧ (1 < q →
     length reqs = Z.to_nat q
     ∧ Forall (λ r, cr_itemId r = IdStr (id_toString li) ∧ cr_quantity r = 1) reqs
     ∧ foldr Z.add 0 (cr_quantity <$> reqs) = q
     ∧ length (MiddlewareVariant.giftMessages q) = Z.to_nat q
     ∧ (∀ chk item,
          gw_getCheckout E (clock w) = Some chk →
          find (λ item, id_strict_eq (li_id item) li) (physicalItems P) = Some item →
          (∃ reply evs,
             events w'
             = events w ++ EvFetch (PostConsignments (co_id chk) reqs) reply :: evs)
          ∧ (∃ reply evs,
               events wm
               = events w
                 ++ EvFetch (PostMiddlewareSplit (co_cartId chk) li q
                               (li_productId item) (li_variantId item)
                               (MiddlewareVariant.giftMessages q)) reply :: evs)))
  ∧ (∀ e, e ∈ itemConsignments (ui w) →
          ∃ e', e' ∈ itemConsignments (ui w') ∧ cw_lineItemId e' = cw_lineItemId e)
  ∧ (∀ k, k ≠ IdStr "undefined" →
          (length (filter (λ e, cw_lineItemId e = k) (itemConsignments (ui w))) ≤ 1)%nat →
          (length (filter (λ e, cw_lineItemId e = k) (itemConsignments (ui w'))) ≤ 1)%nat)
  ∧ (itemConsignments (ui wm) = itemConsignments (ui w)
     ∨ ∃ updated,
         itemConsignments (ui wm)
         = map (MiddlewareVariant.entryOfUpdated (co_consignments updated))
             (co_physicalItems updated)
         ∧ cw_lineItemId <$> itemConsignments (ui wm)
           = li_id <$> co_physicalItems updated).
Proof.
  intros w' wm reqs. split; [|split; [|split; [|split]]].
  - intros Hq. unfold CustomShipping.handleSplitLineItem,
      MiddlewareVariant.handleSplitLineItem.
    by rewrite !bool_decide_eq_true_2.
  - intros Hq. split; [apply splitConsignments_length|].
    split; [apply splitConsignments_single|].
    split; [apply splitConsignments_sum; lia|].
    split; [apply giftMessages_length|].
    intros chk item Hco Hfind. split.
    + by apply (handleSplitLineItem_request E P s li q w chk item).
    + by apply (middleware_split_request E P li q w chk item).
  - intros e He.
    destruct (handleSplitLineItem_entries E P s li q w) as [Heq|[new Heq]];
      fold w' in Heq; rewrite Heq.
    + by exists e.
    + by apply mergeConsignments_keeps.
  - intros k Hk Hone.
    destruct (handleSplitLineItem_entries E P s li q w) as [Heq|[new Heq]];
      fold w' in Heq; rewrite Heq; [done|].
    by apply mergeConsignments_unique.
  - destruct (middleware_split_entries E P li q w) as [Heq|[updated Heq]];
      fold wm in Heq; [by left|].
    right. exists updated. split; [done|]. rewrite Heq.
    apply entryOfUpdated_ids.
Qed.

Lemma split_law_witness :
  let w' := (CustomShipping.handleSplitLineItem noOptionsGateway cartAB
               (ui beforeSplit) (IdStr "B") 3 beforeSplit).2 in
  (∃ reply evs,
     events w'
     = events beforeSplit
       ++ EvFetch (PostConsignments "chk"
                     (CustomShipping.splitConsignments (IdStr "B") 3)) reply :: evs)
  ∧ (length (filter (λ e, cw_lineItemId e = IdStr "B") (itemConsignments (ui w')))
     ≤ 1)%nat.
Proof.
  destruct (split_law noOptionsGateway cartAB (ui beforeSplit) (IdStr "B") 3
              beforeSplit) as (_ & Hsplit & _ & Hone & _).
  destruct Hsplit as (_ & _ & _ & _ & Hreq); [lia|].
  split.
  - apply (Hreq {| co_id := "chk"; co_cartId := "cart"; co_customerMessage := "";
                   co_consignments := []; co_physicalItems := [itemA; itemB] |}
             itemB); reflexivity.
  - apply Hone; [discriminate|]. vm_compute. lia.
Defined.

(** * Further properties of the code *)

(** ** The cache as a map from consignment ids *)

Section CacheMap.

Lemma find_upsert_other cid k data l :
  record_id data = Some cid → k ≠ cid →
  find (λ c, bool_decide (record_id c = Some k)) (upsert cid data l)
  = find (λ c, bool_decide (record_id c = Some k)) l.
Proof.
  intros Hd Hk. induction l as [|c l IH].
  - change (upsert cid data []) with [data]. cbn.
    rewrite bool_decide_eq_false_2; [done|]. rewrite Hd. congruence.
  - rewrite upsert_cons. destruct (decide (record_id c = Some cid)) as [Hc|Hc]; cbn.
    + rewrite !bool_decide_eq_false_2; [done| |]; rewrite ?Hd, ?Hc; congruence.
    + by rewrite IH.
Qed.

Lemma find_purge_other cid k l :
  k ≠ cid →
  find (λ c, bool_decide (record_id c = Some k)) (purge cid l)
  = find (λ c, bool_decide (record_id c = Some k)) l.
Proof.
  intros Hk. unfold purge. induction l as [|c l IH]; [done|].
  rewrite filter_cons. destruct (decide (record_id c ≠ Some cid)) as [Hc|Hc]; cbn.
  - by rewrite IH.
  - rewrite IH. rewrite bool_decide_eq_false_2; [done|].
    intros Hck. apply Hc. rewrite Hck. congruence.
Qed.

(** X1.  On a store written by this module alone, a lookup by consignment
    id after [saveConsignmentToSession] returns the record just saved for
    the id saved, and what it returned before for every other id. *)
Theorem lookup_after_save w cid li q a o d k :
  cache_reachable w →
  let w' := (Persistence.saveConsignmentToSession cid li q a o d w).2 in
  Persistence.findStoredConsignmentById k w'
  = (if decide (k = cid)
     then Normal (Some (Persistence.consignmentData cid li q a o d))
     else (Persistence.findStoredConsignmentById k w).1,
     w').
Proof.
  intros Hreach w'. pose proof (reachable_wf _ Hreach) as Hwf.
  assert (Hwf' : cache_wf (ss w')).
  { apply (reachable_wf w'). by apply reach_save. }
  rewrite find_id_wf by done. rewrite (find_id_wf w) by done. cbn [fst].
  subst w'. rewrite (save_wf _ _ _ _ _ _ _ Hwf). cbn [snd ss with_ss].
  rewrite records_insert. f_equal.
  destruct (decide (k = cid)) as [->|Hk].
  - by rewrite find_upsert_id.
  - by rewrite find_upsert_other.
Qed.

Lemma lookup_after_save_witness :
  let w' := (Persistence.saveConsignmentToSession "c-2" (IdStr "B") 1 None
               "opt-2" None sessionWithRecordForC).2 in
  Persistence.findStoredConsignmentById "cons-C" w'
  = (Normal (Some (Persistence.consignmentData "cons-C" (IdStr "C") 1
                     (Some (address_json home)) "opt-9" None)), w').
Proof.
  assert (Hreach : cache_reachable sessionWithRecordForC)
    by (apply reach_save, reach_fresh; reflexivity).
  exact (lookup_after_save sessionWithRecordForC "c-2" (IdStr "B") 1 None
           "opt-2" None "cons-C" Hreach).
Defined.

(** X2.  On a store written by this module alone, a lookup by consignment
    id after [removeStoredConsignment] returns [undefined] for the id
    removed, and what it returned before for every other id. *)
Theorem lookup_after_remove w cid k :
  cache_reachable w →
  let w' := (Persistence.removeStoredConsignment cid w).2 in
  Persistence.findStoredConsignmentById k w'
  = (if decide (k = cid) then Normal None
     else (Persistence.findStoredConsignmentById k w).1,
     w').
Proof.
  intros Hreach w'. pose proof (reachable_wf _ Hreach) as Hwf.
  assert (Hwf' : cache_wf (ss w')).
  { apply (reachable_wf w'). by apply reach_remove. }
  rewrite find_id_wf by done. rewrite (find_id_wf w) by done. cbn [fst].
  subst w'. rewrite (remove_wf _ _ Hwf). cbn [snd ss with_ss].
  rewrite records_insert. f_equal.
  destruct (decide (k = cid)) as [->|Hk].
  - rewrite find_id_absent; [done | apply purge_ids].
  - by rewrite find_purge_other.
Qed.

Lemma lookup_after_remove_witness :
  let w' := (Persistence.removeStoredConsignment "cons-C" sessionWithRecordForC).2 in
  Persistence.findStoredConsignmentById "cons-C" w' = (Normal None, w').
Proof.
  assert (Hreach : cache_reachable sessionWithRecordForC)
    by (apply reach_save, reach_fresh; reflexivity).
  exact (lookup_after_remove sessionWithRecordForC "cons-C" "cons-C" Hreach).
Defined.

End CacheMap.

(** ** A store that does not parse *)

(** X3.  When the text under the key of the cache does not parse as JSON,
    [saveConsignmentToSession] writes nothing: the store stays as it is,
    the record is dropped and one line goes to the console.
    [removeStoredConsignment] replaces the text by the empty array, and a
    save that follows it is kept. *)
Theorem unparsable_store w s cid cid' li q a o d :
  ss w !! Persistence.storageKey = Some (TGarbage s) →
  let ws := (Persistence.saveConsignmentToSession cid li q a o d w).2 in
  let wr := (Persistence.removeStoredConsignment cid' w).2 in
  let wrs := (Persistence.saveConsignmentToSession cid li q a o d wr).2 in
  ss ws = ss w
  ∧ (∃ line, console ws = console w ++ [line])
  ∧ (Persistence.findStoredConsignmentById cid ws).1 = Normal None
  ∧ ss wr = <[Persistence.storageKey := TJson (JArr [])]> (ss w)
  ∧ records (ss wrs) = [Persistence.consignmentData cid li q a o d].
Proof.
  intros Hg ws wr wrs.
  assert (Hs : Persistence.saveConsignmentToSession cid li q a o d w
               = (Normal tt,
                  with_console ("Error saving consignment to session storage: "
                                +:+ err_message
                                      (SyntaxError ("Unexpected token in JSON: " +:+ s)))
                    w)).
  { unfold Persistence.saveConsignmentToSession, Persistence.save_try. by rewrite Hg. }
  assert (Hr : Persistence.removeStoredConsignment cid' w
               = (Normal tt,
                  with_ss (λ store, <[Persistence.storageKey := TJson (JArr [])]> store)
                    (with_console
                       ("Error retrieving consignments from session storage: "
                        +:+ err_message
                              (SyntaxError ("Unexpected token in JSON: " +:+ s))) w))).
  { unfold Persistence.removeStoredConsignment, Persistence.getStoredConsignments,
      try_catch, mbind, M_bind. by rewrite Hg. }
  subst ws wr wrs. rewrite Hs, Hr. cbn [snd ss with_console with_ss console].
  split; [done|]. split; [by eexists|]. split.
  - unfold Persistence.findStoredConsignmentById, Persistence.getStoredConsignments,
      mbind, M_bind. cbn [ss with_console]. by rewrite Hg.
  - split; [done|]. rewrite save_wf.
    + cbn [snd ss with_ss with_console]. rewrite records_insert.
      unfold records. by rewrite lookup_insert_eq.
    + apply cache_wf_insert. constructor.
Qed.

Lemma unparsable_store_witness :
  ss (Persistence.saveConsignmentToSession "c-1" (IdStr "A") 1 None "opt-1" None
        garbageStoreWorld).2 = ss garbageStoreWorld.
Proof.
  apply (unparsable_store garbageStoreWorld "[{" "c-1" "c-1" (IdStr "A") 1 None
           "opt-1" None).
  reflexivity.
Defined.

(** ** The store of delivery dates *)

Section DeliveryDates.

Lemma has_lineItemId_entry li e :
  is_date_entry e →
  DeliveryDateStore.has_lineItemId li e = Normal (bool_decide (date_key e = Some li)).
Proof.
  intros [li' d]. unfold DeliveryDateStore.has_lineItemId. cbn.
  destruct li' as [s'|n'], li as [s|n]; cbn; f_equal;
    try (apply bool_decide_ext; split; congruence);
    by rewrite bool_decide_eq_false_2.
Qed.

Lemma date_key_entry li d :
  date_key (DeliveryDateStore.deliveryDateEntry li d) = Some li.
Proof. by destruct li. Qed.

Lemma findIndex_dates li l :
  Forall is_date_entry l →
  Persistence.findIndex (DeliveryDateStore.has_lineItemId li) l
  = Normal (fst <$> list_find (λ e, date_key e = Some li) l).
Proof.
  induction 1 as [|e l He _ IH]; [done|]. cbn [Persistence.findIndex list_find].
  rewrite (has_lineItemId_entry _ _ He).
  destruct (decide (date_key e = Some li)) as [Hk|Hk].
  - by rewrite bool_decide_eq_true_2.
  - rewrite bool_decide_eq_false_2 by done. rewrite IH.
    by destruct (list_find _ l) as [[i e']|].
Qed.

Lemma upsert_date_cons li entry e l :
  upsert_date li entry (e :: l)
  = if decide (date_key e = Some li) then entry :: l
    else e :: upsert_date li entry l.
Proof.
  unfold upsert_date. cbn [list_find]. case_decide; [done|].
  by destruct (list_find _ l) as [[i e']|].
Qed.

Lemma upsert_date_other li entry k l :
  date_key entry = Some li → k ≠ li →
  filter (λ e, date_key e = Some k) (upsert_date li entry l)
  = filter (λ e, date_key e = Some k) l.
Proof.
  intros He Hk. induction l as [|e l IH].
  - change (upsert_date li entry []) with [entry].
    rewrite filter_cons, decide_False; [done|]. rewrite He. congruence.
  - rewrite upsert_date_cons. destruct (decide (date_key e = Some li)) as [Hl|Hl].
    + rewrite !filter_cons, !decide_False; [done| |]; rewrite ?He, ?Hl; congruence.
    + rewrite !filter_cons. case_decide; by rewrite IH.
Qed.

Lemma upsert_date_keys li entry l :
  date_key entry = Some li →
  date_key <$> upsert_date li entry l
  = if decide (Some li ∈ date_key <$> l) then date_key <$> l
    else (date_key <$> l) ++ [Some li].
Proof.
  intros He. induction l as [|e l IH].
  - change (upsert_date li entry []) with [entry]. cbn.
    rewrite decide_False by (intros H; by apply elem_of_nil in H). by rewrite He.
  - rewrite upsert_date_cons. destruct (decide (date_key e = Some li)) as [Hl|Hl].
    + rewrite !fmap_cons, He, Hl.
      by rewrite decide_True by apply list_elem_of_here.
    + rewrite !fmap_cons, IH. destruct (decide (Some li ∈ date_key <$> l)) as [Hin|Hin].
      * by rewrite decide_True by by apply list_elem_of_further.
      * rewrite decide_False; [done|]. rewrite not_elem_of_cons. split; congruence.
Qed.

Lemma upsert_date_one li entry l :
  date_key entry = Some li →
  NoDup (date_key <$> l) →
  filter (λ e, date_key e = Some li) (upsert_date li entry l) = [entry].
Proof.
  intros He. induction l as [|e l IH]; intros Hnd.
  - change (upsert_date li entry []) with [entry].
    by rewrite filter_cons, decide_True.
  - rewrite fmap_cons in Hnd. apply NoDup_cons in Hnd as [Hnot Hnd].
    rewrite upsert_date_cons. destruct (decide (date_key e = Some li)) as [Hl|Hl].
    + rewrite filter_cons, decide_True by done. f_equal.
      destruct (filter (λ e0, date_key e0 = Some li) l) as [|e1 l1] eqn:Hf; [done|].
      exfalso. apply Hnot. rewrite Hl.
      assert (H1 : e1 ∈ filter (λ e0, date_key e0 = Some li) l)
        by (rewrite Hf; apply list_elem_of_here).
      apply list_elem_of_filter in H1 as [H1 Hin]. rewrite <- H1.
      by apply list_elem_of_fmap_2.
    + rewrite filter_cons, decide_False by done. by apply IH.
Qed.

Lemma dates_wf_parse store :
  dates_wf store →
  Persistence.parse_or_empty (store !! DeliveryDateStore.storageKey)
  = Normal (JArr (dates store))
  ∧ Forall is_date_entry (dates store).
Proof. unfold dates. intros [-> | (l & -> & Hl)]; by split. Qed.

(** The save on a store of entries. *)
Lemma saveDeliveryDate_wf w li d :
  dates_wf (ss w) →
  DeliveryDateStore.saveDeliveryDateToSession li d w
  = (Normal tt,
     with_ss (λ _, <[DeliveryDateStore.storageKey :=
                       TJson (JArr (upsert_date li
                                      (DeliveryDateStore.deliveryDateEntry li d)
                                      (dates (ss w))))]> (ss w)) w).
Proof.
  intros [Hp Hl]%dates_wf_parse.
  unfold DeliveryDateStore.saveDeliveryDateToSession, DeliveryDateStore.save_try.
  rewrite Hp. cbn [as_array]. rewrite (findIndex_dates _ _ Hl).
  unfold upsert_date. by destruct (list_find _ (dates (ss w))) as [[i e]|].
Qed.

(** X4.  On a store whose delivery dates were written by
    [saveDeliveryDateToSession] alone, a save leaves the cache of
    consignments and the console alone; the dates saved for the other line
    items stay as they are; and when no line item had two entries, the line
    item saved has exactly one, with the date saved, and no line item has
    two.  Line items are told apart by [===]: the number [5] and the string
    ["5"] are two of them. *)
Theorem delivery_date_saved w li d :
  dates_wf (ss w) →
  let w' := (DeliveryDateStore.saveDeliveryDateToSession li d w).2 in
  dates_wf (ss w')
  ∧ ss w' !! Persistence.storageKey = ss w !! Persistence.storageKey
  ∧ console w' = console w
  ∧ (∀ k, k ≠ li →
       filter (λ e, date_key e = Some k) (dates (ss w'))
       = filter (λ e, date_key e = Some k) (dates (ss w)))
  ∧ (NoDup (date_key <$> dates (ss w)) →
     filter (λ e, date_key e = Some li) (dates (ss w'))
     = [DeliveryDateStore.deliveryDateEntry li d]
     ∧ NoDup (date_key <$> dates (ss w'))).
Proof.
  intros Hwf w'. subst w'. rewrite (saveDeliveryDate_wf _ _ _ Hwf).
  cbn [snd ss with_ss console].
  apply dates_wf_parse in Hwf as [_ Hl].
  assert (Hd : dates (<[DeliveryDateStore.storageKey :=
                          TJson (JArr (upsert_date li
                                         (DeliveryDateStore.deliveryDateEntry li d)
                                         (dates (ss w))))]> (ss w))
               = upsert_date li (DeliveryDateStore.deliveryDateEntry li d)
                   (dates (ss w))).
  { unfold dates at 1. by rewrite lookup_insert_eq. }
  rewrite Hd. split; [|split; [|split; [done|split]]].
  - right. eexists. rewrite lookup_insert_eq. split; [done|].
    clear Hd. induction Hl as [|e l He Hl IH].
    + by repeat constructor.
    + rewrite upsert_date_cons. case_decide; by constructor.
  - by rewrite lookup_insert_ne.
  - intros k Hk. apply upsert_date_other; [apply date_key_entry | done].
  - intros Hnd. split.
    + apply upsert_date_one; [apply date_key_entry | done].
    + rewrite upsert_date_keys by apply date_key_entry. case_decide; [done|].
      apply NoDup_app. repeat split; [done| |apply NoDup_singleton].
      by intros x Hx ->%list_elem_of_singleton.
Qed.

Lemma delivery_date_saved_witness :
  let w1 := (DeliveryDateStore.saveDeliveryDateToSession (IdNum 5)
               (JStr "2025-01-02") freshWorld).2 in
  let w2 := (DeliveryDateStore.saveDeliveryDateToSession (IdStr "5")
               (JStr "2025-03-04") w1).2 in
  filter (λ e, date_key e = Some (IdNum 5)) (dates (ss w2))
  = filter (λ e, date_key e = Some (IdNum 5)) (dates (ss w1)).
Proof.
  intros w1 w2.
  apply (delivery_date_saved w1 (IdStr "5") (JStr "2025-03-04")).
  - right. eexists. split; [reflexivity|]. repeat constructor.
  - discriminate.
Defined.

End DeliveryDates.

(** ** The final continue *)

Section FinalContinue.

Context (E : Env) (P : Props).

Lemma refreshCheckoutTotals_calls :
  emits isGatewayCall (CustomShipping.refreshCheckoutTotals E).
Proof. unfold CustomShipping.refreshCheckoutTotals. emit; done. Qed.

Lemma updateOrderSummaryDisplay_calls :
  emits isGatewayCall (CustomShipping.updateOrderSummaryDisplay E).
Proof. unfold CustomShipping.updateOrderSummaryDisplay. emit; done. Qed.

(** X5.  [handleFinalContinue] does nothing while the component is loading.
    Otherwise it resolves and calls [navigateNextStep] exactly once, with
    [isBillingSameAsShipping], as its last call, after the calls of the two
    refreshes, whatever the Gateway answers to them; it leaves the cache,
    the entries, the configured flags and the error alone, reports nothing
    to [onUnhandledError], and ends with [isLoading] false. *)
Theorem final_continue_navigates_once s w :
  let r := Shell.handleFinalContinue E P s w in
  r.1 = Normal tt
  ∧ (if isLoading s then r.2 = w
     else
       (∃ evs,
          events r.2
          = events w ++ evs ++ [EvNavigateNextStep (isBillingSameAsShipping P)]
          ∧ Forall isGatewayCall evs)
       ∧ ss r.2 = ss w
       ∧ unhandled r.2 = unhandled w
       ∧ error (ui r.2) = error (ui w)
       ∧ itemConsignments (ui r.2) = itemConsignments (ui w)
       ∧ configuredItems (ui r.2) = configuredItems (ui w)
       ∧ isLoading (ui r.2) = false).
Proof.
  cbv zeta. unfold Shell.handleFinalContinue.
  destruct (isLoading s); [done|].
  rewrite bind_modify. unfold finally, try_catch.
  destruct (refreshCheckoutTotals_frame E (setIsLoading true w))
    as (w2 & Hr2 & Hu2 & Hs2 & Hh2).
  destruct (refreshCheckoutTotals_calls (setIsLoading true w)) as (evs2 & He2 & HQ2).
  rewrite Hr2 in He2. cbn [snd] in He2.
  rewrite (bind_normal _ _ _ _ _ Hr2).
  destruct (updateOrderSummaryDisplay_frame E w2) as (w3 & Hr3 & Hu3 & Hs3 & Hh3).
  destruct (updateOrderSummaryDisplay_calls w2) as (evs3 & He3 & HQ3).
  rewrite Hr3 in He3. cbn [snd] in He3.
  rewrite (bind_normal _ _ _ _ _ Hr3).
  unfold Shell.navigateNextStep, modify. cbn.
  split; [done|]. split.
  { exists (evs2 ++ evs3). rewrite He3, He2. cbn. rewrite <- !app_assoc.
    split; [done|]. by apply Forall_app. }
  rewrite Hu3, Hu2, Hs3, Hs2, Hh3, Hh2. by cbn.
Qed.

End FinalContinue.

(** ** What a handler leaves behind, whatever the Gateway does *)

Section Settles.

Context (E : Env) (P : Props).

Lemma guarded_settles (m : M unit) (h : js_error → M unit) w :
  (∀ e w1, (h e w1).1 = Normal tt) →
  let r := finally (try_catch m h) (setIsLoading false) w in
  r.1 = Normal tt ∧ isLoading (ui r.2) = false.
Proof.
  intros Hh. cbv zeta. unfold finally, try_catch.
  destruct (m w) as [[[]|e] w1]; [done|].
  specialize (Hh e w1). by destruct (h e w1).
Qed.

Lemma guarded_settled (m : M unit) (h : js_error → M unit) w0 w :
  (∀ e w1, (h e w1).1 = Normal tt) →
  settled false w0 (finally (try_catch m h) (setIsLoading false) w).
Proof. intros Hh. exact (guarded_settles m h w Hh). Qed.

Lemma initConsignments_settled w :
  settled (bool_decide (physicalItems P = [])) w
    (CustomShipping.initConsignments E P w).
Proof.
  unfold CustomShipping.initConsignments.
  destruct (physicalItems P); [done|].
  rewrite bool_decide_eq_false_2 by done.
  rewrite bind_modify. by apply guarded_settled.
Qed.

Lemma handleAddressSelect_settled s a w :
  settled (CustomShipping.addressRejected E a) w
    (CustomShipping.handleAddressSelect E P s a w).
Proof.
  unfold CustomShipping.handleAddressSelect.
  destruct (CustomShipping.addressRejected E a); [done|].
  rewrite !bind_modify. by apply guarded_settled.
Qed.

Lemma handleShippingOptionSelect_settled s o w :
  settled false w (CustomShipping.handleShippingOptionSelect E P s o w).
Proof.
  unfold CustomShipping.handleShippingOptionSelect.
  rewrite !bind_modify. by apply guarded_settled.
Qed.

Lemma handleSplitLineItem_settled s li q w :
  settled (bool_decide (q ≤ 1)) w
    (CustomShipping.handleSplitLineItem E P s li q w).
Proof.
  unfold CustomShipping.handleSplitLineItem.
  destruct (bool_decide (q ≤ 1)); [done|].
  rewrite !bind_modify. by apply guarded_settled.
Qed.

Lemma handleEditConsignment_settled s i w :
  settled (CustomShipping.isAnyItemEditing (configuredItems s)) w
    (CustomShipping.handleEditConsignment E P s i w).
Proof.
  unfold CustomShipping.handleEditConsignment.
  destruct (CustomShipping.isAnyItemEditing _); [done|].
  rewrite !bind_modify. by apply guarded_settled.
Qed.

Lemma middleware_split_settled li q w :
  settled (bool_decide (q ≤ 1)) w
    (MiddlewareVariant.handleSplitLineItem E P li q w).
Proof.
  unfold MiddlewareVariant.handleSplitLineItem.
  destruct (bool_decide (q ≤ 1)); [done|].
  rewrite !bind_modify. by apply guarded_settled.
Qed.

(** X6.  The reconciliation pass and the handlers that select an address,
    select an option, split a line item and edit an item never reject: an
    error of the Gateway, of the checkout service or of the code in their
    [try] block ends in their [catch].  Each of them leaves [isLoading] as
    it was when it returns at its guard (an empty cart; an address that is
    not valid; a quantity of at most one; an item still being edited), and
    false in every other case; the selection of an option has no guard. *)
Theorem handlers_settle s w a o li q i :
  settled (bool_decide (physicalItems P = [])) w
    (CustomShipping.initConsignments E P w)
  ∧ settled (CustomShipping.addressRejected E a) w
      (CustomShipping.handleAddressSelect E P s a w)
  ∧ settled false w (CustomShipping.handleShippingOptionSelect E P s o w)
  ∧ settled (bool_decide (q ≤ 1)) w
      (CustomShipping.handleSplitLineItem E P s li q w)
  ∧ settled (CustomShipping.isAnyItemEditing (configuredItems s)) w
      (CustomShipping.handleEditConsignment E P s i w)
  ∧ settled (bool_decide (q ≤ 1)) w
      (MiddlewareVariant.handleSplitLineItem E P li q w).
Proof.
  split; [apply initConsignments_settled|].
  split; [apply handleAddressSelect_settled|].
  split; [apply handleShippingOptionSelect_settled|].
  split; [apply handleSplitLineItem_settled|].
  split; [apply handleEditConsignment_settled|].
  apply middleware_split_settled.
Qed.

End Settles.

(** ** [handleContinue] outside its happy path *)

Section ContinueEdges.

Context (E : Env) (P : Props).

(** X7.  [handleContinue] has no [try]: when its guards pass and the reload
    of the checkout fails, it rejects with that error, and nothing was
    marked, moved or reported: the state of the component, the cache and
    the list of unhandled errors are as before, and the only call made is
    the reload.  When a guard fails (no address selected, or options on
    offer and none selected) it resolves, makes no call, and changes
    nothing but the error message. *)
Theorem continue_without_reload s w :
  let ready :=
    is_Some (selectedAddress s)
    ∧ (∀ c, CustomShipping.getCurrentConsignment P s = Some c →
            CustomShipping.hasOptions c = true →
            is_Some (selectedShippingOption s)) in
  let r := CustomShipping.handleContinue E P s w in
  (∀ e, ready → gw_loadCheckout E (clock w) = Some e →
        r = (Thrown e, with_event EvLoadCheckout w))
  ∧ (¬ ready →
     ∃ msg, r = (Normal tt, setError (Some msg) w)).
Proof.
  cbv zeta. unfold CustomShipping.handleContinue. split.
  - intros e [[a Ha] Hopt] Hload. rewrite Ha.
    assert (Hguard :
      (match CustomShipping.getCurrentConsignment P s with
       | Some c => CustomShipping.hasOptions c
       | None => false
       end && negb (bool_decide (is_Some (selectedShippingOption s)))) = false).
    { destruct (CustomShipping.getCurrentConsignment P s) as [c|] eqn:Hc; [|done].
      destruct (CustomShipping.hasOptions c) eqn:Ho; [|done].
      rewrite bool_decide_eq_true_2; [done|]. by eapply Hopt. }
    rewrite Hguard. apply bind_thrown.
    unfold CustomShipping.loadCheckout. by rewrite Hload.
  - intros Hnot. destruct (selectedAddress s) as [a|] eqn:Ha; [|by eexists].
    destruct (CustomShipping.getCurrentConsignment P s) as [c|] eqn:Hc.
    + destruct (CustomShipping.hasOptions c) eqn:Ho.
      * destruct (selectedShippingOption s) as [o|] eqn:Hs.
        -- destruct Hnot. split; [by eexists|]. intros c' _ _. by eexists.
        -- cbn. by eexists.
      * destruct Hnot. split; [by eexists|]. intros c' [= <-] Ho'. congruence.
    + destruct Hnot. split; [by eexists|]. by intros c' [=].
Qed.

End ContinueEdges.

Lemma continue_without_reload_witness :
  CustomShipping.handleContinue offlineEnv cartAB
    (ui (setSelectedAddress (Some home) freshWorld))
    (setSelectedAddress (Some home) freshWorld)
  = (Thrown (Error "offline"),
     with_event EvLoadCheckout (setSelectedAddress (Some home) freshWorld)).
Proof.
  apply (continue_without_reload offlineEnv cartAB
           (ui (setSelectedAddress (Some home) freshWorld))
           (setSelectedAddress (Some home) freshWorld)).
  - split; [by eexists|]. intros c Hc. discriminate Hc.
  - reflexivity.
Defined.

(** ** The selection of an address *)

Section AddressSelect.

Context (E : Env) (P : Props).

Lemma updateEntryOf_spec li f l :
  (∀ c, cw_lineItemId (f c) = cw_lineItemId c) →
  match entryOf l li with
  | Some c0 =>
      ∃ l', CustomShipping.updateEntryOf li f l = Some l'
            ∧ entryOf l' li = Some (f c0)
            ∧ (∀ k, k ≠ li → entryOf l' k = entryOf l k)
            ∧ length l' = length l
  | None => CustomShipping.updateEntryOf li f l = None
  end.
Proof.
  intros Hf. unfold CustomShipping.updateEntryOf, entryOf, id_strict_eq. cbv zeta.
  induction l as [|c l IH]; [done|]. cbn [find findIndexZ].
  destruct (decide (cw_lineItemId c = li)) as [Hc|Hc].
  - rewrite !(bool_decide_eq_true_2 (cw_lineItemId c = li)) by done.
    rewrite (bool_decide_eq_true_2 (0 ≤ 0)) by lia.
    exists (f c :: l). cbn.
    rewrite (bool_decide_eq_true_2 (cw_lineItemId (f c) = li)) by (by rewrite Hf).
    split; [done|]. split; [done|]. split; [|done].
    intros k Hk.
    rewrite (bool_decide_eq_false_2 (cw_lineItemId (f c) = k)) by (rewrite Hf; congruence).
    by rewrite (bool_decide_eq_false_2 (cw_lineItemId c = k)) by congruence.
  - rewrite !(bool_decide_eq_false_2 (cw_lineItemId c = li)) by done.
    set (i := findIndexZ (λ c1, bool_decide (cw_lineItemId c1 = li)) l) in *.
    destruct (find _ l) as [c0|] eqn:Hfind.
    + destruct IH as (l' & Hupd & Hl' & Hother & Hlen).
      destruct (bool_decide (0 ≤ i)) eqn:Hi; [|done].
      apply bool_decide_eq_true in Hi.
      rewrite (bool_decide_eq_true_2 (0 ≤ i + 1)) by lia.
      injection Hupd as <-. eexists. split; [reflexivity|].
      replace (Z.to_nat (i + 1)) with (S (Z.to_nat i)) by lia.
      cbn. rewrite (bool_decide_eq_false_2 (cw_lineItemId c = li)) by done.
      split; [done|]. split; [|by rewrite Hlen].
      intros k Hk.
      destruct (bool_decide (cw_lineItemId c = k)); [done|]. by apply Hother.
    + destruct (bool_decide (0 ≤ i)) eqn:Hi; [done|].
      by rewrite (bool_decide_eq_false_2 (0 ≤ -1)) by lia.
Qed.

Lemma createConsignment_run a item w chk :
  gw_getCheckout E (clock w) = Some chk →
  let req := addressRequest P chk a item in
  let reply := gw_fetch E (clock w) req in
  CustomShipping.createConsignment E P a (li_id item) (li_quantity item) w
  = (match refusal (addressErrorDefault P item) reply, reply with
     | None, Response _ (Some res) => Normal res
     | Some err, _ => Thrown err
     | None, _ => Thrown (Error "")
     end,
     with_event (EvFetch req reply) w).
Proof.
  intros Hco. cbv zeta.
  unfold CustomShipping.createConsignment, addressRequest, addressErrorDefault.
  rewrite bind_getCheckout, Hco. cbv zeta.
  destruct (find _ (consignments P)) as [ex|];
    unfold try_catch, mbind, M_bind, CustomShipping.fetch,
      CustomShipping.response_ok, CustomShipping.response_json, throw;
    by destruct (gw_fetch E (clock w) _) as [msg|[] [res|]].
Qed.

(** X8.  When the address is accepted, the current item exists, the
    checkout is at hand and the Gateway does not fulfil the request
    (network failure, refusal, reply without body), [handleAddressSelect]
    made that one request and no other call: an update of the consignment
    that the props list for the item alone, or else a creation.  The error
    of the refusal (its title, or the default message) is shown and handed
    to [onUnhandledError], editing is left, the cache and the entries are
    untouched; the address stays selected. *)
Theorem address_select_refused s a w chk item err :
  CustomShipping.addressRejected E a = false →
  CustomShipping.getCurrentItem P s = Some item →
  gw_getCheckout E (clock w) = Some chk →
  let req := addressRequest P chk a item in
  let reply := gw_fetch E (clock w) req in
  refusal (addressErrorDefault P item) reply = Some err →
  let w' := (CustomShipping.handleAddressSelect E P s a w).2 in
  events w' = events w ++ [EvFetch req reply]
  ∧ error (ui w') = Some (err_message err)
  ∧ unhandled w' = unhandled w ++ [err]
  ∧ isEditing (ui w') = false
  ∧ selectedAddress (ui w') = Some a
  ∧ ss w' = ss w
  ∧ itemConsignments (ui w') = itemConsignments (ui w)
  ∧ configuredItems (ui w') = configuredItems (ui w).
Proof.
  intros Hok Hitem Hco req reply Hrefused w'. subst w'.
  unfold CustomShipping.handleAddressSelect. rewrite Hok, !bind_modify, Hitem.
  unfold finally, try_catch.
  rewrite (bind_thrown _ _ _ err
             (with_event (EvFetch req reply)
                (setIsLoading true (setSelectedAddress (Some a) w)))).
  - by rewrite !bind_modify.
  - rewrite (createConsignment_run a item _ chk) by done.
    fold req. change (gw_fetch E _ req) with reply. by rewrite Hrefused.
Qed.

End AddressSelect.

Lemma address_select_refused_witness :
  let w' := (CustomShipping.handleAddressSelect closedGateway cartAB
               (ui freshWorld) home freshWorld).2 in
  error (ui w') = Some "Service unavailable"
  ∧ ss w' = ss freshWorld.
Proof.
  intros w'.
  destruct (address_select_refused closedGateway cartAB (ui freshWorld) home
              freshWorld (checkoutWith []) itemA (Error "Service unavailable"))
    as (_ & Herr & _ & _ & _ & Hss & _); [reflexivity..|].
  by split.
Defined.

Section AddressBound.

Context (E : Env) (P : Props).

(** X9.  When the address is accepted and the Gateway fulfils the request
    with a reply that lists a consignment covering the current item, the
    calls of [handleAddressSelect] are that request and one reload of the
    checkout.  The entry of the item is bound to that consignment: it has
    its id, the address and the options it lists, and keeps the option it
    had; the entries of the other line items are as in the render of the
    handler.  On a store written by this module alone the cache holds,
    under the id of the consignment, the record of the item with the
    address.  No shipping option is selected on the way, also when the
    consignment comes with one; the configured flags are untouched. *)
Theorem address_select_bound s a w chk item res nc c0 :
  CustomShipping.addressRejected E a = false →
  CustomShipping.getCurrentItem P s = Some item →
  gw_getCheckout E (clock w) = Some chk →
  let req := addressRequest P chk a item in
  gw_fetch E (clock w) req = Response true (Some res) →
  find (covers (id_toString (li_id item))) (default [] (rb_consignments res))
  = Some nc →
  entryOf (itemConsignments s) (li_id item) = Some c0 →
  cache_reachable w →
  let w' := (CustomShipping.handleAddressSelect E P s a w).2 in
  events w' = events w ++ [EvFetch req (Response true (Some res)); EvLoadCheckout]
  ∧ entryOf (itemConsignments (ui w')) (li_id item)
    = Some {| cw_id := Some (c_id nc); cw_lineItemId := cw_lineItemId c0;
              cw_shippingAddress := Some a;
              cw_selectedShippingOption := cw_selectedShippingOption c0;
              cw_availableShippingOptions :=
                Some (default [] (c_availableShippingOptions nc)) |}
  ∧ (∀ k, k ≠ li_id item →
          entryOf (itemConsignments (ui w')) k = entryOf (itemConsignments s) k)
  ∧ Persistence.findStoredConsignmentById (c_id nc) w'
    = (Normal (Some (Persistence.consignmentData (c_id nc) (li_id item)
                       (li_quantity item) (Some (address_json a))
                       (CustomShipping.optionIdOrEmpty (c_selectedShippingOption nc)) None)),
       w')
  ∧ selectedAddress (ui w') = Some a
  ∧ selectedShippingOption (ui w') = selectedShippingOption (ui w)
  ∧ configuredItems (ui w') = configuredItems (ui w).
Proof.
  intros Hok Hitem Hco req Hreply Hfind Hc0 Hreach w'. subst w'.
  pose proof (reachable_wf _ Hreach) as Hwf.
  unfold CustomShipping.handleAddressSelect. rewrite Hok, !bind_modify, Hitem.
  unfold finally, try_catch.
  set (w0 := setIsLoading true (setSelectedAddress (Some a) w)).
  pose proof (createConsignment_run E P a item w0 chk Hco) as Hrun.
  cbv zeta in Hrun. change (clock w0) with (clock w) in Hrun. fold req in Hrun.
  rewrite Hreply in Hrun. cbn [refusal] in Hrun.
  rewrite (bind_normal _ _ _ _ _ Hrun). cbv zeta. rewrite Hfind.
  set (w1 := with_event _ w0).
  assert (Hwf1 : cache_wf (ss w1)) by done.
  rewrite (bind_normal _ _ _ _ _ (save_wf w1 _ _ _ _ _ _ Hwf1)).
  set (data := Persistence.consignmentData _ _ _ _ _ _).
  set (w2 := with_ss _ w1).
  set (f := λ c : ConsignmentWithItem,
              {| cw_id := Some (c_id nc); cw_lineItemId := cw_lineItemId c;
                 cw_shippingAddress := Some a;
                 cw_selectedShippingOption := cw_selectedShippingOption c;
                 cw_availableShippingOptions :=
                   Some (default [] (c_availableShippingOptions nc)) |}).
  pose proof (updateEntryOf_spec (li_id item) f (itemConsignments s)
                (λ c, eq_refl)) as Hupd.
  rewrite Hc0 in Hupd. destruct Hupd as (l' & Hupd & Hl' & Hother & _).
  rewrite Hupd, bind_modify.
  set (w3 := setItemConsignments _ w2).
  assert (Hev3 : events w3 = events w ++ [EvFetch req (Response true (Some res))])
    by reflexivity.
  assert (Hent3 : itemConsignments (ui w3) = l') by reflexivity.
  assert (Hss3 : ss w3 = <[Persistence.storageKey :=
                             TJson (JArr (upsert (c_id nc) data (records (ss w))))]>
                           (ss w)) by reflexivity.
  assert (Hsel3 : selectedAddress (ui w3) = Some a
                  ∧ selectedShippingOption (ui w3) = selectedShippingOption (ui w)
                  ∧ configuredItems (ui w3) = configuredItems (ui w))
    by (by repeat split).
  assert (Hlook : ∀ wf, ss wf = ss w3 →
            Persistence.findStoredConsignmentById (c_id nc) wf
            = (Normal (Some data), wf)).
  { intros wf Hwf3. rewrite find_id_wf.
    - by rewrite Hwf3, Hss3, records_insert, find_upsert_id.
    - rewrite Hwf3, Hss3. apply cache_wf_insert, upsert_records; [constructor|].
      by apply cache_wf_parse. }
  clearbody w3. unfold CustomShipping.loadCheckout.
  destruct (gw_loadCheckout E (clock w3)) as [e|];
    [rewrite !bind_modify; unfold CustomShipping.onUnhandledError, modify|];
    cbn [fst snd events ui with_event with_unhandled setIsLoading setError
         setIsEditing with_ui itemConsignments selectedAddress
         selectedShippingOption configuredItems];
    rewrite Hev3, Hent3, <- app_assoc;
    (split; [done|]); (split; [exact Hl'|]); (split; [exact Hother|]);
    (split; [by apply Hlook|done]).
Qed.

End AddressBound.

Lemma address_select_bound_witness :
  let w' := (CustomShipping.handleAddressSelect servingGateway cartAB
               (ui stepOpened) home stepOpened).2 in
  (cw_id <$> entryOf (itemConsignments (ui w')) (IdStr "A")) = Some (Some "cons-3")
  ∧ selectedShippingOption (ui w') = None.
Proof.
  intros w'.
  edestruct (address_select_bound servingGateway cartAB (ui stepOpened) home
               stepOpened) as (_ & Hentry & _ & _ & _ & Hopt & _).
  - reflexivity.
  - reflexivity.
  - reflexivity.
  - reflexivity.
  - reflexivity.
  - reflexivity.
  - apply reach_fresh. reflexivity.
  - split; [|exact Hopt].
    etrans; [exact (f_equal (fmap cw_id) Hentry) | reflexivity].
Defined.

(** ** The selection of an option, off its happy path *)

Section OptionSelect.

Context (E : Env) (P : Props).

Lemma updateConsignmentShippingOption_run w cid oid chk :
  gw_getCheckout E (clock w) = Some chk →
  let req := PutShippingOption (co_id chk) cid false (Some (JStr oid)) in
  let reply := gw_fetch E (clock w) req in
  CustomShipping.updateConsignmentShippingOption E cid oid w
  = (match refusal "Error updating shipping option" reply, reply with
     | None, Response _ (Some res) => Normal res
     | Some err, _ => Thrown err
     | None, _ => Thrown (Error "")
     end,
     with_event (EvFetch req reply) w).
Proof.
  intros Hco. cbv zeta. unfold CustomShipping.updateConsignmentShippingOption.
  rewrite bind_getCheckout, Hco.
  unfold try_catch, mbind, M_bind, CustomShipping.fetch,
    CustomShipping.response_ok, CustomShipping.response_json, throw.
  by destruct (gw_fetch E (clock w) _) as [msg|[] [res|]].
Qed.

(** X10.  When the entry of the current item is bound to a consignment, the
    checkout is at hand and the Gateway does not fulfil the request to set
    the option, [handleShippingOptionSelect] made that one request and no
    other call (the order summary is not refreshed).  The error is shown
    and handed to [onUnhandledError], editing is left, the cache and the
    entries are untouched; the option stays selected in the component. *)
Theorem option_select_refused s o w cur cid chk err :
  CustomShipping.getCurrentConsignment P s = Some cur →
  cw_id cur = Some cid → cid ≠ "" →
  gw_getCheckout E (clock w) = Some chk →
  let req := PutShippingOption (co_id chk) cid false (Some (JStr (so_id o))) in
  let reply := gw_fetch E (clock w) req in
  refusal "Error updating shipping option" reply = Some err →
  let w' := (CustomShipping.handleShippingOptionSelect E P s o w).2 in
  events w' = events w ++ [EvFetch req reply]
  ∧ error (ui w') = Some (err_message err)
  ∧ unhandled w' = unhandled w ++ [err]
  ∧ isEditing (ui w') = false
  ∧ selectedShippingOption (ui w') = Some o
  ∧ ss w' = ss w
  ∧ itemConsignments (ui w') = itemConsignments (ui w)
  ∧ configuredItems (ui w') = configuredItems (ui w).
Proof.
  intros Hcur Hid Hne Hco req reply Hrefused w'. subst w'.
  unfold CustomShipping.handleShippingOptionSelect. rewrite !bind_modify, Hcur.
  destruct cur as [cid' li a so av]. cbn in Hid. subst cid'.
  rewrite bool_decide_eq_false_2 by done.
  unfold finally, try_catch, CustomShipping.selectOptionRemotely.
  set (w0 := setIsLoading true (setSelectedShippingOption (Some o) w)).
  pose proof (updateConsignmentShippingOption_run w0 cid (so_id o) chk Hco) as Hrun.
  cbv zeta in Hrun. change (clock w0) with (clock w) in Hrun.
  fold req in Hrun. fold reply in Hrun. rewrite Hrefused in Hrun.
  rewrite (bind_thrown _ _ _ _ _ (bind_thrown _ _ _ _ _ Hrun)).
  by rewrite !bind_modify.
Qed.

End OptionSelect.

Lemma option_select_refused_witness :
  selectedShippingOption
    (ui (CustomShipping.handleShippingOptionSelect closedGateway cartAB
           (ui (arrive freshWorld)) ground (arrive freshWorld)).2)
  = Some ground.
Proof.
  pose proof (option_select_refused closedGateway cartAB (ui (arrive freshWorld))
                ground (arrive freshWorld)
                {| cw_id := Some "cons-3"; cw_lineItemId := IdStr "A";
                   cw_shippingAddress := Some home;
                   cw_selectedShippingOption := None;
                   cw_availableShippingOptions := Some [ground; express] |}
                "cons-3" (checkoutWith []) (Error "Service unavailable")) as H.
  cbv zeta in H.
  destruct H as (_ & _ & _ & _ & Hsel & _).
  - vm_compute. reflexivity.
  - reflexivity.
  - discriminate.
  - vm_compute. reflexivity.
  - vm_compute. reflexivity.
  - exact Hsel.
Defined.

Section OptionLocal.

Context (E : Env) (P : Props).

Lemma updateOrderSummaryDisplay_no_option :
  emits (λ ev, ∀ cid, isSetOptionOn cid ev = false)
    (CustomShipping.updateOrderSummaryDisplay E).
Proof. unfold CustomShipping.updateOrderSummaryDisplay. emit; done. Qed.

(** X11.  When the entry of the current item is not bound to a consignment
    (there is no entry, or it has no id), [handleShippingOptionSelect] asks
    nothing of the Gateway about shipping options and writes nothing to the
    cache: the option is selected in the component and stored in the entry
    of the item, if there is one; the other entries are as in the render of
    the handler, and no error is shown. *)
Theorem option_select_local s o w :
  (∀ c id, CustomShipping.getCurrentConsignment P s = Some c →
           cw_id c = Some id → id = "") →
  let w' := (CustomShipping.handleShippingOptionSelect E P s o w).2 in
  ss w' = ss w
  ∧ selectedShippingOption (ui w') = Some o
  ∧ error (ui w') = error (ui w)
  ∧ (∃ evs, events w' = events w ++ evs
            ∧ Forall (λ ev, ∀ cid, isSetOptionOn cid ev = false) evs)
  ∧ (∀ item c0,
       CustomShipping.getCurrentItem P s = Some item →
       entryOf (itemConsignments s) (li_id item) = Some c0 →
       entryOf (itemConsignments (ui w')) (li_id item)
       = Some (CustomShipping.withSelectedOption (Some o) c0)
       ∧ ∀ k, k ≠ li_id item →
              entryOf (itemConsignments (ui w')) k = entryOf (itemConsignments s) k).
Proof.
  intros Hlocal w'. subst w'.
  unfold CustomShipping.handleShippingOptionSelect. rewrite !bind_modify.
  set (w0 := setIsLoading true (setSelectedShippingOption (Some o) w)).
  assert (Hbranch :
    match CustomShipping.getCurrentConsignment P s with
    | Some {| cw_id := Some currentId |} =>
        if bool_decide (currentId = "")
        then CustomShipping.selectOptionLocally P s o
        else CustomShipping.selectOptionRemotely E P s o currentId
    | _ => CustomShipping.selectOptionLocally P s o
    end = CustomShipping.selectOptionLocally P s o).
  { destruct (CustomShipping.getCurrentConsignment P s) as [[[id|] li a so av]|];
      [|done..].
    rewrite bool_decide_eq_true_2; [done|]. by eapply Hlocal. }
  rewrite Hbranch. clear Hbranch. unfold finally, try_catch.
  assert (Hloc : ∃ w1,
            CustomShipping.selectOptionLocally P s o w0 = (Normal tt, w1)
            ∧ ss w1 = ss w ∧ events w1 = events w ∧ unhandled w1 = unhandled w
            ∧ selectedShippingOption (ui w1) = Some o
            ∧ error (ui w1) = error (ui w)
            ∧ (∀ item c0,
                 CustomShipping.getCurrentItem P s = Some item →
                 entryOf (itemConsignments s) (li_id item) = Some c0 →
                 entryOf (itemConsignments (ui w1)) (li_id item)
                 = Some (CustomShipping.withSelectedOption (Some o) c0)
                 ∧ ∀ k, k ≠ li_id item →
                        entryOf (itemConsignments (ui w1)) k
                        = entryOf (itemConsignments s) k)).
  { unfold CustomShipping.selectOptionLocally.
    destruct (CustomShipping.getCurrentItem P s) as [item|] eqn:Hitem.
    - pose proof (updateEntryOf_spec (li_id item)
                    (CustomShipping.withSelectedOption (Some o))
                    (itemConsignments s) (λ c, eq_refl)) as Hupd.
      destruct (entryOf (itemConsignments s) (li_id item)) as [c0|] eqn:Hc0.
      + destruct Hupd as (l' & -> & Hl' & Hother & _).
        eexists. split; [reflexivity|]. do 5 (split; [done|]).
        intros item' c0' [= <-] Hc0'. rewrite Hc0 in Hc0'. injection Hc0' as <-.
        split; [exact Hl'|exact Hother].
      + rewrite Hupd. eexists. split; [reflexivity|]. do 5 (split; [done|]).
        intros item' c0' [= <-] Hc0'. congruence.
    - eexists. split; [reflexivity|]. do 5 (split; [done|]). by intros item c0 [=]. }
  destruct Hloc as (w1 & Hrun1 & Hss1 & Hev1 & Hun1 & Hsel1 & Herr1 & Hent1).
  rewrite (bind_normal _ _ _ _ _ Hrun1).
  destruct (updateOrderSummaryDisplay_frame E w1) as (w2 & Hrun2 & Hu2 & Hs2 & Hh2).
  destruct (updateOrderSummaryDisplay_no_option w1) as (evs & Hev2 & HQ).
  rewrite Hrun2 in Hev2 |- *. cbn [fst snd] in Hev2 |- *.
  cbn [ss ui setIsLoading with_ui events selectedShippingOption error
       itemConsignments].
  rewrite Hs2, Hss1, Hu2, Hsel1, Herr1. do 3 (split; [done|]).
  split; [|exact Hent1]. exists evs. by rewrite Hev2, Hev1.
Qed.

End OptionLocal.

Lemma option_select_local_witness :
  let w' := (CustomShipping.handleShippingOptionSelect servingGateway cartAB
               (ui stepOpened) ground stepOpened).2 in
  ss w' = ss stepOpened ∧ selectedShippingOption (ui w') = Some ground.
Proof.
  intros w'.
  destruct (option_select_local servingGateway cartAB (ui stepOpened) ground
              stepOpened) as (Hss & Hsel & _).
  - intros c id Hc Hid. vm_compute in Hc. injection Hc as <-. discriminate Hid.
  - split; [exact Hss|exact Hsel].
Defined.

(** ** Editing a configured item *)

Section Edit.

Context (E : Env) (P : Props).

Lemma fetch_run req w ok body :
  gw_fetch E (clock w) req = Response ok body →
  CustomShipping.fetch E req w
  = (Normal (ok, body), with_event (EvFetch req (Response ok body)) w).
Proof. intros H. unfold CustomShipping.fetch. by rewrite H. Qed.

Lemma markOnlyEdited_empty key : CustomShipping.markOnlyEdited key ∅ = ∅.
Proof. unfold CustomShipping.markOnlyEdited. apply map_imap_empty. Qed.

Lemma markOnlyEdited_lookup key m k :
  CustomShipping.markOnlyEdited key m !! k
  = (λ _, negb (bool_decide (k = key))) <$> m !! k.
Proof.
  unfold CustomShipping.markOnlyEdited. rewrite map_lookup_imap.
  by destruct (m !! k).
Qed.

Lemma handleEditConsignment_opened s index w chk item data rc c0 :
  CustomShipping.isAnyItemEditing (configuredItems s) = false →
  nthZ (physicalItems P) index = Some item →
  gw_getCheckout E (clock w) = Some chk →
  gw_fetch E (clock w) (GetCheckout (co_id chk) includeCartAndOptions)
  = Response true (Some data) →
  find (covers (id_toString (li_id item))) (default [] (rb_consignments data))
  = Some rc →
  entryOf (itemConsignments s) (li_id item) = Some c0 →
  cache_wf (ss w) →
  ∃ w',
    CustomShipping.handleEditConsignment E P s index w = (Normal tt, w')
    ∧ isEditing (ui w') = true
    ∧ isLoading (ui w') = false
    ∧ currentItemIndex (ui w') = index
    ∧ configuredItems (ui w')
      = CustomShipping.markOnlyEdited (id_toString (li_id item)) (configuredItems s)
    ∧ (selectedAddress (ui w'), selectedShippingOption (ui w'))
      = match c_shippingAddress rc, c_selectedShippingOption rc with
        | Some a, Some o => (Some a, Some o)
        | _, _ => (None, None)
        end
    ∧ entryOf (itemConsignments (ui w')) (li_id item)
      = Some {| cw_id := Some (c_id rc); cw_lineItemId := cw_lineItemId c0;
                cw_shippingAddress := c_shippingAddress rc;
                cw_selectedShippingOption := c_selectedShippingOption rc;
                cw_availableShippingOptions :=
                  Some (default [] (c_availableShippingOptions rc)) |}
    ∧ ss w'
      = <[Persistence.storageKey :=
            TJson (JArr (upsert (c_id rc)
                           (Persistence.consignmentData (c_id rc) (li_id item)
                              (li_quantity item)
                              (address_json <$> c_shippingAddress rc)
                              (CustomShipping.optionIdOrEmpty
                                 (c_selectedShippingOption rc)) None)
                           (records (ss w))))]> (ss w).
Proof.
  intros Hnot Hitem Hco Hget Hfind Hc0 Hwf.
  unfold CustomShipping.handleEditConsignment. rewrite Hnot, !bind_modify.
  unfold finally, try_catch. cbv zeta. rewrite Hitem.
  rewrite bind_getCheckout.
  cbn [clock setIsLoading setIsEditing setCurrentItemIndex with_ui]. rewrite Hco.
  set (w0 := setCurrentItemIndex index (setIsEditing true (setIsLoading true w))).
  rewrite (bind_normal _ _ _ _ _ (fetch_run _ w0 _ _ Hget)).
  unfold CustomShipping.response_ok, CustomShipping.response_json. cbn [fst snd].
  rewrite bind_ret. rewrite bind_ret.
  set (w1 := with_event _ w0).
  assert (Hrel :
    (match rb_consignments data with
     | Some ((_ :: _) as l) =>
         mret (id_toString (li_id item))
         ≫= λ key : string, mret (find (covers key) l)
     | _ => mret None
     end : M (option Consignment)) w1 = (Normal (Some rc), w1)).
  { destruct (rb_consignments data) as [[|c l]|]; try done.
    rewrite bind_ret. change (default [] (Some (c :: l))) with (c :: l) in Hfind.
    by rewrite Hfind. }
  rewrite (bind_normal _ _ _ _ _ Hrel).
  assert (Hflags :
    ((if bool_decide (configuredItems s = ∅)
      then mret (configuredItems s)
      else mret (id_toString (li_id item))
           ≫= λ key : string,
                mret (CustomShipping.markOnlyEdited key (configuredItems s)))
     : M (gmap string bool)) w1
    = (Normal (CustomShipping.markOnlyEdited (id_toString (li_id item))
                 (configuredItems s)), w1)).
  { case_bool_decide as He; [|done]. by rewrite He, markOnlyEdited_empty. }
  rewrite (bind_normal _ _ _ _ _ Hflags). rewrite !bind_modify.
  unfold Persistence.updateStoredConsignment.
  set (w2 := setSelectedShippingOption None (setSelectedAddress None w1)).
  assert (Hwf2 : cache_wf (ss w2)) by done.
  rewrite !bind_assoc.
  rewrite (bind_normal _ _ _ _ _ (save_wf w2 _ _ _ _ _ _ Hwf2)).
  set (dat := Persistence.consignmentData _ _ _ _ _ _).
  set (w3 := with_ss _ w2).
  set (f := λ c : ConsignmentWithItem,
              {| cw_id := Some (c_id rc); cw_lineItemId := cw_lineItemId c;
                 cw_shippingAddress := c_shippingAddress rc;
                 cw_selectedShippingOption := c_selectedShippingOption rc;
                 cw_availableShippingOptions :=
                   Some (default [] (c_availableShippingOptions rc)) |}).
  pose proof (updateEntryOf_spec (li_id item) f (itemConsignments s)
                (λ c, eq_refl)) as Hupd.
  rewrite Hc0 in Hupd. destruct Hupd as (l' & Hupd & Hl' & Hother & _).
  rewrite Hupd. rewrite !bind_assoc, bind_modify.
  set (w4 := setItemConsignments _ w3).
  assert (Hfacts4 : isEditing (ui w4) = true ∧ currentItemIndex (ui w4) = index
                    ∧ itemConsignments (ui w4) = l'
                    ∧ ss w4 = <[Persistence.storageKey :=
                                  TJson (JArr (upsert (c_id rc) dat (records (ss w))))]>
                                (ss w)) by done.
  destruct Hfacts4 as (Hed4 & Hix4 & Hent4 & Hss4).
  assert (Hsel :
    ∃ w5, (match c_shippingAddress rc with
           | Some a =>
               match c_selectedShippingOption rc with
               | Some o =>
                   modify (setSelectedAddress (Some a))
                   ≫= λ _ : (), modify (setSelectedShippingOption (Some o))
               | None => mret ()
               end
           | None => mret ()
           end) w4 = (Normal tt, w5)
          ∧ isEditing (ui w5) = true ∧ currentItemIndex (ui w5) = index
          ∧ itemConsignments (ui w5) = l' ∧ ss w5 = ss w4
          ∧ (selectedAddress (ui w5), selectedShippingOption (ui w5))
            = match c_shippingAddress rc, c_selectedShippingOption rc with
              | Some a, Some o => (Some a, Some o)
              | _, _ => (None, None)
              end).
  { destruct (c_shippingAddress rc) as [a|], (c_selectedShippingOption rc) as [o|];
      by eexists. }
  destruct Hsel as (w5 & Hrun5 & Hed5 & Hix5 & Hent5 & Hss5 & Hsel5).
  clearbody w4. rewrite (bind_normal _ _ _ _ _ Hrun5), bind_modify.
  match goal with
  | |- context [CustomShipping.refreshCheckoutTotals E ?w0] =>
      destruct (refreshCheckoutTotals_frame E w0) as (w6 & -> & Hui6 & Hss6 & _)
  end.
  eexists. split; [reflexivity|]. cbn [ui setIsLoading with_ui isEditing isLoading
    currentItemIndex configuredItems selectedAddress selectedShippingOption
    itemConsignments ss].
  rewrite Hui6, Hss6.
  cbn [ui setIsLoading setConfiguredItems with_ui isEditing isLoading
    currentItemIndex configuredItems selectedAddress selectedShippingOption
    itemConsignments ss].
  rewrite Hed5, Hix5, Hent5, Hss5, Hss4, Hsel5. by repeat split.
Qed.

(** X12.  When no item is being edited, the item at [index] exists and has
    an entry, the checkout is at hand and the Gateway lists a consignment
    that covers the item, [handleEditConsignment] resolves with the pointer
    on the item and edit mode on.  The item is marked unconfigured and every
    other flag is set; the entry of the item is bound to that consignment
    and takes its address, option and options; the selections are those of
    the consignment when it has both an address and an option, and none
    otherwise; on a store written by this module alone the cache holds the
    record of the consignment.  If the item had a flag, a further
    [handleEditConsignment] is refused until the item is configured
    again. *)
Theorem edit_opens_item s index w chk item data rc c0 :
  CustomShipping.isAnyItemEditing (configuredItems s) = false →
  nthZ (physicalItems P) index = Some item →
  gw_getCheckout E (clock w) = Some chk →
  gw_fetch E (clock w) (GetCheckout (co_id chk) includeCartAndOptions)
  = Response true (Some data) →
  find (covers (id_toString (li_id item))) (default [] (rb_consignments data))
  = Some rc →
  entryOf (itemConsignments s) (li_id item) = Some c0 →
  cache_reachable w →
  let key := id_toString (li_id item) in
  let r := CustomShipping.handleEditConsignment E P s index w in
  let w' := r.2 in
  r.1 = Normal tt
  ∧ isEditing (ui w') = true
  ∧ currentItemIndex (ui w') = index
  ∧ (∀ k, configuredItems (ui w') !! k
          = (λ _, negb (bool_decide (k = key))) <$> configuredItems s !! k)
  ∧ (selectedAddress (ui w'), selectedShippingOption (ui w'))
    = match c_shippingAddress rc, c_selectedShippingOption rc with
      | Some a, Some o => (Some a, Some o)
      | _, _ => (None, None)
      end
  ∧ entryOf (itemConsignments (ui w')) (li_id item)
    = Some {| cw_id := Some (c_id rc); cw_lineItemId := cw_lineItemId c0;
              cw_shippingAddress := c_shippingAddress rc;
              cw_selectedShippingOption := c_selectedShippingOption rc;
              cw_availableShippingOptions :=
                Some (default [] (c_availableShippingOptions rc)) |}
  ∧ Persistence.findStoredConsignmentById (c_id rc) w'
    = (Normal (Some (Persistence.consignmentData (c_id rc) (li_id item)
                       (li_quantity item) (address_json <$> c_shippingAddress rc)
                       (CustomShipping.optionIdOrEmpty (c_selectedShippingOption rc))
                       None)), w')
  ∧ (is_Some (configuredItems s !! key) →
     ∀ j, CustomShipping.handleEditConsignment E P (ui w') j w'
          = (Normal tt,
             setError (Some "Please complete editing the current item first") w')).
Proof.
  intros Hnot Hitem Hco Hget Hfind Hc0 Hreach key r w'. subst r w'.
  pose proof (reachable_wf _ Hreach) as Hwf.
  destruct (handleEditConsignment_opened s index w chk item data rc c0
              Hnot Hitem Hco Hget Hfind Hc0 Hwf)
    as (w' & -> & Hed & _ & Hix & Hflags & Hsel & Hent & Hss).
  cbn [fst snd]. do 3 (split; [done|]).
  split; [intros k; by rewrite Hflags, markOnlyEdited_lookup|].
  do 2 (split; [done|]). split.
  - rewrite find_id_wf.
    + by rewrite Hss, records_insert, find_upsert_id.
    + rewrite Hss. apply cache_wf_insert, upsert_records; [constructor|].
      by apply cache_wf_parse.
  - intros [b Hb] j. unfold CustomShipping.handleEditConsignment.
    rewrite (isAnyItemEditing_true _ key); [done|].
    rewrite Hflags, markOnlyEdited_lookup, Hb. cbn.
    by rewrite bool_decide_eq_true_2.
Qed.


End Edit.

Lemma edit_opens_item_witness :
  let w' := (CustomShipping.handleEditConsignment noOptionsGateway cartAB
               configuredAB 0 allConfigured).2 in
  currentItemIndex (ui w') = 0
  ∧ configuredItems (ui w') !! "A" = Some false
  ∧ configuredItems (ui w') !! "B" = Some true.
Proof.
  pose proof (edit_opens_item noOptionsGateway cartAB configuredAB 0 allConfigured
                {| co_id := "chk"; co_cartId := "cart"; co_customerMessage := "";
                   co_consignments := []; co_physicalItems := [itemA; itemB] |}
                itemA
                {| rb_consignments :=
                     Some (consignmentFor "c-A0" "A" home
                           :: imap createdFor
                                (CustomShipping.splitConsignments (IdStr "B") 3));
                   rb_title := None; rb_error := None |}
                (consignmentFor "c-A0" "A" home)
                {| cw_id := Some "c-A0"; cw_lineItemId := IdStr "A";
                   cw_shippingAddress := Some home;
                   cw_selectedShippingOption := Some ground;
                   cw_availableShippingOptions := Some [ground] |}) as H.
  cbv zeta in H.
  destruct H as (_ & _ & Hix & Hflags & _).
  - vm_compute. reflexivity.
  - reflexivity.
  - reflexivity.
  - vm_compute. reflexivity.
  - vm_compute. reflexivity.
  - vm_compute. reflexivity.
  - apply reach_fresh. reflexivity.
  - intros w'. split; [exact Hix|]. split.
    + etrans; [apply Hflags|]. vm_compute. reflexivity.
    + etrans; [apply Hflags|]. vm_compute. reflexivity.
Defined.


(** ** The order in which the items are shown *)

Section Ordering.

Context (P : Props).

Lemma findIndexZ_range {A} (p : A → bool) (l : list A) :
  findIndexZ p l = -1 ∨ 0 ≤ findIndexZ p l < Z.of_nat (length l).
Proof.
  induction l as [|x l IH]; [by left|]. cbn [findIndexZ length].
  destruct (p x); [right; lia|]. case_bool_decide; [right; lia | by left].
Qed.

Lemma findIndexZ_lookup {A} (p : A → bool) (l : list A) (i : nat) x :
  l !! i = Some x → p x = true →
  (∀ (j : nat) y, (j < i)%nat → l !! j = Some y → p y = false) →
  findIndexZ p l = Z.of_nat i.
Proof.
  revert i. induction l as [|z l IH]; intros i Hi Hx Hbefore; [done|].
  cbn [findIndexZ]. destruct i as [|i].
  - cbn in Hi. simplify_eq. by rewrite Hx.
  - rewrite (Hbefore 0%nat z) by (done || lia).
    rewrite (IH i); [|done|done|].
    + rewrite bool_decide_eq_true_2 by lia. lia.
    + intros j y Hj Hy. apply (Hbefore (S j) y); [lia|done].
Qed.

Lemma compare_rank order a b :
  Shell.compareByOriginalOrder order a b ≤ 0
  ↔ orderRank order a ≤ orderRank order b.
Proof.
  unfold Shell.compareByOriginalOrder, orderRank, Shell.indexOf. cbv zeta.
  destruct (findIndexZ_range (λ x, bool_decide (x = id_toString (li_id a))) order),
    (findIndexZ_range (λ x, bool_decide (x = id_toString (li_id b))) order);
    repeat case_bool_decide; cbn; lia.
Qed.

Lemma insertSorted_perm {A} (cmp : A → A → Z) x l :
  Shell.insertSorted cmp x l ≡ₚ x :: l.
Proof.
  induction l as [|y l IH]; [done|]. cbn. case_bool_decide; [done|].
  rewrite IH. apply Permutation_swap.
Qed.

Lemma sortBy_perm {A} (cmp : A → A → Z) l : Shell.sortBy cmp l ≡ₚ l.
Proof.
  unfold Shell.sortBy. induction l as [|x l IH]; [done|]. cbn.
  by rewrite insertSorted_perm, IH.
Qed.

Lemma ranked_lookup rank l (i j : nat) x y :
  ranked rank l → (i < j)%nat → l !! i = Some x → l !! j = Some y →
  rank x ≤ rank y.
Proof.
  revert i j. induction l as [|z l IH]; intros i j Hr Hij Hi Hj; [done|].
  destruct Hr as [Hz Hl]. destruct j as [|j]; [lia|]. destruct i as [|i].
  - cbn in Hi, Hj. simplify_eq. eapply Forall_forall in Hz; [done|].
    by eapply list_elem_of_lookup_2.
  - apply (IH i j); [done|lia|done|done].
Qed.

Lemma insertSorted_ranked order x l :
  ranked (orderRank order) l →
  ranked (orderRank order)
    (Shell.insertSorted (Shell.compareByOriginalOrder order) x l).
Proof.
  induction l as [|y l IH]; intros Hl; [done|]. destruct Hl as [Hy Hl]. cbn.
  case_bool_decide as Hc; rewrite compare_rank in Hc.
  - split; [|done]. constructor; [done|].
    eapply Forall_impl; [done|]. cbn. intros; lia.
  - split; [|by apply IH]. rewrite insertSorted_perm. constructor; [lia|done].
Qed.

Lemma sortBy_ranked order l :
  ranked (orderRank order) (Shell.sortBy (Shell.compareByOriginalOrder order) l).
Proof.
  unfold Shell.sortBy. induction l as [|x l IH]; [done|]. cbn.
  by apply insertSorted_ranked.
Qed.

Lemma insertSorted_stable order x l r :
  filter (λ z, orderRank order z = r)
    (Shell.insertSorted (Shell.compareByOriginalOrder order) x l)
  = filter (λ z, orderRank order z = r) (x :: l).
Proof.
  induction l as [|y l IH]; [done|]. cbn [Shell.insertSorted].
  case_bool_decide as Hc; [done|]. rewrite compare_rank in Hc.
  rewrite (filter_cons _ y), IH, !filter_cons.
  repeat case_decide; try done; lia.
Qed.

Lemma sortBy_stable order l r :
  filter (λ z, orderRank order z = r)
    (Shell.sortBy (Shell.compareByOriginalOrder order) l)
  = filter (λ z, orderRank order z = r) l.
Proof.
  unfold Shell.sortBy. induction l as [|x l IH]; [done|]. cbn [foldr].
  rewrite insertSorted_stable, !filter_cons. by rewrite IH.
Qed.

Lemma sortBy_id order l :
  ranked (orderRank order) l →
  Shell.sortBy (Shell.compareByOriginalOrder order) l = l.
Proof.
  unfold Shell.sortBy. induction l as [|x l IH]; [done|]. intros [Hx Hl].
  cbn [foldr]. rewrite IH by done. destruct l as [|y l]; [done|]. cbn.
  rewrite bool_decide_eq_true_2; [done|]. apply compare_rank.
  by apply Forall_cons_1 in Hx as [? _].
Qed.

Lemma orderRank_own (items : list LineItem) (i : nat) x :
  NoDup ((λ item, id_toString (li_id item)) <$> items) →
  items !! i = Some x →
  orderRank ((λ item, id_toString (li_id item)) <$> items) x = Z.of_nat i.
Proof.
  intros Hnd Hi. unfold orderRank, Shell.indexOf. cbv zeta.
  rewrite (findIndexZ_lookup _ _ i (id_toString (li_id x))).
  - rewrite bool_decide_eq_false_2 by lia. done.
  - by rewrite list_lookup_fmap, Hi.
  - by apply bool_decide_eq_true_2.
  - intros j y Hj Hy. apply bool_decide_eq_false_2. intros ->.
    assert (j = i); [|lia].
    eapply NoDup_lookup; [done|done|]. by rewrite list_lookup_fmap, Hi.
Qed.

Lemma ranked_of_lookup (rank : LineItem → Z) l :
  (∀ (i j : nat) x y, (i < j)%nat → l !! i = Some x → l !! j = Some y →
                      rank x ≤ rank y) →
  ranked rank l.
Proof.
  induction l as [|z l IH]; intros H; [done|]. split.
  - apply Forall_forall. intros y [j Hj]%list_elem_of_lookup_1.
    apply (H 0%nat (S j)); [lia|done|done].
  - apply IH. intros i j x y Hij Hi Hj. apply (H (S i) (S j)); [lia|done|done].
Qed.

(** X15.  The items are shown in the order of [originalItemOrder]: the list
    shown is a rearrangement of the physical items of the cart, in which
    an item never comes after one that [originalItemOrder] lists earlier,
    the items it does not list come last, and items on a par (the same
    position, or not listed) keep the order they have in the cart.  When
    [originalItemOrder] is the list of the ids of the cart, all distinct,
    the list shown is the cart's. *)
Theorem ordered_items s :
  let order := originalItemOrder s in
  let ids := (λ item, id_toString (li_id item)) <$> physicalItems P in
  let ordered := Shell.getOrderedPhysicalItems P s in
  ordered ≡ₚ physicalItems P
  ∧ (∀ (i j : nat) x y,
       (i < j)%nat → ordered !! i = Some x → ordered !! j = Some y →
       orderRank order x ≤ orderRank order y)
  ∧ (∀ r, filter (λ x, orderRank order x = r) ordered
          = filter (λ x, orderRank order x = r) (physicalItems P))
  ∧ (NoDup ids → order = ids → ordered = physicalItems P).
Proof.
  cbv zeta. unfold Shell.getOrderedPhysicalItems.
  split; [apply sortBy_perm|]. split; [|split].
  - intros i j x y. apply ranked_lookup, sortBy_ranked.
  - intros r. apply sortBy_stable.
  - intros Hnd ->. apply sortBy_id, ranked_of_lookup.
    intros i j x y Hij Hi Hj.
    rewrite (orderRank_own _ i x), (orderRank_own _ j y) by done. lia.
Qed.

End Ordering.

(** ** Entries with the same address *)

Section Duplicates.

Context (E : Env).




End Duplicates.

(** ** The effect on the pointer *)

Section CurrentItem.

Context (E : Env) (P : Props).

(** X16.  The effect on the pointer does nothing in edit mode.  Otherwise it
    always resolves, with one reload of the checkout as its only call and
    [isLoading] false at its end; it leaves the cache, the entries, the
    flags, the pointer and the error message as they are.  When the reload
    fails the error is logged only, and nothing is selected.  When it
    succeeds the selections are those of the first consignment of the
    checkout that covers the current item, if that consignment lists
    shipping options and has both an address and an option; in every other
    case nothing is selected. *)
Theorem current_item_effect s w :
  let r := Shell.currentItemEffect E P s w in
  let w' := r.2 in
  r.1 = Normal tt
  ∧ (isEditing s = true → r = (Normal tt, w))
  ∧ (isEditing s = false →
     events w' = events w ++ [EvLoadCheckout]
     ∧ isLoading (ui w') = false
     ∧ ss w' = ss w
     ∧ unhandled w' = unhandled w
     ∧ error (ui w') = error (ui w)
     ∧ itemConsignments (ui w') = itemConsignments (ui w)
     ∧ configuredItems (ui w') = configuredItems (ui w)
     ∧ currentItemIndex (ui w') = currentItemIndex (ui w)
     ∧ match gw_loadCheckout E (clock w) with
       | Some err =>
           selectedAddress (ui w') = None
           ∧ selectedShippingOption (ui w') = None
           ∧ console w'
             = console w ++ ["Error loading current item shipping options: "
                             +:+ err_message err]
       | None =>
           console w' = console w
           ∧ (selectedAddress (ui w'), selectedShippingOption (ui w'))
             = match CustomShipping.getCurrentItem P s with
               | Some item =>
                   remoteSelections
                     (match gw_getCheckout E (S (clock w)) with
                      | Some c => co_consignments c
                      | None => []
                      end) item
               | None => (None, None)
               end
       end).
Proof.
  cbv zeta. unfold Shell.currentItemEffect.
  destruct (isEditing s) eqn:Hed; [by repeat split|].
  unfold Shell.loadCurrentItemShippingOptions, CustomShipping.loadCheckout,
    CustomShipping.getCheckout, remoteSelections, finally, try_catch, mbind, M_bind,
    modify, read, console_error.
  cbn. destruct (gw_loadCheckout E (clock w)) as [err|]; cbn.
  - split; [done|]. split; [done|]. intros _. by repeat split.
  - destruct (CustomShipping.getCurrentItem P s) as [item|]; cbn.
    2: { split; [done|]. split; [done|]. intros _. by repeat split. }
    destruct (gw_getCheckout E (S (clock w))) as [chk|]; cbn.
    2: { split; [done|]. split; [done|]. intros _. by repeat split. }
    destruct (find _ (co_consignments chk)) as [c|]; cbn.
    2: { split; [done|]. split; [done|]. intros _. by repeat split. }
    destruct (c_availableShippingOptions c) as [[|o l]|],
      (c_shippingAddress c), (c_selectedShippingOption c); cbn;
      (split; [done|]; split; [done|]; intros _; by repeat split).
Qed.

End CurrentItem.
